(** * mor4: modifier canonicalisation, request executor, storage gateway
      and database updater, embedded from the TypeScript sources.

    Layout: first the definitions (the fragments of the JavaScript standard
    library the sources call, then one module per source file), then the
    facts proved about them. *)

From Stdlib Require Import List String Ascii Bool Arith ZArith QArith Qround.
From Stdlib Require Import Lia Lqa Permutation Sorted.
From Stdlib Require DecimalString DecimalFacts DecimalPos DecimalZ.
Import ListNotations.

Local Open Scope string_scope.

(* ================================================================== *)
(** * Part I: definitions                                              *)
(* ================================================================== *)

(** ** JavaScript values the sources rely on *)

Module JS.

(** Exceptions thrown by the sources: [throw new TypeError(msg)],
    [throw new RangeError(msg)]; [OtherError] stands for any other thrown
    value (a rejected database promise, a non-[TypeError] fetch failure). *)
Inductive Error : Type :=
| TypeError (msg : string)
| RangeError (msg : string)
| OtherError (msg : string).

(** The outcome of evaluating a call that may throw. *)
Inductive Result (A : Type) : Type :=
| Ok (a : A)
| Throw (e : Error).
Arguments Ok {A} a.
Arguments Throw {A} e.

Definition isTypeError (e : Error) : bool :=
  match e with TypeError _ => true | _ => false end.

(** [Array.prototype.join(sep)] on an array of strings. *)
Fixpoint join (sep : string) (l : list string) : string :=
  match l with
  | [] => ""
  | [x] => x
  | x :: rest => x ++ sep ++ join sep rest
  end.

(** Drop the first [n] characters. *)
Fixpoint drop (n : nat) (s : string) : string :=
  match n, s with
  | O, _ => s
  | S _, EmptyString => EmptyString
  | S k, String _ s' => drop k s'
  end.

(** [String.prototype.replace(pat, rep)] with a string pattern: only the
    first occurrence is replaced ([rep] holds no [$] pattern in the
    sources). *)
Fixpoint replace (pat rep s : string) : string :=
  if String.prefix pat s then rep ++ drop (String.length pat) s
  else match s with
       | EmptyString => EmptyString
       | String c s' => String c (replace pat rep s')
       end.

(** [String.prototype.replaceAll(pat, rep)] for a non-empty string pattern:
    every occurrence, scanning left to right without overlap.  [skip]
    counts the characters of a match still to be passed over. *)
Fixpoint replaceAll_from (skip : nat) (pat rep s : string) : string :=
  match s with
  | EmptyString => EmptyString
  | String c s' =>
      match skip with
      | S k => replaceAll_from k pat rep s'
      | O => if String.prefix pat s
             then rep ++ replaceAll_from (String.length pat - 1) pat rep s'
             else String c (replaceAll_from O pat rep s')
      end
  end.

Definition replaceAll (pat rep s : string) : string :=
  replaceAll_from O pat rep s.

(** [Array.prototype.indexOf]: the first index holding [x], or [-1]. *)
Fixpoint indexOf_from (i : Z) (l : list string) (x : string) : Z :=
  match l with
  | [] => (-1)%Z
  | y :: rest => if String.eqb y x then i else indexOf_from (i + 1)%Z rest x
  end.

Definition indexOf (l : list string) (x : string) : Z := indexOf_from 0%Z l x.

(** [Array.prototype.includes] on an array of strings. *)
Definition includes (l : list string) (x : string) : bool :=
  existsb (String.eqb x) l.

(** [String.prototype.includes]. *)
Fixpoint str_includes (s pat : string) : bool :=
  if String.prefix pat s then true
  else match s with
       | EmptyString => false
       | String _ s' => str_includes s' pat
       end.

(** [Array.prototype.sort(cmp)].  The sort is stable (ECMAScript 2019); for
    a comparator that is a consistent ordering, as the two in the sources
    are, its result is that of this stable insertion sort: [a] is placed
    before the first [b] with [cmp a b <= 0]. *)
Section Sort.
Context {A : Type} (cmp : A -> A -> Z).

Fixpoint insert (a : A) (l : list A) : list A :=
  match l with
  | [] => [a]
  | b :: rest => if (cmp a b <=? 0)%Z then a :: b :: rest
                 else b :: insert a rest
  end.

Fixpoint sort (l : list A) : list A :=
  match l with
  | [] => []
  | a :: rest => insert a (sort rest)
  end.
End Sort.

(** [Array.prototype.slice(0, n)]. *)
Definition slice0 {A : Type} (n : nat) (l : list A) : list A := firstn n l.

(** A line terminator, which [.] does not match (the strings of the model
    are ASCII). *)
Definition isLineTerminator (c : ascii) : bool :=
  (Ascii.eqb c "010" || Ascii.eqb c "013")%char.

(** [s.match(/.{1,2}/g) || []]: the successive greedy matches of one or two
    characters other than line terminators. *)
Fixpoint match_dot_1_2 (s : string) : list string :=
  match s with
  | EmptyString => []
  | String c s' =>
      if isLineTerminator c then match_dot_1_2 s'
      else match s' with
           | EmptyString => [String c EmptyString]
           | String d s'' =>
               if isLineTerminator d
               then String c EmptyString :: match_dot_1_2 s''
               else String c (String d EmptyString) :: match_dot_1_2 s''
           end
  end.

(** [Number.prototype.toString] of an integer: its decimal numeral. *)
Definition numberToString (n : Z) : string :=
  DecimalString.NilZero.string_of_int (Z.to_int n).

(** White space and line terminators, which [parseInt] skips at the start
    of its argument (tab, line feed, vertical tab, form feed, carriage
    return, space). *)
Definition isWhiteSpace (c : ascii) : bool :=
  let n := nat_of_ascii c in
  (((9 <=? n) && (n <=? 13)) || (n =? 32))%nat.

Fixpoint trimStart (s : string) : string :=
  match s with
  | EmptyString => EmptyString
  | String c s' => if isWhiteSpace c then trimStart s' else s
  end.

(** The value of a character as a digit of the radix (10 or 16). *)
Definition digitValue (radix : Z) (c : ascii) : option Z :=
  let n := Z.of_nat (nat_of_ascii c) in
  let v := if ((48 <=? n) && (n <=? 57))%Z then Some (n - 48)%Z
           else if ((97 <=? n) && (n <=? 102))%Z then Some (n - 87)%Z
           else if ((65 <=? n) && (n <=? 70))%Z then Some (n - 55)%Z
           else None in
  match v with
  | Some d => if (d <? radix)%Z then Some d else None
  | None => None
  end.

(** The value of the longest prefix of [s] made of digits of the radix;
    [acc] is the value of the digits read so far, [None] when none was. *)
Fixpoint parseDigits (radix : Z) (s : string) (acc : option Z) : option Z :=
  match s with
  | EmptyString => acc
  | String c s' =>
      match digitValue radix c with
      | Some d =>
          parseDigits radix s'
            (Some (radix * match acc with Some a => a | None => 0 end + d)%Z)
      | None => acc
      end
  end.

(** [parseInt(s)] without a radix: leading white space is skipped, a sign
    is read, [0x] or [0X] selects radix 16, and the longest prefix of
    digits is the value; [None] is [NaN], returned when that prefix is
    empty.  The value is the mathematical one, which the Number returned
    is up to 2^53; the rounding beyond changes neither its sign nor
    whether it is [NaN]. *)
Definition parseInt (s : string) : option Z :=
  let s := trimStart s in
  let '(sign, s) :=
    match s with
    | String "-"%char s' => ((-1)%Z, s')
    | String "+"%char s' => (1%Z, s')
    | _ => (1%Z, s)
    end in
  let '(radix, s) :=
    match s with
    | String "0"%char (String "x"%char s') => (16%Z, s')
    | String "0"%char (String "X"%char s') => (16%Z, s')
    | _ => (10%Z, s)
    end in
  option_map (Z.mul sign) (parseDigits radix s None).

(** [Array.prototype.findIndex]: the first index whose element passes the
    test, or [-1]. *)
Fixpoint findIndex_from {A : Type} (i : Z) (f : A -> bool) (l : list A) : Z :=
  match l with
  | [] => (-1)%Z
  | x :: rest => if f x then i else findIndex_from (i + 1)%Z f rest
  end.

Definition findIndex {A : Type} (f : A -> bool) (l : list A) : Z :=
  findIndex_from 0%Z f l.

(** [Math.ceil]. *)
Definition mathCeil (x : Q) : Z := Qceiling x.

End JS.

Import JS.

(** ** src/util/Common.ts *)

Module OsuMod.
(** [enum OsuMod], in declaration order. *)
Inductive t : Type := EZ | NF | HT | SO | HR | SD | PF | DT | NC | HD | FL.

Definition keys : list t := [EZ; NF; HT; SO; HR; SD; PF; DT; NC; HD; FL].

(** The string value of a member ([OsuMod.NC.toString()]). *)
Definition toString (m : t) : string :=
  match m with
  | EZ => "EZ" | NF => "NF" | HT => "HT" | SO => "SO" | HR => "HR"
  | SD => "SD" | PF => "PF" | DT => "DT" | NC => "NC" | HD => "HD"
  | FL => "FL"
  end.
End OsuMod.

Module MORMod.
(** [enum MORMod], in declaration order: the names of the score tables. *)
Inductive t : Type :=
| NM | DT | HR | HD | EZ | HT | FL
| HDDT | HRDT | EZDT | DTFL | EZHT | HDHR | HDHT | EZHD | HRHT | EZFL
| HRFL | HTFL | HDFL
| HDHRDT | HDDTFL | EZHDDT | HRDTFL | EZDTFL | HDHTFL | HDHRHT | HRHTFL
| EZHDHT | EZHTFL | EZHDFL | HDHRFL
| HDHRDTFL | EZHDDTFL | EZHDHTFL | HDHRHTFL.

(** [for (const key in MORMod)] / [Object.keys(MORMod)]. *)
Definition keys : list t :=
  [ NM; DT; HR; HD; EZ; HT; FL;
    HDDT; HRDT; EZDT; DTFL; EZHT; HDHR; HDHT; EZHD; HRHT; EZFL;
    HRFL; HTFL; HDFL;
    HDHRDT; HDDTFL; EZHDDT; HRDTFL; EZDTFL; HDHTFL; HDHRHT; HRHTFL;
    EZHDHT; EZHTFL; EZHDFL; HDHRFL;
    HDHRDTFL; EZHDDTFL; EZHDHTFL; HDHRHTFL ].

(** The string value of a member; every member's value is its key. *)
Definition toString (m : t) : string :=
  match m with
  | NM => "NM" | DT => "DT" | HR => "HR" | HD => "HD" | EZ => "EZ"
  | HT => "HT" | FL => "FL"
  | HDDT => "HDDT" | HRDT => "HRDT" | EZDT => "EZDT" | DTFL => "DTFL"
  | EZHT => "EZHT" | HDHR => "HDHR" | HDHT => "HDHT" | EZHD => "EZHD"
  | HRHT => "HRHT" | EZFL => "EZFL" | HRFL => "HRFL" | HTFL => "HTFL"
  | HDFL => "HDFL"
  | HDHRDT => "HDHRDT" | HDDTFL => "HDDTFL" | EZHDDT => "EZHDDT"
  | HRDTFL => "HRDTFL" | EZDTFL => "EZDTFL" | HDHTFL => "HDHTFL"
  | HDHRHT => "HDHRHT" | HRHTFL => "HRHTFL" | EZHDHT => "EZHDHT"
  | EZHTFL => "EZHTFL" | EZHDFL => "EZHDFL" | HDHRFL => "HDHRFL"
  | HDHRDTFL => "HDHRDTFL" | EZHDDTFL => "EZHDDTFL"
  | EZHDHTFL => "EZHDHTFL" | HDHRHTFL => "HDHRHTFL"
  end.

Definition eq_dec (a b : t) : {a = b} + {a <> b}.
Proof. decide equality. Defined.

Definition eqb (a b : t) : bool := if eq_dec a b then true else false.
End MORMod.

(** [type MORScore]: one row of a score table.  [REAL] columns are
    rationals. *)
Module MORScore.
Record t : Type := mk {
  scoreID : Z;
  userID : Z;
  beatmapID : Z;
  username : string;
  beatmap : string;
  mods : string;
  pp : Q;
  accuracy : Q;
  starRating : Q;
  date : string;
  beatmapImageURL : string
}.
End MORScore.

(** [type MORUser]: one row of the USERS table ([globalRank] may be
    null). *)
Module MORUser.
Record t : Type := mk {
  userID : Z;
  username : string;
  countryCode : string;
  globalRank : option Z;
  pp : Q;
  accuracy : Q;
  playtime : Z;
  playcount : Z;
  rankedScore : Z;
  maxCombo : Z;
  replaysWatched : Z;
  pfpImageURL : string;
  top1s : Z;
  top2s : Z;
  top3s : Z;
  autotrack : bool
}.
End MORUser.

(** [enum OsuScoreType]. *)
Inductive OsuScoreType : Type := BEST | FIRST | RECENT | PINNED.

(** The fields the sources read from an osu!API Score payload. *)
Module OsuScore.
Record t : Type := mk {
  id : Z;
  user_id : Z;
  user_username : string;
  beatmap_id : Z;
  beatmap_version : string;
  beatmap_difficulty_rating : Q;
  beatmapset_artist : string;
  beatmapset_title : string;
  beatmapset_cover : string;         (* covers['list@2x'] *)
  mods : list string;
  pp : Q;
  accuracy : Q;
  created_at : string
}.
End OsuScore.

(** The fields the sources read from an osu!API UserCompact payload
    (statistics taken from [statistics_rulesets.osu]). *)
Module OsuUser.
Record t : Type := mk {
  id : Z;
  username : string;
  country_code : string;
  global_rank : option Z;
  pp : Q;
  hit_accuracy : Q;
  play_time : Z;
  play_count : Z;
  ranked_score : Z;
  maximum_combo : Z;
  replays_watched_by_others : Z;
  avatar_url : string
}.
End OsuUser.

(** What the public methods of an [OsuWrapper] instance answer: [Ok None]
    is [undefined] (the resource was not found), [Throw] a rejected call.
    The answers are taken to depend on the arguments only. *)
Module OsuApi.
Record t : Type := mk {
  getUsers : list Z -> Result (option (list OsuUser.t));
  getScore : Z -> Result (option OsuScore.t);
  getUserScores : Z -> OsuScoreType -> Result (option (list OsuScore.t));
  getBeatmapAttributes : Z -> list OsuMod.t -> Result (option Q)
}.
End OsuApi.


Module Common.

(** [stringToOsuMod]: the member whose value is [s], else a [TypeError]. *)
Definition stringToOsuMod (s : string) : Result OsuMod.t :=
  match find (fun m => String.eqb s (OsuMod.toString m)) OsuMod.keys with
  | Some m => Ok m
  | None => Throw (TypeError ("stringToOsuMod - " ++ s ++ " has no associated OsuMod!"))
  end.

(** [stringToMORMod]: the member whose value is [s], else a [TypeError]. *)
Definition stringToMORMod (s : string) : Result MORMod.t :=
  match find (fun m => String.eqb s (MORMod.toString m)) MORMod.keys with
  | Some m => Ok m
  | None => Throw (TypeError ("stringToMORMod - " ++ s ++ " has no associated MORMod!"))
  end.

(** The priority list local to [sortOsuMods]. *)
Definition modOrder : list string :=
  map OsuMod.toString
    [ OsuMod.NF; OsuMod.EZ; OsuMod.HD; OsuMod.HR; OsuMod.SD; OsuMod.DT;
      OsuMod.NC; OsuMod.HT; OsuMod.FL; OsuMod.SO; OsuMod.PF ].

(** The comparator handed to [sort] in [sortOsuMods]. *)
Definition modCompare (a b : string) : Z :=
  let aIdx := indexOf modOrder a in
  let bIdx := indexOf modOrder b in
  if ((aIdx =? -1) && (bIdx =? -1))%Z then 0%Z
  else if (aIdx =? -1)%Z then 1%Z
  else if (bIdx =? -1)%Z then (-1)%Z
  else (aIdx - bIdx)%Z.

(** [sortOsuMods]: drop ['NM'], then sort by priority. *)
Definition sortOsuMods (mods : list string) : list string :=
  let sortedMods := filter (fun m => negb (String.eqb m "NM")) mods in
  JS.sort modCompare sortedMods.

(** [convertOsuMods]. *)
Definition convertOsuMods (mods : list string) : Result MORMod.t :=
  let sortedMods := sortOsuMods mods in
  let pMods := replaceAll "," "" (join "," sortedMods) in
  let pMods := replace (OsuMod.toString OsuMod.NC) (OsuMod.toString OsuMod.DT) pMods in
  let pMods := replace (OsuMod.toString OsuMod.NF) "" pMods in
  let pMods := replace (OsuMod.toString OsuMod.SO) "" pMods in
  let pMods := replace (OsuMod.toString OsuMod.SD) "" pMods in
  let pMods := replace (OsuMod.toString OsuMod.PF) "" pMods in
  let pMods := if String.eqb pMods "" then "NM" else pMods in
  stringToMORMod pMods.

(** [modStringToArray]. *)
Definition modStringToArray (mods : string) : list string :=
  match_dot_1_2 mods.

(** [affectsStarRating]. *)
Definition affectsStarRating (mods : list string) : bool :=
  includes mods (OsuMod.toString OsuMod.DT) ||
  includes mods (OsuMod.toString OsuMod.HR) ||
  includes mods (OsuMod.toString OsuMod.EZ) ||
  includes mods (OsuMod.toString OsuMod.HT) ||
  includes mods (OsuMod.toString OsuMod.FL).

(** [getMORBeatmapString]. *)
Definition getMORBeatmapString (score : OsuScore.t) : string :=
  OsuScore.beatmapset_artist score ++ " - " ++ OsuScore.beatmapset_title score
    ++ " [" ++ OsuScore.beatmap_version score ++ "]".

(** [mods.map((x) => stringToOsuMod(x))]: the first failure throws. *)
Fixpoint mapStringToOsuMod (mods : list string) : Result (list OsuMod.t) :=
  match mods with
  | [] => Ok []
  | x :: rest =>
      match stringToOsuMod x with
      | Throw e => Throw e
      | Ok m => match mapStringToOsuMod rest with
                | Throw e => Throw e
                | Ok ms => Ok (m :: ms)
                end
      end
  end.

(** [osuScoreToMORScore].  Reading [.attributes] of an [undefined] answer
    throws a [TypeError]. *)
Definition osuScoreToMORScore (osu : OsuApi.t) (osuScore : OsuScore.t)
  : Result MORScore.t :=
  let mods := OsuScore.mods osuScore in
  let build (starRating : Q) : MORScore.t :=
    MORScore.mk (OsuScore.id osuScore) (OsuScore.user_id osuScore)
      (OsuScore.beatmap_id osuScore) (OsuScore.user_username osuScore)
      (getMORBeatmapString osuScore)
      (replaceAll "," "" (join "," mods))
      (OsuScore.pp osuScore) (OsuScore.accuracy osuScore) starRating
      (OsuScore.created_at osuScore) (OsuScore.beatmapset_cover osuScore) in
  if affectsStarRating mods then
    match mapStringToOsuMod mods with
    | Throw e => Throw e
    | Ok osuMods =>
        match OsuApi.getBeatmapAttributes osu (OsuScore.beatmap_id osuScore) osuMods with
        | Throw e => Throw e
        | Ok None => Throw (TypeError "Cannot read properties of undefined (reading 'attributes')")
        | Ok (Some star_rating) => Ok (build star_rating)
        end
    end
  else Ok (build (OsuScore.beatmap_difficulty_rating osuScore)).

(** [isNumericString]: [typeof parseInt(x)] is always ['number']. *)
Definition isNumericString (x : string) : bool :=
  match parseInt x with
  | Some _ => true
  | None => false
  end.

(** [isPositiveNumericString]. *)
Definition isPositiveNumericString (x : string) : bool :=
  isNumericString x &&
  match parseInt x with
  | Some n => (0 <? n)%Z
  | None => false
  end.

End Common.


(** The sign of a JavaScript number: all a [sort] comparator's caller
    reads. *)
Definition Qsign (q : Q) : Z := Z.sgn (Qnum q).

(** ** DatabaseManager.ts *)

Module DatabaseManager.

(** The database file: the USERS table and one score table per [MORMod]
    key, each a list of rows in storage order. *)
Record t : Type := mk {
  USERS : list MORUser.t;
  scores : MORMod.t -> list MORScore.t
}.

Definition setScores (db : t) (key : MORMod.t) (rows : list MORScore.t) : t :=
  mk (USERS db)
     (fun k => if MORMod.eqb k key then rows else scores db k).

Definition setUsers (db : t) (rows : list MORUser.t) : t :=
  mk rows (scores db).

(** The CHECK constraints the constructor declares on a score table; the
    message of the first one violated. *)
Definition scoreCheck (s : MORScore.t) : option string :=
  if negb (Qle_bool 0 (MORScore.pp s))
  then Some "SQLITE_CONSTRAINT: CHECK constraint failed: pp >= 0"
  else if negb (Qle_bool 0 (MORScore.accuracy s))
  then Some "SQLITE_CONSTRAINT: CHECK constraint failed: accuracy >= 0"
  else if negb (Qle_bool 0 (MORScore.starRating s))
  then Some "SQLITE_CONSTRAINT: CHECK constraint failed: starRating >= 0"
  else None.

(** [Object.keys(MORMod).length], the bound of the top-N counters. *)
Definition numMORMods : Z := Z.of_nat (List.length MORMod.keys).

(** The CHECK constraints the constructor declares on USERS. *)
Definition userCheck (u : MORUser.t) : option string :=
  if negb (Qle_bool 0 (MORUser.pp u))
  then Some "SQLITE_CONSTRAINT: CHECK constraint failed: pp >= 0"
  else if negb (Qle_bool 0 (MORUser.accuracy u))
  then Some "SQLITE_CONSTRAINT: CHECK constraint failed: accuracy >= 0"
  else if negb ((0 <=? MORUser.top1s u) && (MORUser.top1s u <=? numMORMods))%Z
  then Some "SQLITE_CONSTRAINT: CHECK constraint failed: top1s >= 0 AND top1s <= 36"
  else if negb ((0 <=? MORUser.top2s u) && (MORUser.top2s u <=? numMORMods))%Z
  then Some "SQLITE_CONSTRAINT: CHECK constraint failed: top2s >= 0 AND top2s <= 36"
  else if negb ((0 <=? MORUser.top3s u) && (MORUser.top3s u <=? numMORMods))%Z
  then Some "SQLITE_CONSTRAINT: CHECK constraint failed: top3s >= 0 AND top3s <= 36"
  else None.

(** [INSERT INTO key (...) VALUES (...)]: SQLite evaluates the CHECK
    constraints, then the primary key; on success the row is appended.
    [inl] carries [err.message]. *)
Definition runInsertScore (rows : list MORScore.t) (key : MORMod.t)
    (s : MORScore.t) : string + list MORScore.t :=
  match scoreCheck s with
  | Some msg => inl msg
  | None =>
      if existsb (fun r => (MORScore.scoreID r =? MORScore.scoreID s)%Z) rows
      then inl ("SQLITE_CONSTRAINT: UNIQUE constraint failed: "
                  ++ MORMod.toString key ++ ".scoreID")
      else inr (rows ++ [s])%list
  end.

(** [INSERT INTO USERS (...) VALUES (...)]. *)
Definition runInsertUser (rows : list MORUser.t) (u : MORUser.t)
  : string + list MORUser.t :=
  match userCheck u with
  | Some msg => inl msg
  | None =>
      if existsb (fun r => (MORUser.userID r =? MORUser.userID u)%Z) rows
      then inl "SQLITE_CONSTRAINT: UNIQUE constraint failed: USERS.userID"
      else inr (rows ++ [u])%list
  end.

(** [getAutotrackUserIDs]. *)
Definition getAutotrackUserIDs (db : t) : list Z :=
  map MORUser.userID (filter MORUser.autotrack (USERS db)).

(** [insertScore]: the table is [convertOsuMods(modStringToArray(mods))]
    (a throw inside the promise executor rejects the promise); an error
    whose message includes 'UNIQUE' resolves, any other rejects. *)
Definition insertScore (db : t) (score : MORScore.t) : t * Result unit :=
  match Common.convertOsuMods (Common.modStringToArray (MORScore.mods score)) with
  | Throw e => (db, Throw e)
  | Ok key =>
      match runInsertScore (scores db key) key score with
      | inl msg =>
          if str_includes msg "UNIQUE" then (db, Ok tt)
          else (db, Throw (OtherError msg))
      | inr rows => (setScores db key rows, Ok tt)
      end
  end.

(** [getRowCount] of a score table, and [getNumScores]. *)
Definition getRowCount (db : t) (key : MORMod.t) : Z :=
  Z.of_nat (List.length (scores db key)).

Definition getNumScores (db : t) : Z :=
  fold_left (fun numScores key => (numScores + getRowCount db key)%Z) MORMod.keys 0%Z.

(** The join condition of [getDuplicateScores]: every column but
    [scoreID] equal. *)
Definition sameButScoreID (t1 t2 : MORScore.t) : bool :=
  (MORScore.userID t1 =? MORScore.userID t2)%Z &&
  (MORScore.beatmapID t1 =? MORScore.beatmapID t2)%Z &&
  String.eqb (MORScore.username t1) (MORScore.username t2) &&
  String.eqb (MORScore.beatmap t1) (MORScore.beatmap t2) &&
  String.eqb (MORScore.mods t1) (MORScore.mods t2) &&
  Qeq_bool (MORScore.pp t1) (MORScore.pp t2) &&
  Qeq_bool (MORScore.accuracy t1) (MORScore.accuracy t2) &&
  Qeq_bool (MORScore.starRating t1) (MORScore.starRating t2) &&
  String.eqb (MORScore.date t1) (MORScore.date t2) &&
  String.eqb (MORScore.beatmapImageURL t1) (MORScore.beatmapImageURL t2).

(** [getDuplicateScores]: [SELECT t1.* FROM key t1 JOIN key t2 ON ...
    WHERE t1.scoreID <> t2.scoreID], one output row per matching pair. *)
Definition getDuplicateScores (db : t) (key : MORMod.t) : list MORScore.t :=
  flat_map
    (fun t1 =>
       map (fun _ => t1)
         (filter (fun t2 => sameButScoreID t1 t2 &&
                            negb (MORScore.scoreID t1 =? MORScore.scoreID t2)%Z)
                 (scores db key)))
    (scores db key).

(** [scoreExistsInTable]. *)
Definition scoreExistsInTable (db : t) (scoreID : Z) (key : MORMod.t) : bool :=
  (0 <? Z.of_nat (List.length
          (filter (fun r => (MORScore.scoreID r =? scoreID)%Z) (scores db key))))%Z.

(** [removeScore]: [DELETE FROM key WHERE scoreID = ?]. *)
Definition removeScore (db : t) (scoreID : Z) (key : MORMod.t) : t :=
  setScores db key
    (filter (fun r => negb (MORScore.scoreID r =? scoreID)%Z) (scores db key)).

(** [getTableScores] and [getUsers]. *)
Definition getTableScores (db : t) (key : MORMod.t) : list MORScore.t :=
  scores db key.

Definition getUsers (db : t) : list MORUser.t := USERS db.

(** [updateUser]: [UPDATE USERS SET ... WHERE userID = ?]; a CHECK
    violation on a row to be written rejects. *)
Definition updateUser (db : t) (user : MORUser.t) : t * Result unit :=
  if existsb (fun r => (MORUser.userID r =? MORUser.userID user)%Z) (USERS db)
  then match userCheck user with
       | Some msg => (db, Throw (OtherError msg))
       | None =>
           (setUsers db
              (map (fun r => if (MORUser.userID r =? MORUser.userID user)%Z
                             then user else r) (USERS db)),
            Ok tt)
       end
  else (db, Ok tt).

(** [insertUser]. *)
Definition insertUser (db : t) (user : MORUser.t) : t * Result unit :=
  match runInsertUser (USERS db) user with
  | inl msg =>
      if str_includes msg "UNIQUE" then (db, Ok tt)
      else (db, Throw (OtherError msg))
  | inr rows => (setUsers db rows, Ok tt)
  end.

(** [removeUser]: [DELETE FROM USERS WHERE userID = ?]. *)
Definition removeUser (db : t) (userID : Z) : t :=
  setUsers db (filter (fun r => negb (MORUser.userID r =? userID)%Z) (USERS db)).

(** [removeUserScores]: for every key, [DELETE FROM key WHERE userID = ?].
    The promise resolves once the statements are queued; they are taken
    here as run. *)
Definition removeUserScores (db : t) (userID : Z) : t :=
  fold_left
    (fun d key =>
       setScores d key
         (filter (fun r => negb (MORScore.userID r =? userID)%Z) (scores d key)))
    MORMod.keys db.

(** [getNumUsers]. *)
Definition getNumUsers (db : t) : Z := Z.of_nat (List.length (USERS db)).

(** [getScores]: [SELECT * FROM NM UNION ALL SELECT * FROM DT ...], the
    tables one after the other in the order of [Object.values(MORMod)]. *)
Definition getScores (db : t) : list MORScore.t :=
  flat_map (scores db) MORMod.keys.

(** [updateScore]: [UPDATE key SET ... WHERE scoreID = ?] in the table
    [convertOsuMods(modStringToArray(mods))]; a CHECK violation on a row
    to be written rejects. *)
Definition updateScore (db : t) (score : MORScore.t) : t * Result unit :=
  match Common.convertOsuMods (Common.modStringToArray (MORScore.mods score)) with
  | Throw e => (db, Throw e)
  | Ok key =>
      if existsb (fun r => (MORScore.scoreID r =? MORScore.scoreID score)%Z)
                 (scores db key)
      then match scoreCheck score with
           | Some msg => (db, Throw (OtherError msg))
           | None =>
               (setScores db key
                  (map (fun r => if (MORScore.scoreID r =? MORScore.scoreID score)%Z
                                 then score else r) (scores db key)),
                Ok tt)
           end
      else (db, Ok tt)
  end.

End DatabaseManager.

(** ** DatabaseUpdater.ts *)

Module DatabaseUpdater.

(** The log lines the procedures below write at level warn, info or
    error (debug lines and the timing summaries are left out). *)
Inductive LogEntry : Type :=
| WarnNoMORMod (scoreID : Z) (mods : list string)
| InfoNotFoundRemoving (key : MORMod.t) (scoreID : Z)
| InfoDivergeRemoving (key : MORMod.t) (scoreID : Z)
| InfoRemovedDuplicates (numRemoved : Z)
| ErrorNoDatabaseUser (id : Z).

(** An updater: its DatabaseManager's file and the log written so far. *)
Record t : Type := mk {
  dbm : DatabaseManager.t;
  log : list LogEntry
}.

Definition logged (st : t) (entry : LogEntry) : t :=
  mk (dbm st) (log st ++ [entry])%list.

Definition withDb (st : t) (db : DatabaseManager.t) : t := mk db (log st).

(** How one pass of a loop body ends: it falls through or [continue]s,
    it [return]s from the procedure, or it throws. *)
Inductive Flow (S : Type) : Type :=
| Next (s : S)
| Return (s : S)
| Raise (e : Error) (s : S).
Arguments Next {S} s.
Arguments Return {S} s.
Arguments Raise {S} e s.

(** [for (const x of l) body]. *)
Fixpoint forOf {S A : Type} (body : S -> A -> Flow S) (l : list A) (st : S)
  : Flow S :=
  match l with
  | [] => Next st
  | x :: rest =>
      match body st x with
      | Next st' => forOf body rest st'
      | Return st' => Return st'
      | Raise e st' => Raise e st'
      end
  end.

(** *** getNewScores *)

(** The body of the loop over one user's scores. *)
Definition getNewScores_score (osu : OsuApi.t) (st : t) (userScore : OsuScore.t)
  : Flow t :=
  let rest (scoreExists : bool) : Flow t :=
    if negb scoreExists then
      match Common.osuScoreToMORScore osu userScore with
      | Throw e => Raise e st
      | Ok dbScore =>
          match DatabaseManager.insertScore (dbm st) dbScore with
          | (db, Ok _) => Next (withDb st db)
          | (db, Throw e) => Raise e (withDb st db)
          end
      end
    else Next st in
  match Common.convertOsuMods (OsuScore.mods userScore) with
  | Ok key =>
      rest (DatabaseManager.scoreExistsInTable (dbm st) (OsuScore.id userScore) key)
  | Throw error =>
      if isTypeError error
      then Return (logged st (WarnNoMORMod (OsuScore.id userScore)
                                           (OsuScore.mods userScore)))
      else rest false   (* swallowed by the catch: scoreExists is undefined *)
  end.

(** [[ ...userTops, ...userFirsts, ...userRecents, ...userPinned ]];
    spreading [undefined] throws a [TypeError]. *)
Definition spread4 {A : Type} (a b c d : option (list A)) : Result (list A) :=
  match a, b, c, d with
  | Some a, Some b, Some c, Some d => Ok (a ++ b ++ c ++ d)%list
  | _, _, _, _ => Throw (TypeError "undefined is not iterable")
  end.

(** The body of the loop over the tracked users. *)
Definition getNewScores_user (osu : OsuApi.t) (st : t) (userID : Z) : Flow t :=
  match OsuApi.getUserScores osu userID BEST with
  | Throw e => Raise e st
  | Ok userTops =>
  match OsuApi.getUserScores osu userID FIRST with
  | Throw e => Raise e st
  | Ok userFirsts =>
  match OsuApi.getUserScores osu userID RECENT with
  | Throw e => Raise e st
  | Ok userRecents =>
  match OsuApi.getUserScores osu userID PINNED with
  | Throw e => Raise e st
  | Ok userPinned =>
  match spread4 userTops userFirsts userRecents userPinned with
  | Throw e => Raise e st
  | Ok userScores => forOf (getNewScores_score osu) userScores st
  end end end end end.

Definition finish {S : Type} (f : Flow S) : S * Result unit :=
  match f with
  | Next s => (s, Ok tt)
  | Return s => (s, Ok tt)
  | Raise e s => (s, Throw e)
  end.

(** [getNewScores]. *)
Definition getNewScores (osu : OsuApi.t) (st : t) : t * Result unit :=
  let userIDs := DatabaseManager.getAutotrackUserIDs (dbm st) in
  finish (forOf (getNewScores_user osu) userIDs st).

(** *** removeDuplicateScores *)

(** The body of the loop over the duplicate rows of table [key]; the
    state carries [numRemoved]. *)
Definition removeDuplicateScores_score (osu : OsuApi.t) (key : MORMod.t)
    (acc : t * Z) (dbScore : MORScore.t) : Flow (t * Z) :=
  let (st, numRemoved) := acc in
  let id := MORScore.scoreID dbScore in
  match OsuApi.getScore osu id with
  | Throw e => Raise e acc
  | Ok None =>
      Next (withDb (logged st (InfoNotFoundRemoving key id))
                   (DatabaseManager.removeScore (dbm st) id key),
            (numRemoved + 1)%Z)
  | Ok (Some osuScore) =>
      if negb (String.eqb (MORScore.date dbScore) (OsuScore.created_at osuScore))
      then Next (withDb (logged st (InfoDivergeRemoving key id))
                        (DatabaseManager.removeScore (dbm st) id key),
                 (numRemoved + 1)%Z)
      else Next acc
  end.

(** The body of the loop over the keys. *)
Definition removeDuplicateScores_key (osu : OsuApi.t) (acc : t * Z)
    (key : MORMod.t) : Flow (t * Z) :=
  let scores := DatabaseManager.getDuplicateScores (dbm (fst acc)) key in
  forOf (removeDuplicateScores_score osu key) scores acc.

(** [removeDuplicateScores]. *)
Definition removeDuplicateScores (osu : OsuApi.t) (st : t) : t * Result unit :=
  match forOf (removeDuplicateScores_key osu) MORMod.keys (st, 0%Z) with
  | Next (s, numRemoved) => (logged s (InfoRemovedDuplicates numRemoved), Ok tt)
  | Return (s, numRemoved) => (s, Ok tt)
  | Raise e (s, _) => (s, Throw e)
  end.

(** *** updateUsers *)

(** [(a, b) => b.pp - a.pp]. *)
Definition ppCompare (a b : MORScore.t) : Z :=
  Qsign (MORScore.pp b - MORScore.pp a).

(** [modsToScores]: per key, the table sorted by pp descending, cut to
    its first three rows; in the order of [Object.keys]. *)
Definition modsToScores (db : DatabaseManager.t)
  : list (MORMod.t * list MORScore.t) :=
  map (fun key =>
         (key, slice0 3 (JS.sort ppCompare (DatabaseManager.getTableScores db key))))
      MORMod.keys.

(** The loop [for (let i = 0; i < scores.length; ++i)], entered at index
    [i] with the three counters. *)
Fixpoint countTable (id : Z) (scores : list MORScore.t) (i : nat)
    (tops : Z * Z * Z) : Result (Z * Z * Z) :=
  match scores with
  | [] => Ok tops
  | score :: rest =>
      let '(top1s, top2s, top3s) := tops in
      if negb (MORScore.userID score =? id)%Z
      then countTable id rest (S i) tops
      else match i with
           | 0%nat => countTable id rest (S i) ((top1s + 1)%Z, top2s, top3s)
           | 1%nat => countTable id rest (S i) (top1s, (top2s + 1)%Z, top3s)
           | 2%nat => countTable id rest (S i) (top1s, top2s, (top3s + 1)%Z)
           | _ => Throw (RangeError "DatabaseUpdater::updateUsers - this should never happen!")
           end
  end.

(** The loop [for (const key of Object.keys(modsToScores))]. *)
Fixpoint countTops (id : Z) (tables : list (MORMod.t * list MORScore.t))
    (tops : Z * Z * Z) : Result (Z * Z * Z) :=
  match tables with
  | [] => Ok tops
  | (_, scores) :: rest =>
      match countTable id scores 0 tops with
      | Throw e => Throw e
      | Ok tops' => countTops id rest tops'
      end
  end.

(** The [updatedUser] literal. *)
Definition updatedUser (osuUser : OsuUser.t) (dbUser : MORUser.t)
    (tops : Z * Z * Z) : MORUser.t :=
  let '(top1s, top2s, top3s) := tops in
  MORUser.mk (OsuUser.id osuUser) (OsuUser.username osuUser)
    (OsuUser.country_code osuUser) (OsuUser.global_rank osuUser)
    (OsuUser.pp osuUser) (OsuUser.hit_accuracy osuUser)
    (OsuUser.play_time osuUser) (OsuUser.play_count osuUser)
    (OsuUser.ranked_score osuUser) (OsuUser.maximum_combo osuUser)
    (OsuUser.replays_watched_by_others osuUser) (OsuUser.avatar_url osuUser)
    top1s top2s top3s (MORUser.autotrack dbUser).

(** The body of the loop over one chunk of the API's answer. *)
Definition updateUsers_user (dbUsers : list MORUser.t)
    (tables : list (MORMod.t * list MORScore.t)) (st : t)
    (osuUser : OsuUser.t) : Flow t :=
  match find (fun x => (MORUser.userID x =? OsuUser.id osuUser)%Z) dbUsers with
  | None => Next (logged st (ErrorNoDatabaseUser (OsuUser.id osuUser)))
  | Some dbUser =>
      match countTops (OsuUser.id osuUser) tables (0, 0, 0)%Z with
      | Throw e => Raise e st
      | Ok tops =>
          match DatabaseManager.updateUser (dbm st) (updatedUser osuUser dbUser tops) with
          | (db, Ok _) => Next (withDb st db)
          | (db, Throw e) => Raise e (withDb st db)
          end
      end
  end.

(** The loop [for (let i = 0; i < dbUsers.length; i += 50)], entered at
    [i]; [fuel] bounds the number of passes. *)
Fixpoint updateUsers_chunks (fuel : nat) (osu : OsuApi.t)
    (dbUsers : list MORUser.t) (tables : list (MORMod.t * list MORScore.t))
    (i : nat) (st : t) : Flow t :=
  match fuel with
  | O => Next st
  | S fuel' =>
      if (i <? List.length dbUsers)%nat then
        let userIDChunk := firstn 50 (skipn i (map MORUser.userID dbUsers)) in
        match OsuApi.getUsers osu userIDChunk with
        | Throw e => Raise e st
        | Ok None =>
            Raise (TypeError "Cannot read properties of undefined (reading 'users')") st
        | Ok (Some osuUserChunk) =>
            match forOf (updateUsers_user dbUsers tables) osuUserChunk st with
            | Next st' => updateUsers_chunks fuel' osu dbUsers tables (i + 50) st'
            | Return st' => Return st'
            | Raise e st' => Raise e st'
            end
        end
      else Next st
  end.

(** [updateUsers]; at most one pass per stored user is needed. *)
Definition updateUsers (osu : OsuApi.t) (st : t) : t * Result unit :=
  let dbUsers := DatabaseManager.getUsers (dbm st) in
  let tables := modsToScores (dbm st) in
  finish (updateUsers_chunks (List.length dbUsers) osu dbUsers tables 0 st).

(** *** updateScores *)

(** The body of the loop over the rows read from table [key] (the info
    lines of this procedure are left out of the log). *)
Definition updateScores_score (osu : OsuApi.t) (key : MORMod.t) (st : t)
    (score : MORScore.t) : Flow t :=
  let scoreID := MORScore.scoreID score in
  match OsuApi.getScore osu scoreID with
  | Throw e => Raise e st
  | Ok None => Next (withDb st (DatabaseManager.removeScore (dbm st) scoreID key))
  | Ok (Some updatedScore) =>
      match Common.osuScoreToMORScore osu updatedScore with
      | Throw e => Raise e st
      | Ok dbScore =>
          match DatabaseManager.updateScore (dbm st) dbScore with
          | (db, Ok _) => Next (withDb st db)
          | (db, Throw e) => Raise e (withDb st db)
          end
      end
  end.

(** The body of the loop over the keys: the rows are read once, before
    the first of them is updated. *)
Definition updateScores_key (osu : OsuApi.t) (st : t) (key : MORMod.t) : Flow t :=
  let scores := DatabaseManager.getTableScores (dbm st) key in
  forOf (updateScores_score osu key) scores st.

(** [updateScores]. *)
Definition updateScores (osu : OsuApi.t) (st : t) : t * Result unit :=
  finish (forOf (updateScores_key osu) MORMod.keys st).

End DatabaseUpdater.

(** ** Bot.ts *)

Module Bot.

(** [String.prototype.toLowerCase] on ASCII letters. *)
Definition lowerAscii (c : ascii) : ascii :=
  let n := nat_of_ascii c in
  if ((65 <=? n) && (n <=? 90))%nat then ascii_of_nat (n + 32) else c.

Fixpoint toLowerCase (s : string) : string :=
  match s with
  | EmptyString => EmptyString
  | String c s' => String (lowerAscii c) (toLowerCase s')
  end.

(** What [removeUserCmd] replies with. *)
Inductive Reply : Type :=
| CouldNotFindUser (username : string)
| UserRemoved (dbUser : MORUser.t).

(** [removeUserCmd], with the interaction's [username] and
    [remove_scores] options; the embed is reduced to its kind. *)
Definition removeUserCmd (db : DatabaseManager.t) (username : string)
    (removeScores : bool) : DatabaseManager.t * Reply :=
  let dbUsers := DatabaseManager.getUsers db in
  match find (fun u => String.eqb (toLowerCase (MORUser.username u))
                                  (toLowerCase username)) dbUsers with
  | None => (db, CouldNotFindUser username)
  | Some dbUser =>
      let db1 := DatabaseManager.removeUser db (MORUser.userID dbUser) in
      let db2 := if removeScores
                 then DatabaseManager.removeUserScores db1 (MORUser.userID dbUser)
                 else db1 in
      (db2, UserRemoved dbUser)
  end.



(** *** addUserCmd *)

(** [(a, b) => b.pp - a.pp] on users. *)
Definition userPpCompare (a b : MORUser.t) : Z :=
  Qsign (MORUser.pp b - MORUser.pp a).

(** What [addUserCmd] replies with: the user it built and its place among
    the tracked users ([-1] shows as N/A). *)
Inductive AddUserReply : Type :=
| CouldNotRetrieveUser (username : string)
| UserAdded (dbUser : MORUser.t) (dbIdx : Z).

(** [addUserCmd], with the interaction's [username] and [track] options;
    [getUser] is what [OsuWrapper.getUser] answers.  [indexOf] of the
    object [find] returned is the index of the first match. *)
Definition addUserCmd (getUser : string -> Result (option OsuUser.t))
    (db : DatabaseManager.t) (username : string) (autotrack : bool)
  : DatabaseManager.t * Result AddUserReply :=
  match getUser username with
  | Throw e => (db, Throw e)
  | Ok None => (db, Ok (CouldNotRetrieveUser username))
  | Ok (Some osuUser) =>
      let dbUser :=
        MORUser.mk (OsuUser.id osuUser) (OsuUser.username osuUser)
          (OsuUser.country_code osuUser) (OsuUser.global_rank osuUser)
          (OsuUser.pp osuUser) (OsuUser.hit_accuracy osuUser)
          (OsuUser.play_time osuUser) (OsuUser.play_count osuUser)
          (OsuUser.ranked_score osuUser) (OsuUser.maximum_combo osuUser)
          (OsuUser.replays_watched_by_others osuUser) (OsuUser.avatar_url osuUser)
          0%Z 0%Z 0%Z autotrack in
      match DatabaseManager.insertUser db dbUser with
      | (db', Throw e) => (db', Throw e)
      | (db', Ok _) =>
          let dbUsers := JS.sort userPpCompare (DatabaseManager.getUsers db') in
          let dbUsers := filter MORUser.autotrack dbUsers in
          let dbIdx :=
            findIndex (fun u => String.eqb (toLowerCase (MORUser.username u))
                                           (toLowerCase username)) dbUsers in
          (db', Ok (UserAdded dbUser dbIdx))
      end
  end.

(** *** addScoreCmd and removeScoreCmd *)

Inductive AddScoreReply : Type :=
| CouldNotRetrieveScore (scoreID : string)
| ScoreAdded (dbScore : MORScore.t).

(** [addScoreCmd], with the interaction's [score_id] option; [getScore]
    is what [OsuWrapper.getScore] answers for that string. *)
Definition addScoreCmd (osu : OsuApi.t)
    (getScore : string -> Result (option OsuScore.t))
    (db : DatabaseManager.t) (scoreID : string)
  : DatabaseManager.t * Result AddScoreReply :=
  match getScore scoreID with
  | Throw e => (db, Throw e)
  | Ok None => (db, Ok (CouldNotRetrieveScore scoreID))
  | Ok (Some osuScore) =>
      match Common.osuScoreToMORScore osu osuScore with
      | Throw e => (db, Throw e)
      | Ok dbScore =>
          match DatabaseManager.insertScore db dbScore with
          | (db', Throw e) => (db', Throw e)
          | (db', Ok _) => (db', Ok (ScoreAdded dbScore))
          end
      end
  end.

Inductive RemoveScoreReply : Type :=
| CouldNotFindScore (scoreID : string)
| ScoreRemoved (dbScore : MORScore.t).

(** [removeScoreCmd]: the stored id is compared with [parseInt(scoreID)],
    which no id equals when it is [NaN]. *)
Definition removeScoreCmd (db : DatabaseManager.t) (scoreID : string)
  : DatabaseManager.t * Result RemoveScoreReply :=
  let dbScores := DatabaseManager.getScores db in
  match find (fun s => match parseInt scoreID with
                       | Some n => (MORScore.scoreID s =? n)%Z
                       | None => false
                       end) dbScores with
  | None => (db, Ok (CouldNotFindScore scoreID))
  | Some dbScore =>
      match Common.convertOsuMods (Common.modStringToArray (MORScore.mods dbScore)) with
      | Throw e => (db, Throw e)
      | Ok key =>
          (DatabaseManager.removeScore db (MORScore.scoreID dbScore) key,
           Ok (ScoreRemoved dbScore))
      end
  end.

(** *** The pages of usersCmd and scoresCmd *)

(** Both commands page their list with the same closures, [updateEmbed]
    and [updateButtons], over the list, [numPages], [currentPage] and the
    four buttons. *)

Definition perPage : Z := 5.

(** What an embed shows of a page: the item its thumbnail is taken from
    and the items of its description, each with its number. *)
Record Embed (A : Type) : Type := mkEmbed {
  thumbnail : A;
  description : list (Z * A)
}.
Arguments mkEmbed {A} thumbnail description.
Arguments thumbnail {A} e.
Arguments description {A} e.

(** The state the closures share: [currentPage], whether each of the
    buttons (start, prev, next, last) is disabled, and the embed. *)
Record Pager (A : Type) : Type := mkPager {
  currentPage : Z;
  startDisabled : bool;
  prevDisabled : bool;
  nextDisabled : bool;
  lastDisabled : bool;
  embed : Embed A
}.
Arguments mkPager {A} currentPage startDisabled prevDisabled nextDisabled lastDisabled embed.
Arguments currentPage {A} p.
Arguments startDisabled {A} p.
Arguments prevDisabled {A} p.
Arguments nextDisabled {A} p.
Arguments lastDisabled {A} p.
Arguments embed {A} p.

(** The button a press names; [OtherButton] is any other custom id. *)
Inductive Button : Type := Start | Prev | Next | Last | OtherButton.

Section Pages.
Context {A : Type}.
Variable items : list A.

(** [Math.ceil(items.length / perPage)]. *)
Definition numPages : Z :=
  mathCeil (inject_Z (Z.of_nat (List.length items)) / inject_Z perPage).

(** [(items[idx] as T)[field]]: a [TypeError] when no item is there. *)
Definition itemAt (idx : Z) : Result A :=
  match (if (idx <? 0)%Z then None else nth_error items (Z.to_nat idx)) with
  | Some x => Ok x
  | None => Throw (TypeError "Cannot read properties of undefined")
  end.

(** The loop [for (let i = 0; i < pageLimit; ++i)] of [updateEmbed],
    entered at [i] with the description so far; [fuel] bounds the number
    of passes. *)
Fixpoint updateEmbed_loop (fuel : nat) (page pageLimit i : Z)
    (desc : list (Z * A)) : Result (list (Z * A)) :=
  match fuel with
  | O => Ok desc
  | S fuel' =>
      if (i <? pageLimit)%Z then
        let idx := (perPage * (page - 1) + i)%Z in
        match itemAt idx with
        | Throw e => Throw e
        | Ok item =>
            updateEmbed_loop fuel' page pageLimit (i + 1)%Z
              (desc ++ [((idx + 1)%Z, item)])%list
        end
      else Ok desc
  end.

(** [updateEmbed(page)]. *)
Definition updateEmbed (page : Z) : Result (Embed A) :=
  if ((page <? 1) || (page >? numPages))%Z
  then Throw (RangeError "updateEmbed - page out of range; this should never happen!")
  else
    let length := Z.of_nat (List.length items) in
    let pageLimit :=
      if ((page =? numPages) && negb (length mod perPage =? 0))%Z
      then (length mod perPage)%Z else perPage in
    match updateEmbed_loop (Z.to_nat pageLimit) page pageLimit 0%Z [] with
    | Throw e => Throw e
    | Ok desc =>
        match itemAt (perPage * (page - 1))%Z with
        | Throw e => Throw e
        | Ok first => Ok (mkEmbed first desc)
        end
    end.

(** The command up to its first reply: [None] when there is no page
    ('No users found!'), else page 1 with its buttons. *)
Definition openPager : Result (option (Pager A)) :=
  if (numPages =? 0)%Z then Ok None
  else match updateEmbed 1%Z with
       | Throw e => Throw e
       | Ok e => Ok (Some (mkPager 1%Z true true (numPages =? 1)%Z (numPages =? 1)%Z e))
       end.

(** [updateButtons] on a press of [buttonID]: the page and the buttons
    are set, then the embed is rebuilt; when that throws the embed stays
    as it was. *)
Definition updateButtons (p : Pager A) (buttonID : Button)
  : Pager A * Result unit :=
  let show (currentPage : Z) (d0 d1 d2 d3 : bool) :=
    match updateEmbed currentPage with
    | Ok e => (mkPager currentPage d0 d1 d2 d3 e, Ok tt)
    | Throw err => (mkPager currentPage d0 d1 d2 d3 (embed p), Throw err)
    end in
  match buttonID with
  | Start => show 1%Z true true false false
  | Prev =>
      let currentPage := (currentPage p - 1)%Z in
      show currentPage (currentPage =? 1)%Z (currentPage =? 1)%Z false false
  | Next =>
      let currentPage := (currentPage p + 1)%Z in
      show currentPage false false
        (currentPage =? numPages)%Z (currentPage =? numPages)%Z
  | Last => show numPages false false true true
  | OtherButton => (p, Ok tt)
  end.

End Pages.

(** *** scoresCmd *)








End Bot.

(** ** MORConfig.ts *)

Module MORConfig.
End MORConfig.

(** ** The network and the clock, as the request executor sees them *)

Module Net.

Inductive Url : Type := API_URL | TOKEN_URL.

(** What one [await fetch(url, request)] yields: a response (its status
    and parsed JSON body; the body of a token response stands for its
    [access_token]), or a thrown [TypeError], or another thrown value. *)
Inductive FetchResult : Type :=
| Response (status : Z) (body : string)
| FetchTypeError
| FetchError.

(** [RequestInit], reduced to the Authorization header. *)
Record Request : Type := mkRequest {
  authorization : option string
}.

(** What a call does to the outside, in order. *)
Inductive Event : Type :=
| Sleep (url : Url) (ms : Q)      (* sleep(ms) in the loop fetching [url] *)
| Fetch (url : Url) (request : Request).

(** The world: the answers still to come (one per fetch), the values
    [Math.random()] returns (the n-th call, and how many were made), and
    the events so far, oldest first. *)
Record World : Type := mkWorld {
  pending : list FetchResult;
  random : nat -> Q;
  randomCalls : nat;
  trace : list Event
}.

Definition sleep (url : Url) (ms : Q) (w : World) : World :=
  mkWorld (pending w) (random w) (randomCalls w) (trace w ++ [Sleep url ms])%list.

(** The fetch is issued; [None]: no answer is left, it never settles. *)
Definition fetch (url : Url) (request : Request) (w : World)
  : option FetchResult * World :=
  let w' rest := mkWorld rest (random w) (randomCalls w)
                         (trace w ++ [Fetch url request])%list in
  match pending w with
  | [] => (None, w' [])
  | r :: rest => (Some r, w' rest)
  end.

Definition mathRandom (w : World) : Q * World :=
  (random w (randomCalls w),
   mkWorld (pending w) (random w) (S (randomCalls w)) (trace w)).

(** How a call ends; [Pending] when the answers ran out before it did. *)
Inductive Outcome (A : Type) : Type :=
| Returned (a : A)
| Threw (e : Error)
| Pending.
Arguments Returned {A} a.
Arguments Threw {A} e.
Arguments Pending {A}.

(** [Math.round]. *)
Definition mathRound (x : Q) : Q := inject_Z (Qfloor (x + (1 # 2))).

(** [Math.pow(2, retries)]. *)
Definition pow2 (retries : nat) : Q := inject_Z (2 ^ Z.of_nat retries).

(** The leading decimal digit of a non-negative number. *)
Fixpoint leadingDigit (fuel : nat) (n : Z) : Z :=
  match fuel with
  | O => n
  | S fuel' => if (n <? 10)%Z then n else leadingDigit fuel' (n / 10)%Z
  end.

(** [statusCode.toString().startsWith('5')]. *)
Definition startsWith5 (statusCode : Z) : bool :=
  (0 <=? statusCode)%Z &&
  (leadingDigit (S (Z.to_nat (Z.log2 statusCode))) statusCode =? 5)%Z.

(** The new [delayMs] after a retryable failure; the same statements in
    every loop of both revisions of OsuWrapper.ts. *)
Definition backoff (delayMs : Q) (retries : nat) (rnd : Q) : Q :=
  if Qle_bool 64000 delayMs
  then 64000 + mathRound (rnd * 1000)
  else (pow2 retries + rnd) * 1000.

Definition unhandled : Error :=
  RangeError "OsuWrapper::makeRequest - received an unhandled response code!".

End Net.

Import Net.

(** ** OsuWrapper.ts (src/OsuWrapper.ts) *)

Module OsuWrapper.

(** The [while (true)] loop of the static [makeRequest], entered with
    [delayMs] and [retries]; [fuel] bounds the number of passes. *)
Fixpoint makeRequest_loop (fuel : nat) (url : Url) (request : Request)
    (delayMs : Q) (retries : nat) (w : World)
  : Outcome (option string) * World :=
  match fuel with
  | O => (Pending, w)
  | S fuel' =>
      let w := sleep url delayMs w in
      match fetch url request w with
      | (None, w) => (Pending, w)
      | (Some FetchTypeError, w) => (Threw (TypeError "fetch failed"), w)
      | (Some FetchError, w) => (Threw (OtherError "fetch failed"), w)
      | (Some (Response statusCode body), w) =>
          if (statusCode =? 200)%Z then (Returned (Some body), w)
          else if (statusCode =? 404)%Z then (Returned None, w)
          else if (statusCode =? 429)%Z || startsWith5 statusCode then
            let (rnd, w) := mathRandom w in
            let delayMs := backoff delayMs retries rnd in
            makeRequest_loop fuel' url request delayMs (S retries) w
          else (Threw unhandled, w)
      end
  end.

(** [makeRequest]: every pass takes one answer, so one pass more than
    there are answers is enough. *)
Definition makeRequest (cooldown : Q) (url : Url) (request : Request)
    (w : World) : Outcome (option string) * World :=
  makeRequest_loop (S (List.length (pending w))) url request cooldown 0 w.

(** The instance: its token, for how many seconds the token is good,
    and when it was acquired (seconds). *)
Record t : Type := mk {
  _accessToken : string;
  _accessTokenDuration : Z;
  _accessTokenAcquiryTime : Z
}.

Definition TOKEN_REQUEST : Request := mkRequest None.

(** [buildHeaders]. *)
Definition buildHeaders (this : t) : Request :=
  mkRequest (Some ("Bearer " ++ _accessToken this)).

Definition TokenError : Error :=
  OtherError "OsuWrapper::refreshToken - token is undefined!".

Definition ConstructorError : Error :=
  OtherError "Osuwrapper::build - token is undefined!".

Section Instance.
(** The fields read from the parsed body of a token response, and the
    configured cooldown. *)
Variable access_token : string -> string.
Variable expires_in : string -> Z.
Variable cooldown : Q.

(** [refreshToken]; [currentTime] is the clock read in seconds. *)
Definition refreshToken (this : t) (currentTime : Z) (w : World)
  : Outcome unit * t * World :=
  if (currentTime >? _accessTokenAcquiryTime this + _accessTokenDuration this)%Z
  then match makeRequest cooldown TOKEN_URL TOKEN_REQUEST w with
       | (Returned (Some token), w) =>
           (Returned tt, mk (access_token token) (expires_in token) currentTime, w)
       | (Returned None, w) => (Threw TokenError, this, w)
       | (Threw e, w) => (Threw e, this, w)
       | (Pending, w) => (Pending, this, w)
       end
  else (Returned tt, this, w).

(** [getScore]: the request is built, then the token is refreshed, then
    the request is made.  [getUser], [getUserScores], [getBeatmap] and
    [getBeatmapAttributes] differ in the url and the body only. *)
Definition getScore (this : t) (currentTime : Z) (w : World)
  : Outcome (option string) * t * World :=
  let request := buildHeaders this in
  match refreshToken this currentTime w with
  | (Returned _, this, w) =>
      let (r, w) := makeRequest cooldown API_URL request w in (r, this, w)
  | (Threw e, this, w) => (Threw e, this, w)
  | (Pending, this, w) => (Pending, this, w)
  end.

(** [getUsers]: at most 50 ids, then as [getScore]. *)
Definition getUsers (this : t) (userIDs : list string) (currentTime : Z)
    (w : World) : Outcome (option string) * t * World :=
  if (50 <? List.length userIDs)%nat
  then (Threw (TypeError "OsuWrapper::getUsers - only up to 50 users can be retrieved at once!"),
        this, w)
  else getScore this currentTime w.

(** [build]: the token is fetched and the instance constructed;
    [currentTime] is the clock read by the constructor. *)
Definition build (currentTime : Z) (w : World) : Outcome t * World :=
  match makeRequest cooldown TOKEN_URL TOKEN_REQUEST w with
  | (Returned (Some token), w) =>
      (Returned (mk (access_token token) (expires_in token) currentTime), w)
  | (Returned None, w) => (Threw ConstructorError, w)
  | (Threw e, w) => (Threw e, w)
  | (Pending, w) => (Pending, w)
  end.

End Instance.

End OsuWrapper.

(** ** OsuWrapper.ts, the revision that refreshes its token on 401 *)

Module OsuWrapper_part_006.

(** The instance: its [_accessToken]. *)
Record t : Type := mk { _accessToken : string }.

(** [buildHeaders]. *)
Definition buildHeaders (this : t) : Request :=
  mkRequest (Some ("Bearer " ++ _accessToken this)).

Definition TOKEN_REQUEST : Request := mkRequest None.

(** The loop of the static [getAccessToken]; its [fetch] is not guarded,
    so a failed fetch throws. *)
Fixpoint getAccessToken_loop (fuel : nat) (delayMs : Q) (retries : nat)
    (w : World) : Outcome string * World :=
  match fuel with
  | O => (Pending, w)
  | S fuel' =>
      let w := sleep TOKEN_URL delayMs w in
      match fetch TOKEN_URL TOKEN_REQUEST w with
      | (None, w) => (Pending, w)
      | (Some FetchTypeError, w) => (Threw (TypeError "fetch failed"), w)
      | (Some FetchError, w) => (Threw (OtherError "fetch failed"), w)
      | (Some (Response statusCode body), w) =>
          if (statusCode =? 200)%Z then (Returned body, w)
          else if (statusCode =? 429)%Z || startsWith5 statusCode then
            let (rnd, w) := mathRandom w in
            let delayMs := backoff delayMs retries rnd in
            getAccessToken_loop fuel' delayMs (S retries) w
          else (Threw unhandled, w)
      end
  end.

(** The loop of [makeRequest].  A [TypeError] thrown by [fetch] sets
    [fetchFailed] and leaves [statusCode] at [-1]; anything else thrown is
    rethrown.  On 401 the token is fetched anew, the request's headers are
    rebuilt, and the loop goes on with [delayMs] and [retries] as they
    were. *)
Fixpoint makeRequest_loop (fuel : nat) (cooldown : Q) (this : t)
    (request : Request) (delayMs : Q) (retries : nat) (w : World)
  : Outcome (option string) * t * World :=
  match fuel with
  | O => (Pending, this, w)
  | S fuel' =>
      let w := sleep API_URL delayMs w in
      match fetch API_URL request w with
      | (None, w) => (Pending, this, w)
      | (Some FetchError, w) => (Threw (OtherError "fetch failed"), this, w)
      | (Some fetched, w) =>
          let '(statusCode, body, fetchFailed) :=
            match fetched with
            | Response statusCode body => (statusCode, body, false)
            | _ => ((-1)%Z, "", true)
            end in
          if (statusCode =? 200)%Z then (Returned (Some body), this, w)
          else if (statusCode =? 401)%Z then
            match getAccessToken_loop fuel' cooldown 0 w with
            | (Returned token, w) =>
                let this := mk token in
                let request := buildHeaders this in
                makeRequest_loop fuel' cooldown this request delayMs retries w
            | (Threw e, w) => (Threw e, this, w)
            | (Pending, w) => (Pending, this, w)
            end
          else if (statusCode =? 404)%Z then (Returned None, this, w)
          else if (statusCode =? 429)%Z || startsWith5 statusCode || fetchFailed then
            let (rnd, w) := mathRandom w in
            let delayMs := backoff delayMs retries rnd in
            makeRequest_loop fuel' cooldown this request delayMs (S retries) w
          else (Threw unhandled, this, w)
      end
  end.

(** [makeRequest]: every pass of either loop takes one answer. *)
Definition makeRequest (cooldown : Q) (this : t) (request : Request)
    (w : World) : Outcome (option string) * t * World :=
  makeRequest_loop (S (List.length (pending w))) cooldown this request cooldown 0 w.

End OsuWrapper_part_006.

(** ** OsuWrapper.ts (src/controller/OsuWrapper.ts), the revision with a
       bounded number of attempts *)

Module OsuWrapper_controller.

(** [response.ok]. *)
Definition ok (status : Z) : bool := ((200 <=? status) && (status <=? 299))%Z.

(** [Math.pow(3, retries)]. *)
Definition pow3 (retries : nat) : Q := inject_Z (3 ^ Z.of_nat retries).

(** The loop [while (retries < maxRetries)] of [makeRequest], entered
    with [retries] and [delaySec]; [fuel] bounds the number of passes.
    Leaving the loop returns [undefined]. *)
Fixpoint makeRequest_loop (fuel : nat) (url : Url) (request : Request)
    (maxRetries : Z) (retries : nat) (delaySec : Q) (w : World)
  : Outcome (option string) * World :=
  match fuel with
  | O => (Pending, w)
  | S fuel' =>
      if (Z.of_nat retries <? maxRetries)%Z then
        let w := sleep url (delaySec * 1000) w in
        match fetch url request w with
        | (None, w) => (Pending, w)
        | (Some FetchTypeError, w) => (Threw (TypeError "fetch failed"), w)
        | (Some FetchError, w) => (Threw (OtherError "fetch failed"), w)
        | (Some (Response status body), w) =>
            if ok status then (Returned (Some body), w)
            else makeRequest_loop fuel' url request maxRetries (S retries)
                   (pow3 (S retries)) w
        end
      else (Returned None, w)
  end.

(** [makeRequest(url, request, maxRetries = 3)]: the loop is left after
    at most [maxRetries] passes. *)
Definition makeRequest (url : Url) (request : Request) (maxRetries : Z)
    (w : World) : Outcome (option string) * World :=
  makeRequest_loop (S (Z.to_nat maxRetries)) url request maxRetries 0 1 w.

Definition TokenError : Error :=
  OtherError "OsuWrapper::getAccessToken - failed to regenerate access token; is the osu!API down?".

(** [getAccessToken]: four attempts. *)
Definition getAccessToken (w : World) : Outcome string * World :=
  match makeRequest TOKEN_URL (mkRequest None) 4 w with
  | (Returned (Some token), w) => (Returned token, w)
  | (Returned None, w) => (Threw TokenError, w)
  | (Threw e, w) => (Threw e, w)
  | (Pending, w) => (Pending, w)
  end.

End OsuWrapper_controller.

(** ** Notions the facts are stated with *)

(** *** Sorting *)

(** A list in non-decreasing order of a key. *)
Definition ordered {A : Type} (key : A -> Z) (l : list A) : Prop :=
  StronglySorted (fun a b => (key a <= key b)%Z) l.

(** The elements of a list that have a given key, in their order. *)
Definition bucket {A : Type} (key : A -> Z) (k : Z) (l : list A) : list A :=
  filter (fun x => (key x =? k)%Z) l.

(** The priority of a token in [sortOsuMods]: its index in [modOrder],
    and 11, past the last index, for a token [modOrder] does not hold. *)
Definition rank (m : string) : Z :=
  let i := indexOf Common.modOrder m in
  if (i =? -1)%Z then 11%Z else i.

(** A token that [sortOsuMods] keeps. *)
Definition notNM (m : string) : bool := negb (String.eqb m "NM").

(** A token that [sortOsuMods] keeps and [modOrder] does not hold. *)
Definition unranked (m : string) : bool :=
  (indexOf Common.modOrder m =? -1)%Z && negb (String.eqb m "NM").

(** *** The request executor *)

(** Whether two urls are the same. *)
Definition Url_eqb (a b : Url) : bool :=
  match a, b with
  | API_URL, API_URL | TOKEN_URL, TOKEN_URL => true
  | _, _ => false
  end.

(** The delays slept in the loop fetching [url], in order. *)
Fixpoint sleeps (url : Url) (tr : list Event) : list Q :=
  match tr with
  | [] => []
  | Sleep u ms :: rest =>
      if Url_eqb u url then ms :: sleeps url rest else sleeps url rest
  | Fetch _ _ :: rest => sleeps url rest
  end.

(** Every fetch comes right after a sleep of its own loop, and every sleep
    is followed by its fetch. *)
Fixpoint paired (tr : list Event) : bool :=
  match tr with
  | [] => true
  | Sleep u _ :: Fetch u' _ :: rest => Url_eqb u u' && paired rest
  | _ => false
  end.







(** The answers to a call that meets [n] 401 responses in a row, each
    followed by a token exchange answered 200 with the token [tok i], and
    then the answers [final]. *)
Fixpoint script401 (n : nat) (tok : nat -> string) (i : nat)
    (final : list FetchResult) : list FetchResult :=
  match n with
  | O => final
  | S n' => Response 401 "" :: Response 200 (tok i)
              :: script401 n' tok (S i) final
  end.

(** The events of such a call that then gets one more answer: each attempt
    is slept for and fetched with the request at hand, each 401 followed by
    a token exchange and a request rebuilt around the new token. *)
Fixpoint trace401 (n : nat) (delayMs cooldown : Q) (tok : nat -> string)
    (i : nat) (request : Request) : list Event :=
  match n with
  | O => [Sleep API_URL delayMs; Fetch API_URL request]
  | S n' =>
      [Sleep API_URL delayMs; Fetch API_URL request;
       Sleep TOKEN_URL cooldown; Fetch TOKEN_URL OsuWrapper_part_006.TOKEN_REQUEST]
      ++ trace401 n' delayMs cooldown tok (S i)
           (OsuWrapper_part_006.buildHeaders (OsuWrapper_part_006.mk (tok i)))
  end%list.

(** The instance such a call leaves behind. *)
Fixpoint final401 (n : nat) (tok : nat -> string) (i : nat)
    (this : OsuWrapper_part_006.t) : OsuWrapper_part_006.t :=
  match n with
  | O => this
  | S n' => final401 n' tok (S i) (OsuWrapper_part_006.mk (tok i))
  end.

(** *** The score tables *)

(** The row has the score id [id]. *)
Definition hasID (id : Z) (r : MORScore.t) : bool :=
  (MORScore.scoreID r =? id)%Z.

(** The ids of a table are unique (its primary key). *)
Definition uniqueIDs (rows : list MORScore.t) : Prop :=
  NoDup (map MORScore.scoreID rows).

(** The rows [getDuplicateScores] selects from a table, and whether it
    selects a given row. *)
Definition duplicatesOf (rows : list MORScore.t) : list MORScore.t :=
  flat_map
    (fun t1 =>
       map (fun _ => t1)
         (filter (fun t2 => DatabaseManager.sameButScoreID t1 t2 &&
                            negb (MORScore.scoreID t1 =? MORScore.scoreID t2)%Z)
                 rows))
    rows.


(** What [removeDuplicateScores] removes a duplicate row for: the API does
    not find its score, or finds it with another [created_at]. *)
Definition stale (osu : OsuApi.t) (r : MORScore.t) : bool :=
  match OsuApi.getScore osu (MORScore.scoreID r) with
  | Ok None => true
  | Ok (Some osuScore) =>
      negb (String.eqb (MORScore.date r) (OsuScore.created_at osuScore))
  | Throw _ => false
  end.



(** *** The user table and the counters *)

(** The ids of the stored users are unique (the primary key of USERS). *)
Definition uniqueUsers (rows : list MORUser.t) : Prop :=
  NoDup (map MORUser.userID rows).

(** The user whose score holds place [i] (from 0) in table [key] sorted by
    pp descending, if the table has that many rows. *)
Definition rankHolder (db : DatabaseManager.t) (key : MORMod.t) (i : nat)
  : option Z :=
  option_map MORScore.userID
    (nth_error (JS.sort DatabaseUpdater.ppCompare (DatabaseManager.scores db key)) i).

Definition holds (id : Z) (holder : option Z) : bool :=
  match holder with
  | Some u => (u =? id)%Z
  | None => false
  end.

(** In how many of the tables listed user [id] holds place [i]. *)
Definition countIn (db : DatabaseManager.t) (id : Z) (i : nat)
    (keys : list MORMod.t) : Z :=
  Z.of_nat (List.length (filter (fun key => holds id (rankHolder db key i)) keys)).

Definition countRank (db : DatabaseManager.t) (id : Z) (i : nat) : Z :=
  countIn db id i MORMod.keys.

(** 1 when the test holds, else 0. *)
Definition indicator (b : bool) : Z := if b then 1%Z else 0%Z.

(** The row [updateUsers] persists for the stored row [r], from the API's
    payload for its id and the counters recounted over [db]. *)
Definition refreshed (db : DatabaseManager.t) (payload : Z -> OsuUser.t)
    (r : MORUser.t) : MORUser.t :=
  let id := MORUser.userID r in
  DatabaseUpdater.updatedUser (payload id) r
    (countRank db id 0, countRank db id 1, countRank db id 2).

(** *** Modifier tokens and combinations *)

(** No character of the string is a line terminator. *)
Fixpoint noLineTerminator (s : string) : bool :=
  match s with
  | EmptyString => true
  | String c s' => negb (isLineTerminator c) && noLineTerminator s'
  end.

(** A modifier token as the osu!API writes them: two characters, neither
    a comma nor a line terminator. *)
Definition isModToken (t : string) : bool :=
  match t with
  | String a (String b EmptyString) =>
      negb (Ascii.eqb a ",") && negb (Ascii.eqb b ",") &&
      negb (isLineTerminator a) && negb (isLineTerminator b)
  | _ => false
  end.

(** The string without its commas. *)
Fixpoint withoutCommas (s : string) : string :=
  match s with
  | EmptyString => EmptyString
  | String c s' => if Ascii.eqb c "," then withoutCommas s' else String c (withoutCommas s')
  end.

(** Whether the list holds the value of an osu! mod. *)
Definition hasMod (M : list string) (m : OsuMod.t) : bool :=
  includes M (OsuMod.toString m).

(** Mods that exclude each other: EZ with HR, HT with DT or NC, and DT
    with NC. *)
Definition conflictOf (ez hr dt nc ht : bool) : bool :=
  (ez && hr) || ((dt || nc) && ht) || (dt && nc).

Definition conflicting (M : list string) : bool :=
  conflictOf (hasMod M OsuMod.EZ) (hasMod M OsuMod.HR) (hasMod M OsuMod.DT)
             (hasMod M OsuMod.NC) (hasMod M OsuMod.HT).

(** The table named by the mods that change the difficulty: EZ, HD, HR,
    DT, HT and FL in this order, NM when there is none. *)
Definition tableNameOf (ez hd hr dt ht fl : bool) : string :=
  let name :=
    (if ez then "EZ" else "") ++ (if hd then "HD" else "") ++
    (if hr then "HR" else "") ++ (if dt then "DT" else "") ++
    (if ht then "HT" else "") ++ (if fl then "FL" else "") in
  if String.eqb name "" then "NM" else name.

Definition tableName (M : list string) : string :=
  tableNameOf (hasMod M OsuMod.EZ) (hasMod M OsuMod.HD) (hasMod M OsuMod.HR)
              (hasMod M OsuMod.DT || hasMod M OsuMod.NC)
              (hasMod M OsuMod.HT) (hasMod M OsuMod.FL).

(** The elements of a list picked by a list of booleans, and all the
    lists of [n] booleans. *)
Fixpoint pickBits {A : Type} (bits : list bool) (l : list A) : list A :=
  match bits, l with
  | b :: bits', x :: l' => if b then x :: pickBits bits' l' else pickBits bits' l'
  | _, _ => []
  end.

Fixpoint allBits (n : nat) : list (list bool) :=
  match n with
  | O => [[]]
  | S n' => (map (cons true) (allBits n') ++ map (cons false) (allBits n'))%list
  end.

(** What [convertOsuMods] has to answer for the mods of the priority list
    picked by [bits]. *)
Definition checkBits (bits : list bool) : bool :=
  match bits with
  | [nf; ez; hd; hr; sd; dt; nc; ht; fl; so; pf] =>
      match Common.convertOsuMods (pickBits bits Common.modOrder) with
      | Ok k =>
          negb (conflictOf ez hr dt nc ht) &&
          String.eqb (MORMod.toString k) (tableNameOf ez hd hr (dt || nc) ht fl)
      | Throw (TypeError _) => conflictOf ez hr dt nc ht
      | Throw _ => false
      end
  | _ => false
  end.

(** *** Answers, retries and attempts *)

(** An answer after which [makeRequest] of src/OsuWrapper.ts and
    [getAccessToken] go round their loop again: a response with status
    429 or with a status that starts with 5. *)
Definition retryable (r : FetchResult) : bool :=
  match r with
  | Response statusCode _ => (statusCode =? 429)%Z || startsWith5 statusCode
  | _ => false
  end.

(** The same for [makeRequest] of the revision that refreshes its token:
    a fetch that failed with a TypeError counts too. *)
Definition retryable_part_006 (r : FetchResult) : bool :=
  match r with
  | Response statusCode _ => (statusCode =? 429)%Z || startsWith5 statusCode
  | FetchTypeError => true
  | FetchError => false
  end.

(** How [makeRequest] ends on an answer it does not retry after: the body
    for 200, [undefined] for 404, the RangeError of an unhandled response
    code for any other status, and what a failed fetch threw. *)
Definition settles (r : FetchResult) : Outcome (option string) :=
  match r with
  | Response statusCode body =>
      if (statusCode =? 200)%Z then Returned (Some body)
      else if (statusCode =? 404)%Z then Returned None
      else Threw unhandled
  | FetchTypeError => Threw (TypeError "fetch failed")
  | FetchError => Threw (OtherError "fetch failed")
  end.

(** How [getAccessToken] ends on such an answer: it has no case for 404. *)
Definition settlesToken (r : FetchResult) : Outcome string :=
  match r with
  | Response statusCode body =>
      if (statusCode =? 200)%Z then Returned body else Threw unhandled
  | FetchTypeError => Threw (TypeError "fetch failed")
  | FetchError => Threw (OtherError "fetch failed")
  end.

(** Whether the answer is a response with status 401. *)
Definition is401 (r : FetchResult) : bool :=
  match r with
  | Response statusCode _ => (statusCode =? 401)%Z
  | _ => false
  end.

(** What a call that took [n] answers one after the other made of world
    [w]: the answers [rest] are left, [extra] more random numbers were
    drawn, and [2 n] events were added, a sleep and a fetch per answer. *)
Definition took (n extra : nat) (rest : list FetchResult) (w w' : World) : Prop :=
  pending w' = rest /\
  random w' = random w /\
  randomCalls w' = (randomCalls w + extra)%nat /\
  exists new, trace w' = (trace w ++ new)%list /\
              List.length new = (2 * n)%nat /\ paired new = true.

(** An answer after which [makeRequest] of src/controller/OsuWrapper.ts
    tries again: a response that is not [ok]. *)
Definition failed (r : FetchResult) : bool :=
  match r with
  | Response status _ => negb (OsuWrapper_controller.ok status)
  | _ => false
  end.

(** The events of [n] attempts of that [makeRequest] from the [k]-th on:
    before its fetch, attempt [k] (from 0) sleeps [3^k] seconds. *)
Fixpoint attempts (url : Url) (request : Request) (k n : nat) : list Event :=
  match n with
  | O => []
  | S n' =>
      Sleep url (OsuWrapper_controller.pow3 k * 1000) :: Fetch url request
        :: attempts url request (S k) n'
  end.

(** *** Tables in order *)

(** Every row is in the table its modifier string names. *)
Definition filed (db : DatabaseManager.t) : Prop :=
  forall key r, In r (DatabaseManager.scores db key) ->
    Common.convertOsuMods (Common.modStringToArray (MORScore.mods r)) = Ok key.

(** The primary keys hold: user ids are unique in USERS and score ids in
    each score table. *)
Definition keyed (db : DatabaseManager.t) : Prop :=
  uniqueUsers (DatabaseManager.USERS db) /\
  forall key, uniqueIDs (DatabaseManager.scores db key).

(** The number of rows of a table with a given score id. *)
Definition countID (id : Z) (rows : list MORScore.t) : Z :=
  Z.of_nat (List.length (filter (hasID id) rows)).

(** *** What the updater's procedures leave behind *)

(** The state a loop leaves behind, however it ended. *)
Definition flowState {S : Type} (f : DatabaseUpdater.Flow S) : S :=
  match f with
  | DatabaseUpdater.Next s => s
  | DatabaseUpdater.Return s => s
  | DatabaseUpdater.Raise _ s => s
  end.

(** [db'] is [db] with rows appended to its score tables, each of them
    converted from a score of the API by [osuScoreToMORScore]. *)
Definition appended (osu : OsuApi.t) (db db' : DatabaseManager.t) : Prop :=
  DatabaseManager.USERS db' = DatabaseManager.USERS db /\
  forall k, exists added,
    DatabaseManager.scores db' k = (DatabaseManager.scores db k ++ added)%list /\
    forall r, In r added ->
      exists osuScore, Common.osuScoreToMORScore osu osuScore = Ok r.

(** The rows of a table whose id is none of [removed]. *)
Definition without (removed : list Z) (rows : list MORScore.t) : list MORScore.t :=
  filter (fun r => negb (existsb (Z.eqb (MORScore.scoreID r)) removed)) rows.

(** [db'] is [db] without some rows, each of them with the id of a
    duplicate row of its table that the API does not find or finds with
    another date. *)
Definition pruned (osu : OsuApi.t) (db db' : DatabaseManager.t) : Prop :=
  DatabaseManager.USERS db' = DatabaseManager.USERS db /\
  forall k, exists removed,
    DatabaseManager.scores db' k = without removed (DatabaseManager.scores db k) /\
    forall id, In id removed ->
      exists r, In r (duplicatesOf (DatabaseManager.scores db k)) /\
                MORScore.scoreID r = id /\ stale osu r = true.

(** The score ids of [db'] are those of [db], table by table and in the
    same order, without some ids that the API does not find. *)
Definition sameIDsBut (osu : OsuApi.t) (db db' : DatabaseManager.t) : Prop :=
  DatabaseManager.USERS db' = DatabaseManager.USERS db /\
  forall k, exists removed,
    map MORScore.scoreID (DatabaseManager.scores db' k) =
      filter (fun id => negb (existsb (Z.eqb id) removed))
             (map MORScore.scoreID (DatabaseManager.scores db k)) /\
    forall id, In id removed -> OsuApi.getScore osu id = Ok None.

(** What [updateScores] makes of a stored row: nothing when the API does
    not find its score, else the row converted from the score the API
    holds. *)
Definition renewedRow (osu : OsuApi.t) (r : MORScore.t) : option MORScore.t :=
  match OsuApi.getScore osu (MORScore.scoreID r) with
  | Ok None => None
  | Ok (Some osuScore) =>
      match Common.osuScoreToMORScore osu osuScore with
      | Ok r' => Some r'
      | Throw _ => Some r
      end
  | Throw _ => Some r
  end.

Definition renewed (osu : OsuApi.t) (rows : list MORScore.t) : list MORScore.t :=
  flat_map (fun r => match renewedRow osu r with
                     | Some r' => [r']
                     | None => []
                     end) rows.

(** The API answers for the row [r] of table [key]: it does not find the
    score, or it holds a score that converts to a row with the same id,
    filed under the same table, that meets the CHECK constraints. *)
Definition answered (osu : OsuApi.t) (key : MORMod.t) (r : MORScore.t) : Prop :=
  OsuApi.getScore osu (MORScore.scoreID r) = Ok None \/
  exists osuScore r',
    OsuApi.getScore osu (MORScore.scoreID r) = Ok (Some osuScore) /\
    Common.osuScoreToMORScore osu osuScore = Ok r' /\
    MORScore.scoreID r' = MORScore.scoreID r /\
    Common.convertOsuMods (Common.modStringToArray (MORScore.mods r')) = Ok key /\
    DatabaseManager.scoreCheck r' = None.

(** The id and the autotrack flag of each stored user, in order. *)
Definition tracking (db : DatabaseManager.t) : list (Z * bool) :=
  map (fun u => (MORUser.userID u, MORUser.autotrack u)) (DatabaseManager.USERS db).

(** *** Pages, leaderboards and commands *)

(** The items of a list with their numbers, counted from [from]. *)
Fixpoint numbered {A : Type} (from : Z) (l : list A) : list (Z * A) :=
  match l with
  | [] => []
  | x :: rest => (from, x) :: numbered (from + 1)%Z rest
  end.

(** The items page [page] (from 1) has to show: five from the place
    [5 (page - 1)] on, fewer when the list ends before. *)
Definition pageItems {A : Type} (items : list A) (page : Z) : list A :=
  firstn 5 (skipn (Z.to_nat (5 * (page - 1))) items).

(** Whether the button a press names is disabled (any other custom id
    names none of the four). *)
Definition disabled {A : Type} (p : Bot.Pager A) (b : Bot.Button) : bool :=
  match b with
  | Bot.Start => Bot.startDisabled p
  | Bot.Prev => Bot.prevDisabled p
  | Bot.Next => Bot.nextDisabled p
  | Bot.Last => Bot.lastDisabled p
  | Bot.OtherButton => false
  end.

(** A pager in order: its page is one of the pages, start and prev are
    disabled exactly on the first page, next and last exactly on the last,
    and its embed is that of its page. *)
Definition pagerOk {A : Type} (items : list A) (p : Bot.Pager A) : Prop :=
  (1 <= Bot.currentPage p <= Bot.numPages items)%Z /\
  Bot.startDisabled p = (Bot.currentPage p =? 1)%Z /\
  Bot.prevDisabled p = (Bot.currentPage p =? 1)%Z /\
  Bot.nextDisabled p = (Bot.currentPage p =? Bot.numPages items)%Z /\
  Bot.lastDisabled p = (Bot.currentPage p =? Bot.numPages items)%Z /\
  Bot.updateEmbed items (Bot.currentPage p) = Ok (Bot.embed p).




(** A [score_id] option whose number, if it reads as one, is a safe
    integer: [parseInt] returns it exactly. *)
Definition safeOption (scoreID : string) : Prop :=
  forall n, parseInt scoreID = Some n -> (Z.abs n <= 2 ^ 53)%Z.

(** The users a rank is looked up in: the tracked ones, by pp from high
    to low. *)
Definition ranked (db : DatabaseManager.t) : list MORUser.t :=
  filter MORUser.autotrack (JS.sort Bot.userPpCompare (DatabaseManager.getUsers db)).

(** Whether a stored user carries the name, up to the case of letters. *)
Definition named (username : string) (u : MORUser.t) : bool :=
  String.eqb (Bot.toLowerCase (MORUser.username u)) (Bot.toLowerCase username).

(** *** Numerals *)

(** The value of a decimal numeral read after digits of value [acc]. *)
Fixpoint uintValue (d : Decimal.uint) (acc : Z) : Z :=
  match d with
  | Decimal.Nil => acc
  | Decimal.D0 d' => uintValue d' (10 * acc)%Z
  | Decimal.D1 d' => uintValue d' (10 * acc + 1)%Z
  | Decimal.D2 d' => uintValue d' (10 * acc + 2)%Z
  | Decimal.D3 d' => uintValue d' (10 * acc + 3)%Z
  | Decimal.D4 d' => uintValue d' (10 * acc + 4)%Z
  | Decimal.D5 d' => uintValue d' (10 * acc + 5)%Z
  | Decimal.D6 d' => uintValue d' (10 * acc + 6)%Z
  | Decimal.D7 d' => uintValue d' (10 * acc + 7)%Z
  | Decimal.D8 d' => uintValue d' (10 * acc + 8)%Z
  | Decimal.D9 d' => uintValue d' (10 * acc + 9)%Z
  end.

(* ================================================================== *)
(** * Part II: facts                                                   *)
(* ================================================================== *)

(** ** A stable sort by a key *)

Section SortFacts.
Context {A : Type} (cmp : A -> A -> Z) (key : A -> Z).
Hypothesis cmp_key : forall a b, (cmp a b <= 0)%Z <-> (key a <= key b)%Z.

Let le_key (a b : A) : Prop := (key a <= key b)%Z.

Lemma insert_perm (a : A) (l : list A) :
  Permutation (JS.insert cmp a l) (a :: l).
Proof.
  induction l as [|b l IH]; simpl; [reflexivity|].
  destruct (cmp a b <=? 0)%Z; [reflexivity|].
  rewrite IH. apply perm_swap.
Qed.

Lemma sort_perm (l : list A) : Permutation (JS.sort cmp l) l.
Proof.
  induction l as [|a l IH]; simpl; [reflexivity|].
  rewrite insert_perm. now constructor.
Qed.

Lemma insert_ordered (a : A) (l : list A) :
  ordered key l -> ordered key (JS.insert cmp a l).
Proof.
  unfold ordered. induction 1 as [|b l Hl IH Hb]; simpl.
  - repeat constructor.
  - destruct (Z.leb_spec (cmp a b) 0) as [Hle|Hgt].
    + apply cmp_key in Hle.
      constructor; [now constructor|].
      constructor; [exact Hle|].
      rewrite Forall_forall in *. intros x Hx.
      specialize (Hb x Hx). unfold le_key in *. lia.
    + assert (key b < key a)%Z as Hlt.
      { destruct (Z.le_gt_cases (key a) (key b)) as [H|H]; [|lia].
        apply cmp_key in H. lia. }
      constructor; [exact IH|].
      rewrite Forall_forall in *. intros x Hx.
      apply (Permutation_in _ (insert_perm a l)) in Hx.
      destruct Hx as [<-|Hx]; [unfold le_key; lia|now apply Hb].
Qed.

Lemma sort_ordered (l : list A) : ordered key (JS.sort cmp l).
Proof.
  induction l as [|a l IH]; simpl; [constructor|].
  now apply insert_ordered.
Qed.

(** Stability: within one key the input order is kept. *)
Lemma insert_bucket (k : Z) (a : A) (l : list A) :
  ordered key l -> bucket key k (JS.insert cmp a l) = bucket key k (a :: l).
Proof.
  unfold ordered, bucket. induction 1 as [|b l Hl IH Hb]; simpl; [reflexivity|].
  destruct (Z.leb_spec (cmp a b) 0) as [Hle|Hgt]; [reflexivity|].
  assert (key b < key a)%Z as Hlt.
  { destruct (Z.le_gt_cases (key a) (key b)) as [H|H]; [|lia].
    apply cmp_key in H. lia. }
  simpl in *. rewrite IH.
  destruct (Z.eqb_spec (key a) k) as [Ha|Ha];
    destruct (Z.eqb_spec (key b) k) as [Hk|Hk]; try reflexivity.
  lia.
Qed.

Lemma sort_bucket (k : Z) (l : list A) :
  bucket key k (JS.sort cmp l) = bucket key k l.
Proof.
  induction l as [|a l IH]; simpl; [reflexivity|].
  rewrite insert_bucket by apply sort_ordered.
  unfold bucket in *. simpl. now rewrite IH.
Qed.

(** Two ordered key lists with the same buckets are the same list. *)
Lemma ordered_buckets_eq (l1 l2 : list A) :
  ordered key l1 -> ordered key l2 ->
  (forall k, bucket key k l1 = bucket key k l2) -> l1 = l2.
Proof.
  unfold ordered. intros H1. revert l2.
  induction H1 as [|x l1 Hl1 IH Hx]; intros l2 H2 Hb.
  - destruct l2 as [|y l2]; [reflexivity|].
    specialize (Hb (key y)). unfold bucket in Hb. simpl in Hb.
    rewrite Z.eqb_refl in Hb. discriminate.
  - destruct H2 as [|y l2 Hl2 Hy].
    + specialize (Hb (key x)). unfold bucket in Hb. simpl in Hb.
      rewrite Z.eqb_refl in Hb. discriminate.
    + assert (forall z l, Forall (le_key z) l ->
                forall k, (k < key z)%Z -> bucket key k l = []) as Hnone.
      { intros z l Hz k Hk. unfold bucket.
        induction Hz as [|u l Hu _ IHz]; simpl; [reflexivity|].
        unfold le_key in Hu.
        destruct (Z.eqb_spec (key u) k); [lia|exact IHz]. }
      assert (key x = key y) as Hxy.
      { destruct (Z.lt_trichotomy (key x) (key y)) as [H|[H|H]]; [|exact H|].
        - specialize (Hb (key x)). unfold bucket in Hb. simpl in Hb.
          rewrite Z.eqb_refl in Hb.
          destruct (Z.eqb_spec (key y) (key x)); [lia|].
          fold (bucket key (key x) l2) in Hb.
          rewrite (Hnone y l2 Hy (key x) H) in Hb. discriminate.
        - specialize (Hb (key y)). unfold bucket in Hb. simpl in Hb.
          rewrite Z.eqb_refl in Hb.
          destruct (Z.eqb_spec (key x) (key y)); [lia|].
          fold (bucket key (key y) l1) in Hb.
          rewrite (Hnone x l1 Hx (key y) H) in Hb. discriminate. }
      assert (x = y) as ->.
      { specialize (Hb (key x)). unfold bucket in Hb. simpl in Hb.
        rewrite <- Hxy, Z.eqb_refl in Hb. now injection Hb. }
      f_equal. apply IH; [exact Hl2|].
      intros k. specialize (Hb k). unfold bucket in *. simpl in Hb.
      destruct (Z.eqb_spec (key y) k); [now injection Hb|exact Hb].
Qed.

(** The sorted list depends on the buckets of the input only. *)
Lemma sort_by_buckets (l l' : list A) :
  (forall k, bucket key k l = bucket key k l') -> JS.sort cmp l = JS.sort cmp l'.
Proof.
  intros Hb. apply ordered_buckets_eq; try apply sort_ordered.
  intros k. now rewrite !sort_bucket.
Qed.

End SortFacts.

(** ** Facts about Common.ts *)

Section CommonFacts.

Lemma indexOf_from_range (l : list string) (x : string) (i : Z) :
  (0 <= i)%Z ->
  indexOf_from i l x = (-1)%Z \/
  (i <= indexOf_from i l x < i + Z.of_nat (List.length l))%Z.
Proof.
  revert i. induction l as [|y l IH]; intros i Hi; simpl; [now left|].
  destruct (String.eqb y x); [right; lia|].
  destruct (IH (i + 1)%Z ltac:(lia)) as [->|H]; [now left|right; lia].
Qed.

Lemma indexOf_from_inj (l : list string) (a b : string) (i : Z) :
  (0 <= i)%Z ->
  indexOf_from i l a = indexOf_from i l b ->
  indexOf_from i l a <> (-1)%Z -> a = b.
Proof.
  revert i. induction l as [|y l IH]; intros i Hi; simpl; [congruence|].
  destruct (String.eqb_spec y a) as [Ha|Ha];
    destruct (String.eqb_spec y b) as [Hb|Hb]; intros He Hn.
  - congruence.
  - destruct (indexOf_from_range l b (i + 1) ltac:(lia)) as [H|H]; lia.
  - destruct (indexOf_from_range l a (i + 1) ltac:(lia)) as [H|H]; lia.
  - now apply (IH (i + 1)%Z ltac:(lia)).
Qed.

Lemma indexOf_modOrder_range (m : string) :
  indexOf Common.modOrder m = (-1)%Z \/ (0 <= indexOf Common.modOrder m < 11)%Z.
Proof.
  unfold indexOf.
  destruct (indexOf_from_range Common.modOrder m 0 ltac:(lia)) as [H|H];
    [now left|right].
  change (Z.of_nat (List.length Common.modOrder)) with 11%Z in H. lia.
Qed.

Lemma rank_range (m : string) : (0 <= rank m <= 11)%Z.
Proof.
  unfold rank. cbv zeta.
  destruct (indexOf_modOrder_range m) as [H|H];
    destruct (Z.eqb_spec (indexOf Common.modOrder m) (-1)); lia.
Qed.

Lemma rank_inj (a b : string) : rank a = rank b -> rank a <> 11%Z -> a = b.
Proof.
  unfold rank. cbv zeta. intros He Hn.
  destruct (indexOf_modOrder_range a) as [Ha|Ha];
    destruct (indexOf_modOrder_range b) as [Hb|Hb];
    destruct (Z.eqb_spec (indexOf Common.modOrder a) (-1));
    destruct (Z.eqb_spec (indexOf Common.modOrder b) (-1)); try lia.
  unfold indexOf in *.
  now apply (indexOf_from_inj Common.modOrder a b 0 ltac:(lia)).
Qed.

(** The comparator of [sortOsuMods] compares ranks. *)
Lemma modCompare_rank (a b : string) :
  (Common.modCompare a b <= 0)%Z <-> (rank a <= rank b)%Z.
Proof.
  pose proof (indexOf_modOrder_range a) as Ra.
  pose proof (indexOf_modOrder_range b) as Rb.
  unfold Common.modCompare, rank. cbv zeta.
  destruct (Z.eqb_spec (indexOf Common.modOrder a) (-1)) as [Ha|Ha];
    destruct (Z.eqb_spec (indexOf Common.modOrder b) (-1)) as [Hb|Hb];
    simpl; lia.
Qed.

Lemma filter_perm {A : Type} (f : A -> bool) (l l' : list A) :
  Permutation l l' -> Permutation (filter f l) (filter f l').
Proof.
  induction 1 as [|x l l' _ IH|x y l|l l' l'' _ IH1 _ IH2]; simpl.
  - constructor.
  - destruct (f x); [now constructor|exact IH].
  - destruct (f x), (f y); try reflexivity. apply perm_swap.
  - now transitivity (filter f l').
Qed.

(** Two lists of one length whose elements are all one value are equal. *)
Lemma constant_lists_eq {A : Type} (l l' : list A) :
  List.length l = List.length l' ->
  (forall x y, In x (l ++ l')%list -> In y (l ++ l')%list -> x = y) ->
  l = l'.
Proof.
  revert l'. induction l as [|x l IH]; intros [|y l'] Hlen Hall;
    simpl in Hlen; try discriminate; [reflexivity|].
  assert (x = y) as ->.
  { apply Hall; [now left|]. apply in_or_app. right. now left. }
  f_equal. apply IH; [congruence|].
  intros u v Hu Hv.
  apply Hall; apply in_or_app; simpl;
    [apply in_app_or in Hu|apply in_app_or in Hv]; tauto.
Qed.

(** A ranked bucket is fixed by the number of its tokens. *)
Lemma ranked_bucket_perm (k : Z) (l l' : list string) :
  k <> 11%Z -> Permutation l l' -> bucket rank k l = bucket rank k l'.
Proof.
  intros Hk Hp. apply constant_lists_eq.
  - apply Permutation_length. now apply filter_perm.
  - intros x y Hx Hy.
    assert (forall z, In z (bucket rank k l ++ bucket rank k l')%list -> rank z = k)
      as Hr.
    { intros z Hz. apply in_app_or in Hz. unfold bucket in Hz.
      destruct Hz as [Hz|Hz]; apply filter_In in Hz;
        destruct Hz as [_ Hz]; now apply Z.eqb_eq. }
    apply rank_inj; rewrite (Hr x Hx); [now rewrite (Hr y Hy)|exact Hk].
Qed.

Lemma unranked_bucket (l : list string) :
  bucket rank 11 (filter notNM l) = filter unranked l.
Proof.
  unfold bucket. induction l as [|m l IH]; [reflexivity|].
  cbn [filter]. unfold notNM at 1, unranked at 1.
  destruct (String.eqb m "NM"); cbn [negb].
  - rewrite Bool.andb_false_r. exact IH.
  - rewrite Bool.andb_true_r. cbn [filter]. rewrite IH.
    unfold rank. cbv zeta.
    destruct (indexOf_modOrder_range m) as [Hm|Hm].
    + rewrite Hm. reflexivity.
    + destruct (Z.eqb_spec (indexOf Common.modOrder m) (-1)); [lia|].
      destruct (Z.eqb_spec (indexOf Common.modOrder m) 11); [lia|].
      reflexivity.
Qed.

(** [sortOsuMods] depends on the multiset of the tokens and on the order
    of the unranked ones only. *)
Lemma sortOsuMods_perm (M M' : list string) :
  Permutation M M' -> filter unranked M = filter unranked M' ->
  Common.sortOsuMods M' = Common.sortOsuMods M.
Proof.
  intros Hp Hu. unfold Common.sortOsuMods.
  apply (sort_by_buckets Common.modCompare rank modCompare_rank).
  intros k. fold notNM. destruct (Z.eq_dec k 11) as [->|Hk].
  - now rewrite !unranked_bucket.
  - apply ranked_bucket_perm; [exact Hk|].
    apply filter_perm. now symmetry.
Qed.

Lemma sortOsuMods_ordered (M : list string) :
  ordered rank (Common.sortOsuMods M).
Proof.
  unfold Common.sortOsuMods.
  apply (sort_ordered Common.modCompare rank modCompare_rank).
Qed.

Lemma sortOsuMods_unranked (M : list string) :
  filter unranked (Common.sortOsuMods M) = filter unranked M.
Proof.
  unfold Common.sortOsuMods. fold notNM.
  assert (forall l, (forall m, In m l -> notNM m = true) ->
                    filter notNM l = l) as Hid.
  { induction l as [|m l IH]; intros H; simpl; [reflexivity|].
    rewrite (H m (or_introl eq_refl)). f_equal. apply IH.
    intros m' Hm'. apply H. now right. }
  set (S := JS.sort Common.modCompare (filter notNM M)).
  assert (filter notNM S = S) as HS.
  { apply Hid. intros m Hm.
    apply (Permutation_in _ (sort_perm Common.modCompare _)) in Hm.
    apply filter_In in Hm. tauto. }
  rewrite <- !unranked_bucket, HS.
  apply (sort_bucket Common.modCompare rank modCompare_rank).
Qed.

End CommonFacts.

(** *** The claims about the modifier canonicaliser *)

(** Two tokens that [modOrder] does not hold keep their input order, and
    deleting NF can join the letters of two neighbours into a key. *)
Example convertOsuMods_HN_FD :
  Common.convertOsuMods ["HN"; "FD"] = Ok MORMod.HD /\
  Common.convertOsuMods ["FD"; "HN"] =
    Throw (TypeError "stringToMORMod - FDHN has no associated MORMod!").
Proof. split; reflexivity. Qed.

(** C3, as stated, fails: [convertOsuMods] is not invariant under every
    permutation of every token list.  The lists ["HN"; "FD"] and
    ["FD"; "HN"] are permutations of each other; the first converts to the
    key HD, the second throws. *)
Lemma convertOsuMods_not_permutation_invariant :
  ~ (forall M M' : list string,
        Permutation M M' -> Common.convertOsuMods M' = Common.convertOsuMods M).
Proof.
  intros H.
  specialize (H ["HN"; "FD"] ["FD"; "HN"] (perm_swap _ _ _)).
  vm_compute in H. discriminate.
Qed.

(** C3, amended: for every list of modifier tokens M and every permutation
    M' of M in which the tokens outside the priority list (other than NM)
    come in the same relative order as in M, [convertOsuMods M'] is
    [convertOsuMods M]; [sortOsuMods] orders the tokens by their place in
    NF, EZ, HD, HR, SD, DT, NC, HT, FL, SO, PF, puts the tokens outside
    that list last and keeps them in their input order. *)
Theorem convertOsuMods_permutation (M M' : list string) :
  Permutation M M' ->
  filter unranked M = filter unranked M' ->
  Common.convertOsuMods M' = Common.convertOsuMods M /\
  Common.sortOsuMods M' = Common.sortOsuMods M /\
  ordered rank (Common.sortOsuMods M) /\
  Permutation (Common.sortOsuMods M) (filter notNM M) /\
  filter unranked (Common.sortOsuMods M) = filter unranked M.
Proof.
  intros Hp Hu.
  pose proof (sortOsuMods_perm M M' Hp Hu) as Hs.
  repeat split.
  - unfold Common.convertOsuMods. now rewrite Hs.
  - exact Hs.
  - apply sortOsuMods_ordered.
  - apply (sort_perm Common.modCompare).
  - apply sortOsuMods_unranked.
Qed.

Lemma convertOsuMods_permutation_witness :
  Permutation ["FL"; "XX"; "NC"; "HD"] ["HD"; "XX"; "FL"; "NC"] /\
  filter unranked ["FL"; "XX"; "NC"; "HD"] = filter unranked ["HD"; "XX"; "FL"; "NC"] /\
  Common.convertOsuMods ["HD"; "XX"; "FL"; "NC"] =
    Common.convertOsuMods ["FL"; "XX"; "NC"; "HD"].
Proof.
  assert (Permutation ["FL"; "XX"; "NC"; "HD"] ["HD"; "XX"; "FL"; "NC"]) as Hp.
  { apply Permutation_sym.
    apply (Permutation_cons_app ["FL"; "XX"; "NC"] [] "HD").
    apply (Permutation_cons_app ["FL"] ["NC"] "XX").
    apply Permutation_refl. }
  split; [exact Hp|]. split; [reflexivity|].
  apply (convertOsuMods_permutation _ _ Hp). reflexivity.
Defined.

(** C4: [convertOsuMods] of the empty list is NM; [convertOsuMods ["NC"]]
    is [convertOsuMods ["DT"]], the key DT; [convertOsuMods ["NF"; "SO"]]
    is NM, as is the conversion of NF, SD, SO and PF together. *)
Theorem convertOsuMods_examples :
  Common.convertOsuMods [] = Ok MORMod.NM /\
  MORMod.toString MORMod.NM = "NM" /\
  Common.convertOsuMods ["NC"] = Common.convertOsuMods ["DT"] /\
  Common.convertOsuMods ["NC"] = Ok MORMod.DT /\
  Common.convertOsuMods ["NF"; "SO"] = Ok MORMod.NM /\
  Common.convertOsuMods ["PF"; "SO"; "SD"; "NF"] = Ok MORMod.NM.
Proof. repeat split; reflexivity. Qed.

Lemma MORMod_keys_complete (k : MORMod.t) : In k MORMod.keys.
Proof. destruct k; simpl; tauto. Qed.

Lemma MORMod_keys_NoDup : NoDup MORMod.keys.
Proof.
  assert (forall l : list MORMod.t,
            (fix nodup (l : list MORMod.t) : bool :=
               match l with
               | [] => true
               | x :: r => negb (existsb (MORMod.eqb x) r) && nodup r
               end) l = true -> NoDup l) as Hnd.
  { induction l as [|x r IH]; intros H; [constructor|].
    apply Bool.andb_true_iff in H. destruct H as [Hx Hr].
    constructor; [|now apply IH].
    intros Hin. apply Bool.negb_true_iff in Hx.
    assert (existsb (MORMod.eqb x) r = true) as He; [|congruence].
    apply existsb_exists. exists x. split; [exact Hin|].
    unfold MORMod.eqb. now destruct (MORMod.eq_dec x x). }
  apply Hnd. vm_compute. reflexivity.
Qed.

(** C10, as stated, fails in its count: [enum MORMod] declares 36 keys,
    not 35. *)
Lemma MORMod_keys_not_35 : List.length MORMod.keys <> 35%nat.
Proof. vm_compute. discriminate. Qed.

(** C10, amended: [enum MORMod] declares 36 partition keys, and for each
    of them, splitting it into two-character tokens with [modStringToArray]
    and canonicalising the result with [convertOsuMods] returns the key
    itself. *)
Theorem convertOsuMods_fixes_MORMod :
  List.length MORMod.keys = 36%nat /\
  NoDup MORMod.keys /\
  forall k : MORMod.t,
    In k MORMod.keys /\
    Common.convertOsuMods (Common.modStringToArray (MORMod.toString k)) = Ok k.
Proof.
  split; [reflexivity|]. split.
  - apply MORMod_keys_NoDup.
  - intros k. split; [apply MORMod_keys_complete|].
    destruct k; reflexivity.
Qed.

(** ** Facts about the request executor *)

Section RequestFacts.

Import OsuWrapper_part_006.

(** A token exchange answered 200 at once returns the token. *)
Lemma getAccessToken_loop_200 (fuel : nat) (cooldown : Q) (retries : nat)
    (token : string) (rest : list FetchResult) (w : World) :
  (1 <= fuel)%nat ->
  pending w = Response 200 token :: rest ->
  getAccessToken_loop fuel cooldown retries w =
    (Returned token,
     mkWorld rest (random w) (randomCalls w)
       (trace w ++ [Sleep TOKEN_URL cooldown; Fetch TOKEN_URL TOKEN_REQUEST])).
Proof.
  intros Hf Hp. destruct fuel as [|fuel]; [lia|].
  destruct w as [p r rc tr]. simpl in Hp. subst p.
  simpl. now rewrite <- app_assoc.
Qed.

(** One pass of the loop of [makeRequest] that meets a 401. *)
Lemma makeRequest_loop_401 (fuel : nat) (cooldown : Q) (this : t)
    (request : Request) (delayMs : Q) (retries : nat) (body : string)
    (rest : list FetchResult) (w : World) :
  pending w = Response 401 body :: rest ->
  makeRequest_loop (S fuel) cooldown this request delayMs retries w =
    match getAccessToken_loop fuel cooldown 0
            (mkWorld rest (random w) (randomCalls w)
               (trace w ++ [Sleep API_URL delayMs; Fetch API_URL request])) with
    | (Returned token, w') =>
        makeRequest_loop fuel cooldown (mk token) (buildHeaders (mk token))
          delayMs retries w'
    | (Threw e, w') => (Threw e, this, w')
    | (Pending, w') => (Pending, this, w')
    end.
Proof.
  intros Hp. destruct w as [p r rc tr]. simpl in Hp. subst p.
  cbn [makeRequest_loop sleep fetch pending random randomCalls trace].
  rewrite <- app_assoc. reflexivity.
Qed.

Lemma makeRequest_loop_401s (cooldown : Q) (tok : nat -> string)
    (body : string) (rest : list FetchResult) :
  forall (n fuel i : nat) (this : t) (request : Request) (delayMs : Q)
         (retries : nat) (w : World),
    (2 * n + 1 <= fuel)%nat ->
    pending w = script401 n tok i (Response 200 body :: rest) ->
    makeRequest_loop fuel cooldown this request delayMs retries w =
      (Returned (Some body), final401 n tok i this,
       mkWorld rest (random w) (randomCalls w)
         (trace w ++ trace401 n delayMs cooldown tok i request)).
Proof.
  induction n as [|n IH]; intros fuel i this request delayMs retries w Hf Hp.
  - destruct fuel as [|fuel]; [lia|].
    destruct w as [p r rc tr]. simpl in Hp. subst p.
    simpl. now rewrite <- app_assoc.
  - destruct fuel as [|fuel]; [lia|].
    simpl in Hp.
    rewrite (makeRequest_loop_401 _ _ _ _ _ _ _ _ _ Hp).
    rewrite (getAccessToken_loop_200 fuel cooldown 0 (tok i)
               (script401 n tok (S i) (Response 200 body :: rest)));
      [|lia|reflexivity].
    rewrite (IH fuel (S i)); [|lia|reflexivity].
    cbn [pending random randomCalls trace final401 trace401].
    now rewrite <- !app_assoc.
Qed.

Lemma length_script401 (n : nat) (tok : nat -> string) (i : nat)
    (final : list FetchResult) :
  List.length (script401 n tok i final) = (2 * n + List.length final)%nat.
Proof.
  revert i. induction n as [|n IH]; intros i; simpl; [reflexivity|].
  rewrite IH. lia.
Qed.

(** *** The passes allowed are enough *)

(** A call is reported pending only when every answer has been taken: the
    bound on the passes never cuts a call short. *)
Lemma makeRequest_loop_pending (url : Url) (request : Request) :
  forall (fuel : nat) (d : Q) (n : nat) (w : World),
    (List.length (pending w) < fuel)%nat ->
    fst (OsuWrapper.makeRequest_loop fuel url request d n w) = Pending ->
    pending (snd (OsuWrapper.makeRequest_loop fuel url request d n w)) = [].
Proof.
  induction fuel as [|fuel IH]; intros d n w Hlen; [lia|].
  destruct w as [p r rc tr].
  destruct p as [|[statusCode body| |] rest];
    cbn [OsuWrapper.makeRequest_loop sleep fetch pending random randomCalls trace
           fst snd] in *; try discriminate; [reflexivity|].
  destruct (statusCode =? 200)%Z; [discriminate|].
  destruct (statusCode =? 404)%Z; [discriminate|].
  destruct ((statusCode =? 429)%Z || startsWith5 statusCode); [|discriminate].
  cbn [mathRandom random randomCalls pending trace].
  apply IH. cbn [pending List.length] in *. lia.
Qed.

Lemma getAccessToken_loop_pending :
  forall (fuel : nat) (d : Q) (n : nat) (w : World),
    (List.length (pending (snd (getAccessToken_loop fuel d n w)))
       <= List.length (pending w))%nat /\
    ((List.length (pending w) < fuel)%nat ->
     fst (getAccessToken_loop fuel d n w) = Pending ->
     pending (snd (getAccessToken_loop fuel d n w)) = []).
Proof.
  induction fuel as [|fuel IH]; intros d n w; [simpl; split; [lia|lia]|].
  destruct w as [p r rc tr].
  destruct p as [|[statusCode body| |] rest];
    cbn [getAccessToken_loop sleep fetch pending random randomCalls trace
           fst snd List.length] in *;
    try (split; [lia|intros _ H; first [discriminate H|reflexivity]]).
  destruct (statusCode =? 200)%Z;
    [cbn [fst snd pending List.length];
     split; [lia|intros _ H; discriminate H]|].
  destruct ((statusCode =? 429)%Z || startsWith5 statusCode);
    [|cbn [fst snd pending List.length];
      split; [lia|intros _ H; discriminate H]].
  cbn [mathRandom random randomCalls pending trace].
  destruct (IH (backoff d n (r rc)) (S n)
              (mkWorld rest r (S rc)
                 ((tr ++ [Sleep TOKEN_URL d]) ++ [Fetch TOKEN_URL TOKEN_REQUEST])%list))
    as [Hle Hp].
  cbn [pending List.length] in *. split; [lia|].
  intros Hlen. apply Hp. lia.
Qed.

Lemma makeRequest_loop_pending_part_006 (cooldown : Q) :
  forall (fuel : nat) (this : t) (request : Request) (d : Q) (n : nat) (w : World),
    (List.length (pending w) < fuel)%nat ->
    fst (fst (makeRequest_loop fuel cooldown this request d n w)) = Pending ->
    pending (snd (makeRequest_loop fuel cooldown this request d n w)) = [].
Proof.
  induction fuel as [|fuel IH]; intros this request d n w Hlen; [lia|].
  destruct w as [p r rc tr].
  assert (forall rest,
            (List.length rest < fuel)%nat ->
            let res := let (rnd, w0) :=
                         mathRandom
                           (mkWorld rest r rc
                              ((tr ++ [Sleep API_URL d]) ++ [Fetch API_URL request])%list) in
                       makeRequest_loop fuel cooldown this request
                         (backoff d n rnd) (S n) w0 in
            fst (fst res) = Pending -> pending (snd res) = []) as Hretry.
  { intros rest Hrest. cbn [mathRandom random randomCalls pending trace].
    apply IH. exact Hrest. }
  destruct p as [|[statusCode body| |] rest];
    cbn [makeRequest_loop sleep fetch pending random randomCalls trace
           fst snd List.length] in *; try discriminate; [reflexivity| |].
  - destruct (statusCode =? 200)%Z; [discriminate|].
    destruct (statusCode =? 401)%Z.
    + set (w2 := mkWorld rest r rc
                   ((tr ++ [Sleep API_URL d]) ++ [Fetch API_URL request])%list).
      destruct (getAccessToken_loop_pending fuel cooldown 0 w2) as [Hle Hp].
      destruct (getAccessToken_loop fuel cooldown 0 w2) as [[token| e |] w3];
        cbn [fst snd] in *; try discriminate.
      * apply IH. unfold w2 in Hle. cbn [pending] in Hle. lia.
      * intros _. apply Hp; [unfold w2; cbn [pending]; lia|reflexivity].
    + destruct (statusCode =? 404)%Z; [discriminate|].
      destruct ((statusCode =? 429)%Z || startsWith5 statusCode || false);
        [|discriminate].
      apply Hretry. lia.
  - apply Hretry. lia.
Qed.

(** For a three-digit status code, ['5xx'] is 500 to 599. *)
Lemma startsWith5_three_digits (statusCode : Z) :
  (100 <= statusCode <= 999)%Z ->
  startsWith5 statusCode = ((500 <=? statusCode) && (statusCode <=? 599))%Z.
Proof.
  intros H. unfold startsWith5.
  assert (6 <= Z.log2 statusCode)%Z as Hlog.
  { change 6%Z with (Z.log2 64). apply Z.log2_le_mono. lia. }
  destruct (Z.to_nat (Z.log2 statusCode)) as [|[|k]] eqn:Hk; try lia.
  cbn [leadingDigit].
  pose proof (Z.div_mod statusCode 10 ltac:(lia)) as E1.
  pose proof (Z.mod_pos_bound statusCode 10 ltac:(lia)) as B1.
  pose proof (Z.div_mod (statusCode / 10) 10 ltac:(lia)) as E2.
  pose proof (Z.mod_pos_bound (statusCode / 10) 10 ltac:(lia)) as B2.
  destruct (Z.ltb_spec statusCode 10); [lia|].
  destruct (Z.ltb_spec (statusCode / 10) 10); [lia|].
  destruct (Z.ltb_spec (statusCode / 10 / 10) 10); [|lia].
  assert ((0 <=? statusCode)%Z = true) as -> by (apply Z.leb_le; lia).
  cbn [andb].
  destruct (Z.eqb_spec (statusCode / 10 / 10) 5);
    destruct (Z.leb_spec 500 statusCode); destruct (Z.leb_spec statusCode 599);
    cbn [andb]; try reflexivity; lia.
Qed.

End RequestFacts.

(** *** The delays of the backoff loop *)

Section BackoffFacts.

Local Open Scope Q_scope.







Lemma Url_eqb_refl (u : Url) : Url_eqb u u = true.
Proof. now destruct u. Qed.




(** *** src/OsuWrapper.ts *)


(** *** The revision that handles 401 *)





End BackoffFacts.

(** Eight failures in a row with no jitter, then a 200: the delays double
    from one second up to 64 seconds and stay there. *)
Example makeRequest_eight_failures :
  let w := mkWorld (repeat (Response 503 "") 8 ++ [Response 200 "body"])
             (fun _ => 0) 0 [] in
  sleeps API_URL
    (trace (snd (OsuWrapper.makeRequest 1000 API_URL (mkRequest None) w))) =
  [1000; 1000; 2000; 4000; 8000; 16000; 32000; 64000; 64000].
Proof. reflexivity. Qed.




(** C1, as stated, fails.  In the revision that handles 401 a second 401
    is not fatal: with the answers 401, token, 401, token, 200 the call
    refreshes twice and returns the body.  In src/OsuWrapper.ts a 401 is
    an unhandled code: the call throws at once, without a refresh or a
    retry. *)
Lemma makeRequest_second_401_not_fatal :
  let answers := [Response 401 ""; Response 200 "t1"; Response 401 "";
                  Response 200 "t2"; Response 200 "body"] in
  let w := mkWorld answers (fun _ => 0) 0 [] in
  let this := OsuWrapper_part_006.mk "t0" in
  let request := OsuWrapper_part_006.buildHeaders this in
  OsuWrapper_part_006.makeRequest 1000 this request w =
    (Returned (Some "body"), OsuWrapper_part_006.mk "t2",
     mkWorld [] (fun _ => 0) 0
       [Sleep API_URL 1000; Fetch API_URL (mkRequest (Some "Bearer t0"));
        Sleep TOKEN_URL 1000; Fetch TOKEN_URL (mkRequest None);
        Sleep API_URL 1000; Fetch API_URL (mkRequest (Some "Bearer t1"));
        Sleep TOKEN_URL 1000; Fetch TOKEN_URL (mkRequest None);
        Sleep API_URL 1000; Fetch API_URL (mkRequest (Some "Bearer t2"))]) /\
  OsuWrapper.makeRequest 1000 API_URL request w =
    (Threw unhandled,
     mkWorld [Response 200 "t1"; Response 401 ""; Response 200 "t2";
              Response 200 "body"] (fun _ => 0) 0
       [Sleep API_URL 1000; Fetch API_URL (mkRequest (Some "Bearer t0"))]).
Proof. split; reflexivity. Qed.

(** C1, amended.  In the revision of OsuWrapper.ts that handles 401, each
    401 makes [makeRequest] fetch a new token with [getAccessToken],
    rebuild the request's headers around it and go round its loop again,
    with the delay and the retry count unchanged and with no bound on the
    number of such rounds: a call answered 401 [n] times in a row (each
    token exchange answered 200) and then 200 returns the body, for every
    [n], each attempt carrying the token fetched last; a token exchange
    that throws makes the call throw.  In
    src/OsuWrapper.ts [makeRequest] does not handle 401: the first 401
    throws the RangeError of an unhandled response code, after one sleep
    and one fetch. *)
Theorem makeRequest_401 (cooldown : Q) (tok : nat -> string) (n : nat)
    (body body1 : string) (rest rest1 : list FetchResult)
    (this : OsuWrapper_part_006.t) (url : Url) (request : Request)
    (w w1 : World) :
  pending w = script401 n tok 0 (Response 200 body :: rest) ->
  pending w1 = Response 401 body1 :: rest1 ->
  OsuWrapper_part_006.makeRequest cooldown this request w =
    (Returned (Some body), final401 n tok 0 this,
     mkWorld rest (random w) (randomCalls w)
       (trace w ++ trace401 n cooldown cooldown tok 0 request)) /\
  (forall fuel delayMs retries,
      OsuWrapper_part_006.makeRequest_loop (S fuel) cooldown this request
        delayMs retries w1 =
      match OsuWrapper_part_006.getAccessToken_loop fuel cooldown 0
              (mkWorld rest1 (random w1) (randomCalls w1)
                 (trace w1 ++ [Sleep API_URL delayMs; Fetch API_URL request])) with
      | (Returned token, w') =>
          OsuWrapper_part_006.makeRequest_loop fuel cooldown
            (OsuWrapper_part_006.mk token)
            (OsuWrapper_part_006.buildHeaders (OsuWrapper_part_006.mk token))
            delayMs retries w'
      | (Threw e, w') => (Threw e, this, w')
      | (Pending, w') => (Pending, this, w')
      end) /\
  OsuWrapper.makeRequest cooldown url request w1 =
    (Threw unhandled,
     mkWorld rest1 (random w1) (randomCalls w1)
       (trace w1 ++ [Sleep url cooldown; Fetch url request])).
Proof.
  intros Hp Hp1. split; [|split].
  - unfold OsuWrapper_part_006.makeRequest.
    apply makeRequest_loop_401s; [|exact Hp].
    rewrite Hp, length_script401. simpl. lia.
  - intros fuel delayMs retries. now apply makeRequest_loop_401 with (body := body1).
  - unfold OsuWrapper.makeRequest.
    destruct w1 as [p r rc tr]. simpl in Hp1. subst p.
    simpl. now rewrite <- app_assoc.
Qed.

Lemma makeRequest_401_witness :
  let tok := fun i : nat => match i with O => "t1" | _ => "t2" end in
  let this := OsuWrapper_part_006.mk "t0" in
  let request := OsuWrapper_part_006.buildHeaders this in
  let w := mkWorld (script401 3 tok 0 [Response 200 "body"]) (fun _ => 0) 0 [] in
  let w1 := mkWorld [Response 401 "body"] (fun _ => 0) 0 [] in
  fst (fst (OsuWrapper_part_006.makeRequest 1000 this request w)) =
    Returned (Some "body") /\
  fst (OsuWrapper.makeRequest 1000 API_URL request w1) = Threw unhandled.
Proof.
  intros tok this request w w1.
  destruct (makeRequest_401 1000 tok 3 "body" "body" [] [] this API_URL request
              w w1 eq_refl eq_refl) as (H & _ & H1).
  rewrite H, H1. split; reflexivity.
Defined.

(** ** Facts about the storage gateway *)

Section DatabaseFacts.

Import DatabaseManager.

Lemma MORMod_eqb_refl (k : MORMod.t) : MORMod.eqb k k = true.
Proof. unfold MORMod.eqb. now destruct (MORMod.eq_dec k k). Qed.

Lemma MORMod_eqb_neq (k k' : MORMod.t) : k <> k' -> MORMod.eqb k k' = false.
Proof. unfold MORMod.eqb. now destruct (MORMod.eq_dec k k'). Qed.

Lemma scores_setScores_same (db : t) (key : MORMod.t) (rows : list MORScore.t) :
  scores (setScores db key rows) key = rows.
Proof. simpl. now rewrite MORMod_eqb_refl. Qed.

Lemma scores_setScores_other (db : t) (key k : MORMod.t) (rows : list MORScore.t) :
  k <> key -> scores (setScores db key rows) k = scores db k.
Proof. intros H. simpl. now rewrite MORMod_eqb_neq. Qed.

Lemma scoreExistsInTable_existsb (db : t) (id : Z) (key : MORMod.t) :
  scoreExistsInTable db id key = existsb (hasID id) (scores db key).
Proof.
  unfold scoreExistsInTable. fold (hasID id).
  induction (scores db key) as [|r rows IH]; [reflexivity|].
  simpl. destruct (hasID id r); simpl; [|exact IH].
  destruct (List.length (filter (hasID id) rows)); reflexivity.
Qed.

Lemma filter_none {A : Type} (f : A -> bool) (l : list A) :
  existsb f l = false -> filter f l = [].
Proof.
  induction l as [|x l IH]; simpl; [reflexivity|].
  destruct (f x); simpl; [discriminate|exact IH].
Qed.

(** Under a primary key, at most one row has a given id. *)
Lemma filter_hasID_unique (id : Z) (rows : list MORScore.t) :
  NoDup (map MORScore.scoreID rows) ->
  existsb (hasID id) rows = true ->
  exists r, filter (hasID id) rows = [r] /\ In r rows.
Proof.
  induction rows as [|x rows IH]; simpl; [discriminate|].
  intros Hnd He. inversion Hnd as [|? ? Hx Hnd']; subst.
  unfold hasID at 1 2. destruct (Z.eqb_spec (MORScore.scoreID x) id) as [Hid|Hid].
  - exists x. split; [|now left]. f_equal. apply filter_none.
    apply Bool.not_true_is_false. intros E.
    apply existsb_exists in E. destruct E as (y & Hy & Hyid).
    unfold hasID in Hyid. apply Z.eqb_eq in Hyid.
    exfalso. apply Hx. rewrite Hid, <- Hyid. now apply in_map.
  - assert (hasID id x = false) as Hx' by now apply Z.eqb_neq.
    rewrite Hx' in He. simpl in He.
    destruct (IH Hnd' He) as (r & Hr & Hin).
    exists r. split; [exact Hr|now right].
Qed.

Lemma unique_message_includes (key : MORMod.t) :
  str_includes ("SQLITE_CONSTRAINT: UNIQUE constraint failed: "
                  ++ MORMod.toString key ++ ".scoreID") "UNIQUE" = true.
Proof. reflexivity. Qed.

(** [insertScore] of a row whose id the table holds changes nothing and
    resolves. *)
Lemma insertScore_existing (db : t) (score : MORScore.t) (key : MORMod.t) :
  Common.convertOsuMods (Common.modStringToArray (MORScore.mods score)) = Ok key ->
  scoreCheck score = None ->
  existsb (hasID (MORScore.scoreID score)) (scores db key) = true ->
  insertScore db score = (db, Ok tt).
Proof.
  intros Hk Hc He. unfold insertScore, runInsertScore.
  rewrite Hk, Hc. fold (hasID (MORScore.scoreID score)). rewrite He.
  now rewrite unique_message_includes.
Qed.

(** [insertScore] of a row whose id the table lacks appends it. *)
Lemma insertScore_fresh (db : t) (score : MORScore.t) (key : MORMod.t) :
  Common.convertOsuMods (Common.modStringToArray (MORScore.mods score)) = Ok key ->
  scoreCheck score = None ->
  existsb (hasID (MORScore.scoreID score)) (scores db key) = false ->
  insertScore db score =
    (setScores db key (scores db key ++ [score])%list, Ok tt).
Proof.
  intros Hk Hc He. unfold insertScore, runInsertScore.
  rewrite Hk, Hc. fold (hasID (MORScore.scoreID score)). now rewrite He.
Qed.

End DatabaseFacts.

(** C8: for a score whose modifier string names a table and that meets the
    table's CHECK constraints, in a table whose ids are unique:
    [insertScore] of a score whose id the table already holds resolves and
    leaves the database as it is; inserting the same score twice resolves
    both times, the second insert changing nothing; afterwards the table
    holds exactly one row with that id, and when the id was new that row is
    the inserted score, appended to the table, every other table and USERS
    being untouched. *)
Theorem insertScore_idempotent (db : DatabaseManager.t) (score : MORScore.t)
    (key : MORMod.t) :
  Common.convertOsuMods (Common.modStringToArray (MORScore.mods score)) = Ok key ->
  DatabaseManager.scoreCheck score = None ->
  NoDup (map MORScore.scoreID (DatabaseManager.scores db key)) ->
  (DatabaseManager.scoreExistsInTable db (MORScore.scoreID score) key = true ->
   DatabaseManager.insertScore db score = (db, Ok tt)) /\
  exists db1,
    DatabaseManager.insertScore db score = (db1, Ok tt) /\
    DatabaseManager.insertScore db1 score = (db1, Ok tt) /\
    (exists r,
        filter (hasID (MORScore.scoreID score))
               (DatabaseManager.getTableScores db1 key) = [r] /\
        (DatabaseManager.scoreExistsInTable db (MORScore.scoreID score) key = false ->
         r = score /\
         DatabaseManager.getTableScores db1 key =
           (DatabaseManager.getTableScores db key ++ [score])%list)) /\
    NoDup (map MORScore.scoreID (DatabaseManager.scores db1 key)) /\
    (forall k, k <> key ->
               DatabaseManager.scores db1 k = DatabaseManager.scores db k) /\
    DatabaseManager.USERS db1 = DatabaseManager.USERS db.
Proof.
  intros Hk Hc Hnd.
  rewrite scoreExistsInTable_existsb.
  split; [now apply insertScore_existing|].
  destruct (existsb (hasID (MORScore.scoreID score)) (DatabaseManager.scores db key))
    eqn:He.
  - exists db. rewrite (insertScore_existing db score key Hk Hc He).
    repeat split; auto.
    destruct (filter_hasID_unique _ _ Hnd He) as (r & Hr & _).
    exists r. split; [exact Hr|discriminate].
  - set (db1 := DatabaseManager.setScores db key
                  (DatabaseManager.scores db key ++ [score])%list).
    assert (DatabaseManager.scores db1 key =
              (DatabaseManager.scores db key ++ [score])%list) as Hrows
      by apply scores_setScores_same.
    assert (filter (hasID (MORScore.scoreID score)) (DatabaseManager.scores db1 key)
              = [score]) as Hf.
    { rewrite Hrows, filter_app, (filter_none _ _ He). simpl.
      unfold hasID. now rewrite Z.eqb_refl. }
    exists db1. rewrite (insertScore_fresh db score key Hk Hc He).
    repeat split.
    + apply (insertScore_existing db1 score key Hk Hc).
      rewrite Hrows, existsb_app. simpl. unfold hasID at 2.
      rewrite Z.eqb_refl. apply Bool.orb_true_iff. right. reflexivity.
    + exists score. split; [exact Hf|]. intros _. split; [reflexivity|exact Hrows].
    + rewrite Hrows, map_app. simpl.
      apply NoDup_app_remove_l with (l := []). simpl.
      apply Permutation_NoDup with (l := MORScore.scoreID score ::
                                          map MORScore.scoreID (DatabaseManager.scores db key)).
      * apply Permutation_cons_append.
      * constructor; [|exact Hnd].
        intros Hin. apply in_map_iff in Hin. destruct Hin as (y & Hy & Hiny).
        assert (existsb (hasID (MORScore.scoreID score))
                        (DatabaseManager.scores db key) = true) as E; [|congruence].
        apply existsb_exists. exists y. split; [exact Hiny|].
        unfold hasID. now apply Z.eqb_eq.
    + intros k Hne. now apply scores_setScores_other.
Qed.

Lemma insertScore_idempotent_witness :
  let score := MORScore.mk 1 2 3 "user" "artist - title [diff]" "HDNC"
                 100 (99 # 100) 5 "2024-05-16T00:00:00Z" "cover" in
  let db := DatabaseManager.mk [] (fun _ => []) in
  Common.convertOsuMods (Common.modStringToArray (MORScore.mods score)) =
    Ok MORMod.HDDT /\
  DatabaseManager.scoreCheck score = None /\
  NoDup (map MORScore.scoreID (DatabaseManager.scores db MORMod.HDDT)) /\
  exists db1,
    DatabaseManager.insertScore db score = (db1, Ok tt) /\
    DatabaseManager.insertScore db1 score = (db1, Ok tt) /\
    DatabaseManager.getTableScores db1 MORMod.HDDT = [score].
Proof.
  intros score db.
  assert (NoDup (map MORScore.scoreID (DatabaseManager.scores db MORMod.HDDT)))
    as Hnd by constructor.
  split; [reflexivity|]. split; [reflexivity|]. split; [exact Hnd|].
  destruct (insertScore_idempotent db score MORMod.HDDT eq_refl eq_refl Hnd)
    as [_ (db1 & H1 & H2 & (r & _ & Hr) & _)].
  exists db1. split; [exact H1|]. split; [exact H2|].
  now destruct (Hr eq_refl) as [_ ->].
Defined.

Section RemoveFacts.

Import DatabaseManager.

Lemma filter_idem {A : Type} (f : A -> bool) (l : list A) :
  filter f (filter f l) = filter f l.
Proof.
  induction l as [|x l IH]; simpl; [reflexivity|].
  destruct (f x) eqn:E; simpl; [rewrite E; f_equal|]; exact IH.
Qed.

(** The loop of [removeUserScores] over a list of keys. *)
Lemma removeUserScores_fold (userID : Z) (keys : list MORMod.t) (db : t) :
  let keep r := negb (MORScore.userID r =? userID)%Z in
  let step d key := setScores d key (filter keep (scores d key)) in
  USERS (fold_left step keys db) = USERS db /\
  forall k,
    scores (fold_left step keys db) k =
      if existsb (MORMod.eqb k) keys then filter keep (scores db k)
      else scores db k.
Proof.
  intros keep step. revert db.
  induction keys as [|key keys IH]; intros db; simpl; [now split|].
  destruct (IH (step db key)) as [HU HS]. split; [exact HU|].
  intros k. rewrite HS.
  assert (scores (step db key) k =
            if MORMod.eqb k key then filter keep (scores db k) else scores db k)
    as ->.
  { unfold step, setScores. simpl. unfold MORMod.eqb.
    now destruct (MORMod.eq_dec k key) as [->|Hne]. }
  destruct (MORMod.eqb k key); simpl.
  - rewrite filter_idem. now destruct (existsb (MORMod.eqb k) keys).
  - reflexivity.
Qed.

Lemma removeUserScores_spec (db : t) (userID : Z) :
  USERS (removeUserScores db userID) = USERS db /\
  forall k,
    scores (removeUserScores db userID) k =
      filter (fun r => negb (MORScore.userID r =? userID)%Z) (scores db k).
Proof.
  destruct (removeUserScores_fold userID MORMod.keys db) as [HU HS].
  split; [exact HU|]. intros k. unfold removeUserScores. rewrite HS.
  assert (existsb (MORMod.eqb k) MORMod.keys = true) as ->; [|reflexivity].
  apply existsb_exists. exists k.
  split; [apply MORMod_keys_complete|apply MORMod_eqb_refl].
Qed.

End RemoveFacts.

(** C9, as stated, fails in its count: the database has 36 score tables,
    one per key of [enum MORMod], not 35. *)
Lemma numMORMods_not_35 : DatabaseManager.numMORMods <> 35%Z.
Proof. vm_compute. discriminate. Qed.

(** C9, amended: [removeUser] deletes from USERS the rows with the given
    userID and no other row, keeping the order of the rest, and leaves
    each of the 36 score tables as it is; [removeUserScores] deletes the
    rows of that userID from every score table and leaves USERS as it is;
    [removeUserCmd] finds the user by name, calls [removeUser], and calls
    [removeUserScores] only when remove_scores is set, so that without it
    every score table is unchanged. *)
Theorem removeUser_frame (db : DatabaseManager.t) (userID : Z)
    (username : string) (removeScores : bool) :
  DatabaseManager.numMORMods = 36%Z /\
  (DatabaseManager.USERS (DatabaseManager.removeUser db userID) =
     filter (fun u => negb (MORUser.userID u =? userID)%Z) (DatabaseManager.USERS db) /\
   (forall u, In u (DatabaseManager.USERS (DatabaseManager.removeUser db userID)) <->
              In u (DatabaseManager.USERS db) /\ MORUser.userID u <> userID) /\
   forall k, DatabaseManager.scores (DatabaseManager.removeUser db userID) k =
             DatabaseManager.scores db k) /\
  (DatabaseManager.USERS (DatabaseManager.removeUserScores db userID) =
     DatabaseManager.USERS db /\
   forall k, DatabaseManager.scores (DatabaseManager.removeUserScores db userID) k =
             filter (fun r => negb (MORScore.userID r =? userID)%Z)
                    (DatabaseManager.scores db k)) /\
  match Bot.removeUserCmd db username removeScores with
  | (db', Bot.CouldNotFindUser _) => db' = db
  | (db', Bot.UserRemoved dbUser) =>
      In dbUser (DatabaseManager.USERS db) /\
      DatabaseManager.USERS db' =
        filter (fun u => negb (MORUser.userID u =? MORUser.userID dbUser)%Z)
               (DatabaseManager.USERS db) /\
      forall k,
        DatabaseManager.scores db' k =
          if removeScores
          then filter (fun r => negb (MORScore.userID r =? MORUser.userID dbUser)%Z)
                      (DatabaseManager.scores db k)
          else DatabaseManager.scores db k
  end.
Proof.
  split; [reflexivity|]. split; [|split].
  - split; [reflexivity|]. split; [|reflexivity].
    intros u. simpl. rewrite filter_In, Bool.negb_true_iff, Z.eqb_neq. tauto.
  - apply removeUserScores_spec.
  - unfold Bot.removeUserCmd.
    destruct (find _ (DatabaseManager.getUsers db)) as [dbUser|] eqn:Hfind;
      [|reflexivity].
    apply find_some in Hfind. destruct Hfind as [Hin _].
    split; [exact Hin|].
    destruct removeScores.
    + destruct (removeUserScores_spec
                  (DatabaseManager.removeUser db (MORUser.userID dbUser))
                  (MORUser.userID dbUser)) as [HU HS].
      split; [now rewrite HU|]. intros k. now rewrite HS.
    + split; reflexivity.
Qed.


(** ** Facts about the database updater *)

Section DedupFacts.

Import DatabaseManager DatabaseUpdater.

Variable osu : OsuApi.t.
Hypothesis lookup_answers : forall id, exists o, OsuApi.getScore osu id = Ok o.

Lemma filter_filter {A : Type} (f g : A -> bool) (l : list A) :
  filter f (filter g l) = filter (fun x => g x && f x) l.
Proof.
  induction l as [|x l IH]; simpl; [reflexivity|].
  destruct (g x); simpl; [destruct (f x); simpl; now rewrite IH|exact IH].
Qed.

Lemma getDuplicateScores_duplicatesOf (db : DatabaseManager.t) (key : MORMod.t) :
  getDuplicateScores db key = duplicatesOf (scores db key).
Proof. reflexivity. Qed.


Lemma removeScore_scores (db : DatabaseManager.t) (id : Z) (key k : MORMod.t) :
  scores (removeScore db id key) k =
    if MORMod.eqb k key
    then filter (fun r => negb (MORScore.scoreID r =? id)%Z) (scores db key)
    else scores db k.
Proof. reflexivity. Qed.








End DedupFacts.




(** *** getNewScores *)

(** A modifier list that does not canonicalise to a key makes
    [convertOsuMods] throw a [TypeError], and nothing else. *)
Lemma convertOsuMods_throws_TypeError (mods : list string) (e : Error) :
  Common.convertOsuMods mods = Throw e -> isTypeError e = true.
Proof.
  unfold Common.convertOsuMods, Common.stringToMORMod.
  destruct (find _ MORMod.keys); [discriminate|].
  intros H. injection H as <-. reflexivity.
Qed.

(** On such a score the loop body logs its warning and returns from
    [getNewScores]: the scores after it, of this user and of the users
    after, are not looked at. *)
Lemma getNewScores_score_returns (osu : OsuApi.t) (st : DatabaseUpdater.t)
    (userScore : OsuScore.t) (rest : list OsuScore.t) (e : Error) :
  Common.convertOsuMods (OsuScore.mods userScore) = Throw e ->
  DatabaseUpdater.forOf (DatabaseUpdater.getNewScores_score osu)
    (userScore :: rest) st =
  DatabaseUpdater.Return
    (DatabaseUpdater.logged st
       (DatabaseUpdater.WarnNoMORMod (OsuScore.id userScore)
                                     (OsuScore.mods userScore))).
Proof.
  intros H. simpl. unfold DatabaseUpdater.getNewScores_score.
  rewrite H, (convertOsuMods_throws_TypeError _ _ H). reflexivity.
Qed.

(** C2, the code at the failing input.  Users 1 and 2 are tracked; user 1's
    best scores are 9 (HD), 10 (RX, which has no key) and 11 (HD), user 2's
    best score is 12 (no mods).  [getNewScores] inserts 9, warns about 10
    and returns: 11 and 12 are not inserted. *)
Theorem getNewScores_stops_at_unknown_mods :
  let score id uid mods :=
    OsuScore.mk id uid "user" 3 "diff" 5 "artist" "title" "cover" mods 100 99
      "2024-01-01T00:00:00Z" in
  let osu :=
    OsuApi.mk (fun _ => Ok (Some [])) (fun _ => Ok None)
      (fun uid type =>
         match type with
         | BEST => if (uid =? 1)%Z
                   then Ok (Some [score 9%Z 1%Z ["HD"]; score 10%Z 1%Z ["RX"];
                                  score 11%Z 1%Z ["HD"]])
                   else Ok (Some [score 12%Z 2%Z []])
         | _ => Ok (Some [])
         end)
      (fun _ _ => Ok (Some 5)) in
  let user id :=
    MORUser.mk id "user" "CA" (Some 1%Z) 100 99 0 0 0 0 0 "avatar" 0 0 0 true in
  let db := DatabaseManager.mk [user 1%Z; user 2%Z] (fun _ => []) in
  Common.convertOsuMods ["RX"] =
    Throw (TypeError "stringToMORMod - RX has no associated MORMod!") /\
  let (st', result) := DatabaseUpdater.getNewScores osu (DatabaseUpdater.mk db []) in
  result = Ok tt /\
  map MORScore.scoreID (DatabaseManager.scores (DatabaseUpdater.dbm st') MORMod.HD)
    = [9%Z] /\
  DatabaseManager.scores (DatabaseUpdater.dbm st') MORMod.NM = [] /\
  DatabaseManager.getNumScores (DatabaseUpdater.dbm st') = 1%Z /\
  DatabaseUpdater.log st' = [DatabaseUpdater.WarnNoMORMod 10 ["RX"]].
Proof. vm_compute. repeat split; reflexivity. Qed.


(** *** updateUsers *)

Section RankFacts.

Import DatabaseManager DatabaseUpdater.

Lemma Qsign_le (q : Q) : (Qsign q <= 0)%Z <-> q <= 0.
Proof.
  unfold Qsign, Qle. simpl. rewrite Z.mul_1_r.
  destruct (Qnum q); simpl; lia.
Qed.

Lemma ppCompare_le (a b : MORScore.t) :
  (ppCompare a b <= 0)%Z <-> MORScore.pp b <= MORScore.pp a.
Proof. unfold ppCompare. rewrite Qsign_le. split; intros H; lra. Qed.

(** The counting loop over the first three rows of a sorted table. *)
Lemma countTable_top3 (id : Z) (sorted : list MORScore.t) (a b c : Z) :
  let place i := indicator (holds id (option_map MORScore.userID (nth_error sorted i))) in
  countTable id (slice0 3 sorted) 0 (a, b, c) =
    Ok ((a + place 0%nat)%Z, (b + place 1%nat)%Z, (c + place 2%nat)%Z).
Proof.
  unfold slice0.
  destruct sorted as [|x [|y [|z rest]]]; cbn [firstn countTable nth_error option_map holds indicator];
    repeat match goal with
           | |- context [(MORScore.userID ?r =? id)%Z] =>
               destruct (MORScore.userID r =? id)%Z; cbn [negb indicator]
           end;
    repeat f_equal; lia.
Qed.

Lemma countTops_keys (db : DatabaseManager.t) (id : Z) :
  forall (keys : list MORMod.t) (a b c : Z),
    countTops id
      (map (fun key => (key, slice0 3 (JS.sort ppCompare (getTableScores db key))))
           keys)
      (a, b, c) =
    Ok ((a + countIn db id 0 keys)%Z, (b + countIn db id 1 keys)%Z,
        (c + countIn db id 2 keys)%Z).
Proof.
  induction keys as [|key keys IH]; intros a b c.
  - unfold countIn. simpl. repeat f_equal; lia.
  - cbn [map countTops]. rewrite countTable_top3. cbv zeta. rewrite IH.
    unfold countIn, getTableScores. cbn [filter].
    fold (rankHolder db key 0) (rankHolder db key 1) (rankHolder db key 2).
    destruct (holds id (rankHolder db key 0)), (holds id (rankHolder db key 1)),
      (holds id (rankHolder db key 2)); cbn [indicator List.length];
      (f_equal; f_equal; [f_equal|]; lia).
Qed.

(** The counters [updateUsers] computes for a user. *)
Lemma countTops_countRank (db : DatabaseManager.t) (id : Z) :
  countTops id (modsToScores db) (0, 0, 0)%Z =
    Ok (countRank db id 0, countRank db id 1, countRank db id 2).
Proof.
  unfold modsToScores. rewrite countTops_keys.
  unfold countRank. rewrite !Z.add_0_l. reflexivity.
Qed.

Lemma countIn_range (db : DatabaseManager.t) (id : Z) (i : nat)
    (keys : list MORMod.t) :
  (0 <= countIn db id i keys <= Z.of_nat (List.length keys))%Z.
Proof.
  unfold countIn. split; [lia|]. apply Nat2Z.inj_le.
  induction keys as [|k keys IH]; simpl; [lia|].
  destruct (holds id (rankHolder db k i)); simpl; lia.
Qed.

Lemma countRank_range (db : DatabaseManager.t) (id : Z) (i : nat) :
  (0 <= countRank db id i <= numMORMods)%Z.
Proof. apply countIn_range. Qed.

(** Three rows with distinct pp sort into descending order, whatever
    the order they are stored in. *)
Lemma sort_three (rA rB rC : MORScore.t) (table : list MORScore.t) :
  MORScore.pp rC < MORScore.pp rB -> MORScore.pp rB < MORScore.pp rA ->
  Permutation [rA; rB; rC] table ->
  JS.sort ppCompare table = [rA; rB; rC].
Proof.
  intros HCB HBA Hp.
  assert (forall a b, MORScore.pp b < MORScore.pp a ->
                      (ppCompare a b <=? 0)%Z = true /\ (ppCompare b a <=? 0)%Z = false)
    as Hcmp.
  { intros a b Hlt. split.
    - apply Z.leb_le, ppCompare_le. lra.
    - apply Z.leb_gt. destruct (Z.le_gt_cases (ppCompare b a) 0) as [H|H]; [|lia].
      apply ppCompare_le in H. lra. }
  destruct (Hcmp rA rB HBA) as [HAB1 HAB2].
  destruct (Hcmp rB rC HCB) as [HBC1 HBC2].
  destruct (Hcmp rA rC ltac:(lra)) as [HAC1 HAC2].
  assert (table = [rA; rB; rC] \/ table = [rA; rC; rB] \/ table = [rB; rA; rC] \/
          table = [rB; rC; rA] \/ table = [rC; rA; rB] \/ table = [rC; rB; rA])
    as Hcases.
  { pose proof (Permutation_length Hp) as Hlen.
    destruct table as [|x [|y [|z [|w table]]]]; try discriminate Hlen.
    assert (forall u v s t : MORScore.t,
              Permutation [u; v] [s; t] -> (u = s /\ v = t) \/ (u = t /\ v = s))
      as H2 by (intros u v s t H; apply Permutation_length_2 in H; tauto).
    assert (In rA [x; y; z]) as HA by (apply (Permutation_in _ Hp); now left).
    destruct HA as [<-|[<-|[<-|[]]]].
    - apply Permutation_cons_inv in Hp. apply H2 in Hp.
      destruct Hp as [[<- <-]|[<- <-]]; tauto.
    - apply (Permutation_cons_app_inv [x] [z]) in Hp. apply H2 in Hp.
      destruct Hp as [[<- <-]|[<- <-]]; tauto.
    - apply (Permutation_cons_app_inv [x; y] []) in Hp. apply H2 in Hp.
      destruct Hp as [[<- <-]|[<- <-]]; tauto. }
  destruct Hcases as [-> | [-> | [-> | [-> | [-> | ->]]]]]; cbn [JS.sort JS.insert];
    repeat first [rewrite HAB1 | rewrite HAB2 | rewrite HBC1 | rewrite HBC2
                 | rewrite HAC1 | rewrite HAC2 | progress cbn [JS.insert]];
    reflexivity.
Qed.

Lemma userCheck_updatedUser (db : DatabaseManager.t) (osuUser : OsuUser.t)
    (dbUser : MORUser.t) (id : Z) :
  0 <= OsuUser.pp osuUser -> 0 <= OsuUser.hit_accuracy osuUser ->
  userCheck (updatedUser osuUser dbUser
               (countRank db id 0, countRank db id 1, countRank db id 2)) = None.
Proof.
  intros Hpp Hacc. unfold userCheck, updatedUser.
  cbn [MORUser.pp MORUser.accuracy MORUser.top1s MORUser.top2s MORUser.top3s].
  apply Qle_bool_iff in Hpp. apply Qle_bool_iff in Hacc. rewrite Hpp, Hacc.
  pose proof (countRank_range db id 0) as [H0 H0'].
  pose proof (countRank_range db id 1) as [H1 H1'].
  pose proof (countRank_range db id 2) as [H2 H2'].
  apply Z.leb_le in H0, H0', H1, H1', H2, H2'.
  now rewrite H0, H0', H1, H1', H2, H2'.
Qed.

Lemma uniqueUsers_eq (rows : list MORUser.t) (a b : MORUser.t) :
  uniqueUsers rows -> In a rows -> In b rows ->
  MORUser.userID a = MORUser.userID b -> a = b.
Proof.
  unfold uniqueUsers. induction rows as [|x rows IH]; simpl; [tauto|].
  intros Hnd Ha Hb Hid. inversion Hnd as [|? ? Hx Hnd']; subst.
  destruct Ha as [->|Ha], Hb as [->|Hb]; auto.
  - exfalso. apply Hx. rewrite Hid. now apply in_map.
  - exfalso. apply Hx. rewrite <- Hid. now apply in_map.
Qed.

Lemma find_userID (rows : list MORUser.t) (r : MORUser.t) :
  uniqueUsers rows -> In r rows ->
  find (fun x => (MORUser.userID x =? MORUser.userID r)%Z) rows = Some r.
Proof.
  intros Hu Hin.
  destruct (find (fun x => (MORUser.userID x =? MORUser.userID r)%Z) rows)
    as [r'|] eqn:Hf.
  - apply find_some in Hf. destruct Hf as [Hin' Hid]. apply Z.eqb_eq in Hid.
    f_equal. now apply (uniqueUsers_eq rows).
  - exfalso. apply (find_none _ _ Hf) in Hin. now rewrite Z.eqb_refl in Hin.
Qed.

Section Refresh.

Variable osu : OsuApi.t.
Variable db : DatabaseManager.t.
Variable payload : Z -> OsuUser.t.
Variable available : Z -> bool.

Hypothesis users_unique : uniqueUsers (USERS db).
Hypothesis payload_ok :
  forall id, OsuUser.id (payload id) = id /\
             0 <= OsuUser.pp (payload id) /\
             0 <= OsuUser.hit_accuracy (payload id).

(** The stored rows once the users [done] holds of have been refreshed. *)
Let partly (done : Z -> bool) : list MORUser.t :=
  map (fun r => if done (MORUser.userID r) then refreshed db payload r else r)
      (USERS db).

Lemma refreshed_userID (r : MORUser.t) :
  MORUser.userID (refreshed db payload r) = MORUser.userID r.
Proof. unfold refreshed, updatedUser. simpl. apply payload_ok. Qed.

(** One pass of the loop over a chunk of the API's answer. *)
Lemma updateUsers_user_refresh (st : DatabaseUpdater.t) (done : Z -> bool) (x : Z) :
  In x (map MORUser.userID (USERS db)) ->
  USERS (dbm st) = partly done ->
  exists st',
    updateUsers_user (USERS db) (modsToScores db) st (payload x) = Next st' /\
    log st' = log st /\
    scores (dbm st') = scores (dbm st) /\
    USERS (dbm st') = partly (fun id => (id =? x)%Z || done id).
Proof.
  intros Hx HU. apply in_map_iff in Hx. destruct Hx as (r0 & Hid0 & Hin0).
  destruct (payload_ok x) as (Hpid & Hpp & Hacc).
  unfold updateUsers_user. rewrite Hpid, <- Hid0.
  rewrite (find_userID _ _ users_unique Hin0), countTops_countRank.
  fold (refreshed db payload r0).
  assert (userCheck (refreshed db payload r0) = None) as Hcheck.
  { unfold refreshed. apply userCheck_updatedUser; rewrite Hid0; assumption. }
  unfold updateUser. rewrite Hcheck, refreshed_userID, HU.
  assert (existsb (fun r => (MORUser.userID r =? MORUser.userID r0)%Z)
                  (partly done) = true) as ->.
  { apply existsb_exists. exists (if done (MORUser.userID r0)
                                   then refreshed db payload r0 else r0).
    split.
    - unfold partly. apply in_map_iff. now exists r0.
    - destruct (done (MORUser.userID r0));
        [rewrite refreshed_userID|]; apply Z.eqb_refl. }
  eexists. split; [reflexivity|]. cbn [withDb dbm log setUsers USERS scores].
  split; [reflexivity|]. split; [reflexivity|].
  unfold partly. rewrite map_map. apply map_ext_in. intros r Hr.
  assert (MORUser.userID (if done (MORUser.userID r)
                          then refreshed db payload r else r) = MORUser.userID r)
    as -> by (destruct (done (MORUser.userID r)); [apply refreshed_userID|reflexivity]).
  rewrite Hid0.
  destruct (Z.eqb_spec (MORUser.userID r) x) as [Heq|Hne]; simpl; [|reflexivity].
  f_equal. apply (uniqueUsers_eq (USERS db)); auto. congruence.
Qed.

(** The loop over one chunk, answered with the payloads of [xs]. *)
Lemma updateUsers_chunk_refresh :
  forall (xs : list Z) (st : DatabaseUpdater.t) (done : Z -> bool),
    (forall x, In x xs -> In x (map MORUser.userID (USERS db))) ->
    USERS (dbm st) = partly done ->
    exists st',
      forOf (updateUsers_user (USERS db) (modsToScores db)) (map payload xs) st
        = Next st' /\
      log st' = log st /\
      scores (dbm st') = scores (dbm st) /\
      USERS (dbm st') = partly (fun id => existsb (Z.eqb id) xs || done id).
Proof.
  induction xs as [|x xs IH]; intros st done Hxs HU.
  - exists st. simpl. auto.
  - cbn [map forOf].
    destruct (updateUsers_user_refresh st done x (Hxs x (or_introl eq_refl)) HU)
      as (st1 & -> & Hl1 & Hs1 & HU1).
    destruct (IH st1 _ (fun y Hy => Hxs y (or_intror Hy)) HU1)
      as (st' & Hf & Hl & Hs & HU').
    exists st'. split; [exact Hf|]. split; [congruence|]. split; [congruence|].
    rewrite HU'. unfold partly. apply map_ext. intros r. cbn [existsb].
    destruct (MORUser.userID r =? x)%Z,
      (existsb (Z.eqb (MORUser.userID r)) xs), (done (MORUser.userID r));
      reflexivity.
Qed.

Hypothesis api_answers :
  forall ids, OsuApi.getUsers osu ids = Ok (Some (map payload (filter available ids))).

Lemma existsb_filter_eqb (f : Z -> bool) (x : Z) (l : list Z) :
  existsb (Z.eqb x) (filter f l) = f x && existsb (Z.eqb x) l.
Proof.
  induction l as [|a l IH]; simpl; [now rewrite Bool.andb_false_r|].
  destruct (f a) eqn:Ha; simpl; rewrite IH;
    destruct (Z.eqb_spec x a) as [E|E]; simpl; try reflexivity;
    subst; rewrite Ha; reflexivity.
Qed.

Lemma chunk_In {A : Type} (i n : nat) (l : list A) (x : A) :
  In x (firstn n (skipn i l)) -> In x l.
Proof.
  intros H. rewrite <- (firstn_skipn i l). apply in_or_app. right.
  rewrite <- (firstn_skipn n (skipn i l)). apply in_or_app. now left.
Qed.

Lemma firstn_plus {A : Type} (i n : nat) (l : list A) :
  firstn (i + n) l = (firstn i l ++ firstn n (skipn i l))%list.
Proof.
  revert l. induction i as [|i IH]; intros l; [reflexivity|].
  destruct l as [|x l]; simpl; [now rewrite firstn_nil|]. now rewrite IH.
Qed.

(** The loop over the chunks, entered at [i] with the users before [i]
    refreshed. *)
Lemma updateUsers_chunks_refresh :
  forall (fuel i : nat) (st : DatabaseUpdater.t),
    (List.length (USERS db) <= i + fuel)%nat ->
    USERS (dbm st) =
      partly (fun id => available id &&
                        existsb (Z.eqb id) (firstn i (map MORUser.userID (USERS db)))) ->
    exists st',
      updateUsers_chunks fuel osu (USERS db) (modsToScores db) i st = Next st' /\
      log st' = log st /\
      scores (dbm st') = scores (dbm st) /\
      USERS (dbm st') =
        map (fun r => if available (MORUser.userID r)
                      then refreshed db payload r else r) (USERS db).
Proof.
  assert (forall i st,
            (List.length (USERS db) <= i)%nat ->
            USERS (dbm st) =
              partly (fun id => available id &&
                                existsb (Z.eqb id)
                                  (firstn i (map MORUser.userID (USERS db)))) ->
            USERS (dbm st) =
              map (fun r => if available (MORUser.userID r)
                            then refreshed db payload r else r) (USERS db)) as Hdone.
  { intros i st Hi HU. rewrite HU. unfold partly. apply map_ext_in. intros r Hr.
    rewrite firstn_all2 by (rewrite length_map; lia).
    assert (existsb (Z.eqb (MORUser.userID r)) (map MORUser.userID (USERS db)) = true)
      as ->.
    { apply existsb_exists. exists (MORUser.userID r).
      split; [now apply in_map|apply Z.eqb_refl]. }
    now rewrite Bool.andb_true_r. }
  induction fuel as [|fuel IH]; intros i st Hlen HU.
  - exists st. simpl. repeat split; auto. apply (Hdone i); [lia|exact HU].
  - cbn [updateUsers_chunks].
    destruct (Nat.ltb_spec i (List.length (USERS db))) as [Hlt|Hge].
    + rewrite api_answers.
      set (chunk := firstn 50 (skipn i (map MORUser.userID (USERS db)))).
      destruct (updateUsers_chunk_refresh (filter available chunk) st _
                  ltac:(intros x Hx; apply filter_In in Hx; destruct Hx as [Hx _];
                        now apply (chunk_In i 50)) HU)
        as (st1 & -> & Hl1 & Hs1 & HU1).
      destruct (IH (i + 50)%nat st1 ltac:(lia)) as (st' & Hf & Hl & Hs & HU').
      * rewrite HU1. unfold partly. apply map_ext. intros r.
        rewrite firstn_plus, existsb_app. fold chunk.
        rewrite existsb_filter_eqb.
        destruct (available (MORUser.userID r)),
          (existsb (Z.eqb (MORUser.userID r)) chunk),
          (existsb (Z.eqb (MORUser.userID r))
             (firstn i (map MORUser.userID (USERS db)))); reflexivity.
      * exists st'. split; [exact Hf|]. split; [congruence|].
        split; [congruence|exact HU'].
    + exists st. repeat split; auto. apply (Hdone i); [lia|exact HU].
Qed.

(** The whole procedure. *)
Lemma updateUsers_refresh (st : DatabaseUpdater.t) :
  dbm st = db ->
  exists st',
    updateUsers osu st = (st', Ok tt) /\
    log st' = log st /\
    scores (dbm st') = scores db /\
    USERS (dbm st') =
      map (fun r => if available (MORUser.userID r)
                    then refreshed db payload r else r) (USERS db).
Proof.
  intros Hdb. unfold updateUsers, DatabaseManager.getUsers. rewrite Hdb.
  destruct (updateUsers_chunks_refresh (List.length (USERS db)) 0 st ltac:(lia))
    as (st' & Hf & Hl & Hs & HU).
  - rewrite Hdb. unfold partly. simpl. rewrite <- (map_id (USERS db)) at 1.
    apply map_ext. intros r. now rewrite Bool.andb_false_r.
  - exists st'. rewrite Hf. simpl.
    repeat split; auto. now rewrite Hs, Hdb.
Qed.

End Refresh.

End RankFacts.

(** C7, as stated, fails in its count: the counters are recounted over
    36 partitions, not 35.  A user whose score leads every table is left
    with top1s = 36. *)
Lemma updateUsers_counts_36_tables :
  let row key := MORScore.mk 1 7 3 "user" "artist - title [diff]"
                   (MORMod.toString key) 100 99 5 "2024-01-01T00:00:00Z" "cover" in
  let user := MORUser.mk 7 "user" "CA" (Some 1%Z) 100 99 0 0 0 0 0 "avatar" 0 0 0 true in
  let payload := OsuUser.mk 7 "user" "CA" (Some 1%Z) 100 99 0 0 0 0 0 "avatar" in
  let osu := OsuApi.mk (fun _ => Ok (Some [payload])) (fun _ => Ok None)
               (fun _ _ => Ok (Some [])) (fun _ _ => Ok (Some 5)) in
  let st := DatabaseUpdater.mk (DatabaseManager.mk [user] (fun key => [row key])) [] in
  let (st', result) := DatabaseUpdater.updateUsers osu st in
  result = Ok tt /\
  map MORUser.top1s (DatabaseManager.USERS (DatabaseUpdater.dbm st')) = [36%Z] /\
  (35 < 36)%Z.
Proof. vm_compute. repeat split; reflexivity. Qed.

(** C7, amended.  For stored users with unique ids and an API that answers
    each chunk with the payloads of those of the requested ids it has
    ([available]), [updateUsers] returns and replaces the row of each such
    user by the API's fields, the autotrack flag of the stored row, and
    counters recounted as follows: for each of the 36 partitions the rows
    are sorted by pp descending and cut to the first three, and top1s,
    top2s, top3s count the partitions in which a score of the user holds
    the first, second, third place; the score tables are untouched.  For
    three records with pp 300/250/200 by users A/B/C in one partition, in
    any stored order, that partition adds one to A's top1s, one to B's
    top2s, one to C's top3s, and nothing else. *)
Theorem updateUsers_recount (osu : OsuApi.t) (st : DatabaseUpdater.t)
    (payload : Z -> OsuUser.t) (available : Z -> bool)
    (rA rB rC : MORScore.t) (table : list MORScore.t) (u : Z) :
  let db := DatabaseUpdater.dbm st in
  uniqueUsers (DatabaseManager.USERS db) ->
  (forall id, OsuUser.id (payload id) = id /\
              0 <= OsuUser.pp (payload id) /\
              0 <= OsuUser.hit_accuracy (payload id)) ->
  (forall ids,
      OsuApi.getUsers osu ids = Ok (Some (map payload (filter available ids)))) ->
  MORScore.pp rA == 300 -> MORScore.pp rB == 250 -> MORScore.pp rC == 200 ->
  Permutation [rA; rB; rC] table ->
  (exists st',
      DatabaseUpdater.updateUsers osu st = (st', Ok tt) /\
      DatabaseManager.scores (DatabaseUpdater.dbm st') = DatabaseManager.scores db /\
      DatabaseManager.USERS (DatabaseUpdater.dbm st') =
        map (fun r => if available (MORUser.userID r)
                      then refreshed db payload r else r)
            (DatabaseManager.USERS db)) /\
  (forall r,
      let r' := refreshed db payload r in
      let id := MORUser.userID r in
      MORUser.top1s r' = countRank db id 0 /\
      MORUser.top2s r' = countRank db id 1 /\
      MORUser.top3s r' = countRank db id 2 /\
      MORUser.autotrack r' = MORUser.autotrack r /\
      MORUser.username r' = OsuUser.username (payload id) /\
      MORUser.pp r' = OsuUser.pp (payload id)) /\
  (forall id,
      DatabaseUpdater.countTops id (DatabaseUpdater.modsToScores db) (0, 0, 0)%Z =
        Ok (countRank db id 0, countRank db id 1, countRank db id 2)) /\
  List.length (DatabaseUpdater.modsToScores db) = 36%nat /\
  (JS.sort DatabaseUpdater.ppCompare table = [rA; rB; rC] /\
   forall a b c,
     DatabaseUpdater.countTable u
       (slice0 3 (JS.sort DatabaseUpdater.ppCompare table)) 0 (a, b, c) =
     Ok ((a + indicator (MORScore.userID rA =? u))%Z,
         (b + indicator (MORScore.userID rB =? u))%Z,
         (c + indicator (MORScore.userID rC =? u))%Z)).
Proof.
  intros db Hu Hpay Hapi HA HB HC Hp.
  split; [|split; [|split; [|split]]].
  - destruct (updateUsers_refresh osu db payload available Hu Hpay Hapi st eq_refl)
      as (st' & Hrun & _ & Hs & HU).
    exists st'. repeat split; assumption.
  - intros r. unfold refreshed, DatabaseUpdater.updatedUser. simpl.
    repeat split; reflexivity.
  - intros id. apply countTops_countRank.
  - reflexivity.
  - assert (JS.sort DatabaseUpdater.ppCompare table = [rA; rB; rC]) as Hs
      by (apply sort_three; [lra|lra|exact Hp]).
    split; [exact Hs|]. intros a b c.
    rewrite countTable_top3, Hs. reflexivity.
Qed.

Lemma updateUsers_recount_witness :
  let row id uid pp := MORScore.mk id uid 3 "user" "artist - title [diff]" "HD"
                         pp 99 5 "2024-01-01T00:00:00Z" "cover" in
  let rA := row 1%Z 11%Z 300 in
  let rB := row 2%Z 12%Z 250 in
  let rC := row 3%Z 13%Z 200 in
  let user id := MORUser.mk id "old" "CA" (Some 1%Z) 100 99 0 0 0 0 0 "avatar"
                   0 0 0 (id =? 12)%Z in
  let payload id := OsuUser.mk id "new" "CA" (Some 2%Z) 200 98 0 0 0 0 0 "avatar" in
  let available := fun _ : Z => true in
  let osu := OsuApi.mk (fun ids => Ok (Some (map payload (filter available ids))))
               (fun _ => Ok None) (fun _ _ => Ok (Some [])) (fun _ _ => Ok (Some 5)) in
  let db := DatabaseManager.mk [user 11%Z; user 12%Z; user 13%Z; user 14%Z]
              (fun k => if MORMod.eqb k MORMod.HD then [rC; rA; rB] else []) in
  let st := DatabaseUpdater.mk db [] in
  uniqueUsers (DatabaseManager.USERS db) /\
  Permutation [rA; rB; rC] [rC; rA; rB] /\
  exists st',
    DatabaseUpdater.updateUsers osu st = (st', Ok tt) /\
    map (fun r => (MORUser.userID r, MORUser.top1s r, MORUser.top2s r,
                   MORUser.top3s r, MORUser.autotrack r))
        (DatabaseManager.USERS (DatabaseUpdater.dbm st')) =
      [(11, 1, 0, 0, false); (12, 0, 1, 0, true); (13, 0, 0, 1, false);
       (14, 0, 0, 0, false)]%Z.
Proof.
  intros row rA rB rC user payload available osu db st.
  assert (uniqueUsers (DatabaseManager.USERS db)) as Hu.
  { unfold uniqueUsers. simpl. repeat constructor; simpl; intuition discriminate. }
  assert (Permutation [rA; rB; rC] [rC; rA; rB]) as Hp
    by apply (Permutation_sym (Permutation_cons_append [rA; rB] rC)).
  split; [exact Hu|]. split; [exact Hp|].
  destruct (updateUsers_recount osu st payload available rA rB rC [rC; rA; rB] 11%Z
              Hu
              (fun id => conj eq_refl (conj (Qle_bool_imp_le 0 200 eq_refl)
                                            (Qle_bool_imp_le 0 98 eq_refl)))
              (fun ids => eq_refl) (Qeq_refl 300) (Qeq_refl 250) (Qeq_refl 200) Hp)
    as [(st' & Hrun & _ & HU) _].
  exists st'. split; [exact Hrun|]. rewrite HU. vm_compute. reflexivity.
Defined.


(** ** Facts about the modifier tokens *)

Section TokenFacts.

Lemma stringToMORMod_toString (m : MORMod.t) :
  Common.stringToMORMod (MORMod.toString m) = Ok m.
Proof. destruct m; reflexivity. Qed.

Lemma stringToOsuMod_toString (m : OsuMod.t) :
  Common.stringToOsuMod (OsuMod.toString m) = Ok m.
Proof. destruct m; reflexivity. Qed.

Lemma stringToMORMod_Ok (s : string) (m : MORMod.t) :
  Common.stringToMORMod s = Ok m -> s = MORMod.toString m.
Proof.
  unfold Common.stringToMORMod.
  destruct (find _ MORMod.keys) as [k|] eqn:E; [|discriminate].
  intros [= <-]. apply find_some in E. destruct E as [_ E].
  now apply String.eqb_eq in E.
Qed.

Lemma stringToOsuMod_Ok (s : string) (m : OsuMod.t) :
  Common.stringToOsuMod s = Ok m -> s = OsuMod.toString m.
Proof.
  unfold Common.stringToOsuMod.
  destruct (find _ OsuMod.keys) as [k|] eqn:E; [|discriminate].
  intros [= <-]. apply find_some in E. destruct E as [_ E].
  now apply String.eqb_eq in E.
Qed.

Lemma string_pair_ind (P : string -> Prop) :
  P "" -> (forall c, P (String c "")) ->
  (forall c d s, P s -> P (String c (String d s))) ->
  forall s, P s.
Proof.
  intros H0 H1 H2. fix IH 1. intros [|c [|d s]].
  - exact H0.
  - apply H1.
  - apply H2, IH.
Qed.

Lemma match_dot_1_2_pair (c d : ascii) (s : string) :
  isLineTerminator c = false -> isLineTerminator d = false ->
  match_dot_1_2 (String c (String d s)) =
    String c (String d "") :: match_dot_1_2 s.
Proof. intros Hc Hd. cbn [match_dot_1_2]. now rewrite Hc, Hd. Qed.

Lemma replaceAll_withoutCommas (s : string) :
  replaceAll "," "" s = withoutCommas s.
Proof.
  unfold replaceAll. induction s as [|c s IH]; [reflexivity|].
  assert (String.prefix "" s = true) as Hp by now destruct s.
  cbn [replaceAll_from withoutCommas String.prefix].
  destruct (ascii_dec "," c) as [<-|Hne].
  - rewrite Hp. cbn. exact IH.
  - destruct (Ascii.eqb_spec c ",") as [->|_]; [congruence|].
    now rewrite IH.
Qed.

Lemma withoutCommas_app (a b : string) :
  withoutCommas (a ++ b) = withoutCommas a ++ withoutCommas b.
Proof.
  induction a as [|c a IH]; [reflexivity|]. cbn.
  destruct (Ascii.eqb c ","); [exact IH|]. cbn. now rewrite IH.
Qed.

Lemma withoutCommas_token (t : string) :
  isModToken t = true -> withoutCommas t = t.
Proof.
  destruct t as [|a [|b [|? ?]]]; try discriminate. cbn.
  intros H. repeat (apply andb_prop in H; destruct H as [H ?]).
  apply negb_true_iff in H. rewrite H.
  match goal with H1 : negb (Ascii.eqb b ",") = true |- _ =>
    apply negb_true_iff in H1; rewrite H1 end.
  reflexivity.
Qed.

Lemma withoutCommas_join (mods : list string) :
  forallb isModToken mods = true ->
  withoutCommas (join "," mods) = String.concat "" mods.
Proof.
  induction mods as [|t [|u rest] IH]; [reflexivity| |].
  - cbn. intros H. apply andb_prop in H. now apply withoutCommas_token.
  - intros H. cbn [forallb] in H. apply andb_prop in H. destruct H as [Ht H].
    change (join "," (t :: u :: rest)) with (t ++ "," ++ join "," (u :: rest)).
    change (String.concat "" (t :: u :: rest))
      with (t ++ "" ++ String.concat "" (u :: rest)).
    rewrite !withoutCommas_app, (withoutCommas_token t Ht), (IH H). reflexivity.
Qed.

Lemma match_dot_1_2_concat (mods : list string) :
  forallb isModToken mods = true ->
  match_dot_1_2 (String.concat "" mods) = mods.
Proof.
  induction mods as [|t rest IH]; [reflexivity|].
  intros H. cbn [forallb] in H. apply andb_prop in H. destruct H as [Ht H].
  destruct t as [|a [|b [|? ?]]]; try discriminate.
  cbn in Ht. repeat (apply andb_prop in Ht; destruct Ht as [Ht ?]).
  assert (isLineTerminator a = false) as Ha by now apply negb_true_iff.
  assert (isLineTerminator b = false) as Hb by now apply negb_true_iff.
  destruct rest as [|u rest].
  - cbn [String.concat]. now rewrite match_dot_1_2_pair.
  - change (String.concat "" (String a (String b "") :: u :: rest))
      with (String a (String b (String.concat "" (u :: rest)))).
    rewrite match_dot_1_2_pair by assumption. now rewrite (IH H).
Qed.

Lemma modStringToArray_join (mods : list string) :
  forallb isModToken mods = true ->
  Common.modStringToArray (replaceAll "," "" (join "," mods)) = mods.
Proof.
  intros H. unfold Common.modStringToArray.
  now rewrite replaceAll_withoutCommas, withoutCommas_join, match_dot_1_2_concat.
Qed.

Lemma osuMod_tokens (ms : list OsuMod.t) :
  forallb isModToken (map OsuMod.toString ms) = true.
Proof.
  induction ms as [|m ms IH]; [reflexivity|]. cbn [map forallb].
  rewrite IH. now destruct m.
Qed.

Lemma osuScoreToMORScore_mods (osu : OsuApi.t) (s : OsuScore.t) (r : MORScore.t) :
  Common.osuScoreToMORScore osu s = Ok r ->
  MORScore.mods r = replaceAll "," "" (join "," (OsuScore.mods s)) /\
  MORScore.scoreID r = OsuScore.id s.
Proof.
  unfold Common.osuScoreToMORScore.
  destruct (Common.affectsStarRating _).
  - destruct (Common.mapStringToOsuMod _); [|discriminate].
    destruct (OsuApi.getBeatmapAttributes _ _ _) as [[q|]|]; try discriminate.
    intros [= <-]. split; reflexivity.
  - intros [= <-]. split; reflexivity.
Qed.

End TokenFacts.

Section ComboFacts.

Lemma filter_pickBits {A : Type} (f : A -> bool) (l : list A) :
  filter f l = pickBits (map f l) l.
Proof.
  induction l as [|x l IH]; [reflexivity|]. cbn. now rewrite IH.
Qed.

Lemma allBits_complete (bits : list bool) :
  In bits (allBits (List.length bits)).
Proof.
  induction bits as [|b bits IH]; [now left|].
  cbn [List.length allBits]. apply in_or_app.
  destruct b; [left|right]; now apply in_map.
Qed.

Lemma checkBits_all : forallb checkBits (allBits 11) = true.
Proof. vm_compute. reflexivity. Qed.

Lemma osuMod_in_modOrder (m : OsuMod.t) : In (OsuMod.toString m) Common.modOrder.
Proof. destruct m; cbn; tauto. Qed.

Lemma modOrder_NoDup : NoDup Common.modOrder.
Proof.
  cbn. repeat constructor; cbn; intros H;
    repeat (destruct H as [H|H]; [discriminate|]); exact H.
Qed.

Lemma modOrder_ranked (t : string) : In t Common.modOrder -> unranked t = false.
Proof.
  cbn. intros H.
  repeat (destruct H as [<-|H]; [reflexivity|]). destruct H.
Qed.

Lemma filter_unranked_nil (l : list string) :
  (forall t, In t l -> In t Common.modOrder) -> filter unranked l = [].
Proof.
  intros H. induction l as [|t l IH]; [reflexivity|]. cbn.
  rewrite (modOrder_ranked t) by (apply H; now left).
  apply IH. intros u Hu. apply H. now right.
Qed.

Lemma includes_In (l : list string) (x : string) :
  includes l x = true <-> In x l.
Proof.
  unfold includes. rewrite existsb_exists. split.
  - intros (y & Hy & E). apply String.eqb_eq in E. now subst.
  - intros H. exists x. split; [exact H|apply String.eqb_refl].
Qed.

Lemma convertOsuMods_picked (M : list string) :
  NoDup M -> (forall t, In t M -> In t Common.modOrder) ->
  Common.convertOsuMods M =
    Common.convertOsuMods (pickBits (map (includes M) Common.modOrder) Common.modOrder).
Proof.
  intros Hnd Hin. rewrite <- filter_pickBits.
  set (M' := filter (includes M) Common.modOrder).
  assert (Permutation M M') as Hp.
  { apply NoDup_Permutation; [exact Hnd|apply NoDup_filter, modOrder_NoDup|].
    intros x. unfold M'. rewrite filter_In, includes_In. split.
    - intros H. split; [now apply Hin|exact H].
    - tauto. }
  assert (filter unranked M = filter unranked M') as Hu.
  { rewrite (filter_unranked_nil M Hin). symmetry. apply filter_unranked_nil.
    intros t Ht. unfold M' in Ht. now apply filter_In in Ht. }
  unfold Common.convertOsuMods. now rewrite (sortOsuMods_perm M M' Hp Hu).
Qed.

Lemma sort_of_ordered {A : Type} (cmp : A -> A -> Z) (key : A -> Z) (l : list A) :
  (forall a b, (cmp a b <= 0)%Z <-> (key a <= key b)%Z) ->
  ordered key l -> JS.sort cmp l = l.
Proof.
  intros Hc. induction l as [|a l IH]; [reflexivity|].
  intros Ho. inversion Ho as [|? ? Hl Ha]; subst.
  cbn [JS.sort]. rewrite (IH Hl).
  destruct l as [|b l]; [reflexivity|]. cbn [JS.insert].
  inversion Ha as [|? ? Hab _]; subst.
  apply Hc in Hab. apply Z.leb_le in Hab. now rewrite Hab.
Qed.

Lemma filter_all {A : Type} (f : A -> bool) (l : list A) :
  (forall x, In x l -> f x = true) -> filter f l = l.
Proof.
  intros H. induction l as [|x l IH]; [reflexivity|]. cbn.
  rewrite (H x) by now left. f_equal. apply IH. intros y Hy. apply H. now right.
Qed.

Lemma sortOsuMods_notNM (M : list string) (t : string) :
  In t (Common.sortOsuMods M) -> notNM t = true /\ In t M.
Proof.
  intros H. unfold Common.sortOsuMods in H.
  apply (Permutation_in _ (sort_perm Common.modCompare _)) in H.
  apply filter_In in H. destruct H as [H1 H2]. split; assumption.
Qed.

Lemma sortOsuMods_sortOsuMods (M : list string) :
  Common.sortOsuMods (Common.sortOsuMods M) = Common.sortOsuMods M.
Proof.
  unfold Common.sortOsuMods at 1.
  rewrite filter_all.
  - apply (sort_of_ordered _ rank); [apply modCompare_rank|apply sortOsuMods_ordered].
  - intros t Ht. now apply sortOsuMods_notNM in Ht.
Qed.

End ComboFacts.

(** X1: [stringToMORMod] and [stringToOsuMod] accept exactly the values of
    their enum and return the member whose value the string is; any other
    string throws a TypeError. *)
Theorem stringToMod_exact (s : string) :
  (forall m, Common.stringToMORMod s = Ok m <-> s = MORMod.toString m) /\
  (forall m, Common.stringToOsuMod s = Ok m <-> s = OsuMod.toString m) /\
  ((exists m, s = MORMod.toString m) \/
   exists msg, Common.stringToMORMod s = Throw (TypeError msg)) /\
  ((exists m, s = OsuMod.toString m) \/
   exists msg, Common.stringToOsuMod s = Throw (TypeError msg)).
Proof.
  split; [|split; [|split]].
  - intros m. split; [apply stringToMORMod_Ok|]. intros ->. apply stringToMORMod_toString.
  - intros m. split; [apply stringToOsuMod_Ok|]. intros ->. apply stringToOsuMod_toString.
  - destruct (Common.stringToMORMod s) as [m|e] eqn:E.
    + left. exists m. now apply stringToMORMod_Ok.
    + right. unfold Common.stringToMORMod in E.
      destruct (find _ _); [discriminate|]. injection E as <-. eauto.
  - destruct (Common.stringToOsuMod s) as [m|e] eqn:E.
    + left. exists m. now apply stringToOsuMod_Ok.
    + right. unfold Common.stringToOsuMod in E.
      destruct (find _ _); [discriminate|]. injection E as <-. eauto.
Qed.

(** X2: [modStringToArray] cuts a string without line terminators into
    its successive pairs of characters, the last token being a single
    character when the length is odd: token [i] is the substring of
    length 2 at [2 i], there are as many tokens as half the length rounded
    up, and the tokens put together give the string back. *)
Theorem modStringToArray_chunks (s : string) :
  noLineTerminator s = true ->
  String.concat "" (Common.modStringToArray s) = s /\
  List.length (Common.modStringToArray s) = Nat.div2 (S (String.length s)) /\
  forall i t, nth_error (Common.modStringToArray s) i = Some t ->
              t = substring (2 * i) 2 s.
Proof.
  unfold Common.modStringToArray.
  induction s as [|c|c d s IH] using string_pair_ind.
  - intros _. repeat split. intros [|i] t; discriminate.
  - cbn. rewrite andb_true_r. intros Hc. apply negb_true_iff in Hc.
    rewrite Hc. repeat split.
    intros [|[|i]] t; cbn; try discriminate. now intros [= <-].
  - cbn [noLineTerminator]. intros H.
    apply andb_prop in H. destruct H as [Hc H].
    apply andb_prop in H. destruct H as [Hd H].
    apply negb_true_iff in Hc, Hd.
    rewrite (match_dot_1_2_pair c d s Hc Hd).
    destruct (IH H) as (IH1 & IH2 & IH3). split; [|split].
    + destruct (match_dot_1_2 s) as [|t rest] eqn:E.
      * cbn in IH1. subst s. reflexivity.
      * change (String.concat "" (String c (String d "") :: t :: rest))
          with (String c (String d (String.concat "" (t :: rest)))).
        now rewrite IH1.
    + cbn [List.length String.length]. rewrite IH2. reflexivity.
    + intros [|i] t.
      * cbn. intros [= <-]. now destruct s.
      * cbn [nth_error]. intros Ht. apply IH3 in Ht. subst t.
        replace (2 * S i)%nat with (S (S (2 * i))) by lia. reflexivity.
Qed.

Lemma modStringToArray_chunks_witness :
  String.concat "" (Common.modStringToArray "HDDTF") = "HDDTF" /\
  List.length (Common.modStringToArray "HDDTF") = 3%nat /\
  forall i t, nth_error (Common.modStringToArray "HDDTF") i = Some t ->
              t = substring (2 * i) 2 "HDDTF".
Proof. apply (modStringToArray_chunks "HDDTF"). reflexivity. Defined.

(** X3: splitting undoes joining.  For modifier tokens of two characters
    each (no comma, no line terminator), as every value of OsuMod is,
    [modStringToArray] gives back the list that [join().replaceAll(',', '')]
    was applied to; so the string [osuScoreToMORScore] stores splits into
    the mods the API sent and names the same table as they do. *)
Theorem modStringToArray_inverts_join (mods : list string) :
  forallb isModToken mods = true ->
  Common.modStringToArray (replaceAll "," "" (join "," mods)) = mods /\
  (forall ms, mods = map OsuMod.toString ms -> forallb isModToken mods = true) /\
  forall osu s r,
    OsuScore.mods s = mods ->
    Common.osuScoreToMORScore osu s = Ok r ->
    Common.modStringToArray (MORScore.mods r) = mods /\
    Common.convertOsuMods (Common.modStringToArray (MORScore.mods r)) =
      Common.convertOsuMods (OsuScore.mods s).
Proof.
  intros Ht. split; [now apply modStringToArray_join|]. split.
  - intros ms ->. apply osuMod_tokens.
  - intros osu s r Hm Hr.
    apply osuScoreToMORScore_mods in Hr. destruct Hr as [Hr _].
    rewrite Hr, Hm, (modStringToArray_join mods Ht). split; reflexivity.
Qed.

Lemma modStringToArray_inverts_join_witness :
  Common.modStringToArray (replaceAll "," "" (join "," ["HD"; "NC"; "FL"])) =
    ["HD"; "NC"; "FL"].
Proof.
  apply (modStringToArray_inverts_join ["HD"; "NC"; "FL"]). reflexivity.
Defined.

(** X4: a pass of the loop of [getNewScores] that goes on to the next
    score leaves the score in the table its mods name:
    for a score whose mods are two-character tokens naming the table
    [key], after a pass that neither returned nor threw,
    [scoreExistsInTable] finds the score's id in [key], and the row
    converted from the score is filed under [key] by [insertScore]. *)
Theorem getNewScores_score_files (osu : OsuApi.t) (st st' : DatabaseUpdater.t)
    (userScore : OsuScore.t) (key : MORMod.t) :
  forallb isModToken (OsuScore.mods userScore) = true ->
  Common.convertOsuMods (OsuScore.mods userScore) = Ok key ->
  DatabaseUpdater.getNewScores_score osu st userScore = DatabaseUpdater.Next st' ->
  DatabaseManager.scoreExistsInTable (DatabaseUpdater.dbm st')
    (OsuScore.id userScore) key = true /\
  DatabaseManager.USERS (DatabaseUpdater.dbm st') =
    DatabaseManager.USERS (DatabaseUpdater.dbm st) /\
  (DatabaseManager.scoreExistsInTable (DatabaseUpdater.dbm st)
     (OsuScore.id userScore) key = true -> st' = st) /\
  (DatabaseManager.scoreExistsInTable (DatabaseUpdater.dbm st)
     (OsuScore.id userScore) key = false ->
   exists dbScore,
     Common.osuScoreToMORScore osu userScore = Ok dbScore /\
     DatabaseManager.scores (DatabaseUpdater.dbm st') key =
       (DatabaseManager.scores (DatabaseUpdater.dbm st) key ++ [dbScore])%list /\
     forall k, k <> key ->
       DatabaseManager.scores (DatabaseUpdater.dbm st') k =
       DatabaseManager.scores (DatabaseUpdater.dbm st) k).
Proof.
  intros Ht Hk. unfold DatabaseUpdater.getNewScores_score. rewrite Hk.
  destruct (DatabaseManager.scoreExistsInTable (DatabaseUpdater.dbm st)
              (OsuScore.id userScore) key) eqn:E; cbn [negb].
  - intros [= <-]. repeat split; auto. discriminate.
  - destruct (Common.osuScoreToMORScore osu userScore) as [dbScore|e] eqn:Hc;
      [|discriminate].
    pose proof (osuScoreToMORScore_mods _ _ _ Hc) as [Hm Hid].
    assert (Common.convertOsuMods (Common.modStringToArray (MORScore.mods dbScore))
            = Ok key) as Hk'.
    { now rewrite Hm, (modStringToArray_join _ Ht). }
    unfold DatabaseManager.insertScore. rewrite Hk'.
    unfold DatabaseManager.runInsertScore.
    rewrite scoreExistsInTable_existsb in E. unfold hasID in E.
    rewrite Hid.
    destruct (DatabaseManager.scoreCheck dbScore) as [msg|] eqn:Hcheck.
    + unfold DatabaseManager.scoreCheck in Hcheck.
      repeat match type of Hcheck with
             | (if ?b then _ else _) = _ => destruct b
             end; try discriminate; injection Hcheck as <-; discriminate.
    + rewrite E. intros [= <-]. cbn [DatabaseUpdater.dbm DatabaseUpdater.withDb].
      split; [|split; [reflexivity|split; [discriminate|]]].
      * rewrite scoreExistsInTable_existsb, scores_setScores_same, existsb_app.
        cbn. unfold hasID. rewrite Hid, Z.eqb_refl. now rewrite orb_true_r.
      * intros _. exists dbScore. split; [reflexivity|]. split.
        -- apply scores_setScores_same.
        -- intros k Hne. now apply scores_setScores_other.
Qed.

(** X5: [sortOsuMods] is idempotent, so sorting first does not change what
    [convertOsuMods] answers; its result never holds 'NM' and holds only
    tokens of its argument. *)
Theorem sortOsuMods_idempotent (M : list string) :
  Common.sortOsuMods (Common.sortOsuMods M) = Common.sortOsuMods M /\
  Common.convertOsuMods (Common.sortOsuMods M) = Common.convertOsuMods M /\
  ~ In "NM" (Common.sortOsuMods M) /\
  (forall t, In t (Common.sortOsuMods M) <-> In t M /\ t <> "NM").
Proof.
  split; [apply sortOsuMods_sortOsuMods|]. split; [|split].
  - unfold Common.convertOsuMods. now rewrite sortOsuMods_sortOsuMods.
  - intros H. apply sortOsuMods_notNM in H. destruct H as [H _]. discriminate.
  - intros t. split.
    + intros H. apply sortOsuMods_notNM in H. destruct H as [H1 H2].
      split; [exact H2|]. intros ->. discriminate.
    + intros [H1 H2]. unfold Common.sortOsuMods.
      apply (Permutation_in _ (Permutation_sym (sort_perm Common.modCompare _))).
      apply filter_In. split; [exact H1|].
      apply negb_true_iff. now apply String.eqb_neq.
Qed.

(** X6: what [convertOsuMods] answers for osu! mods.  For a list without
    repetition whose tokens are values of OsuMod, in any order: when it
    combines EZ with HR, HT with DT or NC, or DT with NC, [convertOsuMods]
    throws a TypeError; otherwise it returns the table named by the mods
    among EZ, HD, HR, DT, HT, FL the list holds, in this order, NC
    counting as DT and NF, SD, SO, PF not at all, and NM when it holds
    none of them. *)
Theorem convertOsuMods_osu_mods (M : list string) :
  NoDup M ->
  Forall (fun t => exists m, t = OsuMod.toString m) M ->
  if conflicting M
  then exists msg, Common.convertOsuMods M = Throw (TypeError msg)
  else exists k, Common.convertOsuMods M = Ok k /\ MORMod.toString k = tableName M.
Proof.
  intros Hnd Hall.
  assert (forall t, In t M -> In t Common.modOrder) as Hin.
  { intros t Ht. rewrite Forall_forall in Hall. destruct (Hall t Ht) as [m ->].
    apply osuMod_in_modOrder. }
  rewrite (convertOsuMods_picked M Hnd Hin).
  pose proof checkBits_all as Hall'. rewrite forallb_forall in Hall'.
  specialize (Hall' (map (includes M) Common.modOrder)
                    (allBits_complete (map (includes M) Common.modOrder))).
  unfold conflicting, tableName, hasMod.
  cbn [OsuMod.toString].
  unfold checkBits in Hall'. cbn [map Common.modOrder OsuMod.toString] in Hall'.
  destruct (Common.convertOsuMods _) as [k|[msg|msg|msg]].
  - apply andb_prop in Hall'. destruct Hall' as [H1 H2].
    apply negb_true_iff in H1. rewrite H1. exists k. split; [reflexivity|].
    now apply String.eqb_eq.
  - rewrite Hall'. now exists msg.
  - discriminate.
  - discriminate.
Qed.

Lemma convertOsuMods_osu_mods_witness :
  exists k, Common.convertOsuMods ["FL"; "NC"; "SD"; "HD"] = Ok k /\
            MORMod.toString k = "HDDTFL".
Proof.
  apply (convertOsuMods_osu_mods ["FL"; "NC"; "SD"; "HD"]).
  - repeat constructor; cbn; intros H;
      repeat (destruct H as [H|H]; [discriminate|]); exact H.
  - repeat constructor.
    + now exists OsuMod.FL.
    + now exists OsuMod.NC.
    + now exists OsuMod.SD.
    + now exists OsuMod.HD.
Defined.

Lemma getNewScores_score_files_witness :
  let userScore :=
    OsuScore.mk 9 1 "user" 3 "diff" 5 "artist" "title" "cover" ["HD"; "NF"] 100 99
      "2024-01-01T00:00:00Z" in
  let osu :=
    OsuApi.mk (fun _ => Ok (Some [])) (fun _ => Ok None)
      (fun _ _ => Ok (Some [])) (fun _ _ => Ok (Some 5)) in
  let st := DatabaseUpdater.mk (DatabaseManager.mk [] (fun _ => [])) [] in
  let st' :=
    match DatabaseUpdater.getNewScores_score osu st userScore with
    | DatabaseUpdater.Next s => s
    | _ => st
    end in
  DatabaseManager.scoreExistsInTable (DatabaseUpdater.dbm st') 9 MORMod.HD = true.
Proof.
  intros userScore osu st st'.
  apply (getNewScores_score_files osu st st' userScore MORMod.HD);
    reflexivity.
Defined.


(** ** Facts about the retries of the request executor *)

Section RetryFacts.

Lemma retryable_status (statusCode : Z) (body : string) :
  retryable (Response statusCode body) = true ->
  (statusCode =? 200)%Z = false /\ (statusCode =? 404)%Z = false /\
  (statusCode =? 401)%Z = false.
Proof.
  intros H. repeat split.
  - destruct (Z.eqb_spec statusCode 200) as [->|]; [discriminate|reflexivity].
  - destruct (Z.eqb_spec statusCode 404) as [->|]; [discriminate|reflexivity].
  - destruct (Z.eqb_spec statusCode 401) as [->|]; [discriminate|reflexivity].
Qed.

Lemma took_step (url : Url) (request : Request) (d : Q) (n extra extra' : nat)
    (rest : list FetchResult) (w w1 w' : World) :
  trace w1 = (trace w ++ [Sleep url d; Fetch url request])%list ->
  random w1 = random w -> randomCalls w1 = (randomCalls w + extra')%nat ->
  took n extra rest w1 w' ->
  took (S n) (extra' + extra) rest w w'.
Proof.
  intros Ht Hr Hc (Hp & Hr' & Hc' & new & Hn & Hl & Hpair).
  split; [exact Hp|]. split; [congruence|]. split; [lia|].
  exists ([Sleep url d; Fetch url request] ++ new)%list.
  split; [now rewrite Hn, Ht, <- app_assoc|]. split.
  - cbn [List.length app]. lia.
  - cbn [app paired]. rewrite Url_eqb_refl. exact Hpair.
Qed.

Lemma took_last (url : Url) (request : Request) (d : Q)
    (rest : list FetchResult) (w : World) :
  took 1 0 rest w
    (mkWorld rest (random w) (randomCalls w)
       (trace w ++ [Sleep url d; Fetch url request])%list).
Proof.
  split; [reflexivity|]. split; [reflexivity|]. split; [cbn; lia|].
  exists [Sleep url d; Fetch url request]. split; [reflexivity|].
  split; [reflexivity|]. cbn. now rewrite Url_eqb_refl.
Qed.

Lemma makeRequest_loop_retries (url : Url) (request : Request)
    (last : FetchResult) (rest : list FetchResult) :
  retryable last = false ->
  forall fails fuel delayMs retries w,
    forallb retryable fails = true ->
    pending w = (fails ++ last :: rest)%list ->
    (List.length fails < fuel)%nat ->
    exists w',
      OsuWrapper.makeRequest_loop fuel url request delayMs retries w =
        (settles last, w') /\
      took (S (List.length fails)) (List.length fails) rest w w'.
Proof.
  intros Hlast. induction fails as [|f fails IH];
    intros fuel delayMs retries w Hf Hp Hfuel.
  - destruct fuel as [|fuel]; [cbn in Hfuel; lia|].
    destruct w as [p r rc tr]. cbn in Hp. subst p.
    cbn [OsuWrapper.makeRequest_loop sleep fetch pending random randomCalls trace].
    rewrite <- app_assoc. cbn [app].
    eexists. split; [|apply (took_last url request delayMs rest (mkWorld _ r rc tr))].
    destruct last as [statusCode body| |]; try reflexivity.
    cbn [settles]. cbn [retryable] in Hlast.
    destruct (statusCode =? 200)%Z; [reflexivity|].
    destruct (statusCode =? 404)%Z; [reflexivity|].
    now rewrite Hlast.
  - destruct fuel as [|fuel]; [cbn in Hfuel; lia|].
    cbn [forallb] in Hf. apply andb_prop in Hf. destruct Hf as [Hf Hfs].
    destruct f as [statusCode body| |]; try discriminate.
    destruct (retryable_status _ _ Hf) as (H200 & H404 & _).
    destruct w as [p r rc tr]. cbn in Hp. subst p.
    cbn [OsuWrapper.makeRequest_loop sleep fetch pending random randomCalls trace
         app mathRandom].
    rewrite H200, H404. cbn [retryable] in Hf. rewrite Hf.
    rewrite <- app_assoc. cbn [app].
    edestruct (IH fuel (backoff delayMs retries (r rc)) (S retries)
                 (mkWorld (fails ++ last :: rest)%list r (S rc)
                    (tr ++ [Sleep url delayMs; Fetch url request])%list))
      as (w' & Hrun & Htook); [exact Hfs|reflexivity|cbn in Hfuel; lia|].
    exists w'. split; [exact Hrun|].
    change (List.length (Response statusCode body :: fails))
      with (S (List.length fails)).
    replace (S (List.length fails)) with (1 + List.length fails)%nat at 2 by lia.
    apply (took_step url request delayMs _ _ 1 rest (mkWorld _ r rc tr)
             (mkWorld (fails ++ last :: rest)%list r (S rc)
                (tr ++ [Sleep url delayMs; Fetch url request])%list));
      try reflexivity; [cbn; lia|exact Htook].
Qed.

Lemma makeRequest_loop_never_gives_up (url : Url) (request : Request) :
  forall fails fuel delayMs retries w,
    forallb retryable fails = true ->
    pending w = fails ->
    fst (OsuWrapper.makeRequest_loop fuel url request delayMs retries w) = Pending.
Proof.
  induction fails as [|f fails IH]; intros fuel delayMs retries w Hf Hp.
  - destruct fuel as [|fuel]; [reflexivity|].
    destruct w as [p r rc tr]. cbn in Hp. subst p. reflexivity.
  - destruct fuel as [|fuel]; [reflexivity|].
    cbn [forallb] in Hf. apply andb_prop in Hf. destruct Hf as [Hf Hfs].
    destruct f as [statusCode body| |]; try discriminate.
    destruct (retryable_status _ _ Hf) as (H200 & H404 & _).
    destruct w as [p r rc tr]. cbn in Hp. subst p.
    cbn [OsuWrapper.makeRequest_loop sleep fetch pending random randomCalls trace
         app mathRandom].
    rewrite H200, H404. cbn [retryable] in Hf. rewrite Hf.
    now apply IH.
Qed.

End RetryFacts.

(** X7: [makeRequest] of src/OsuWrapper.ts has no bound on its attempts
    and is settled by the first answer that is not a 429 or 5xx response.
    When the answers to come are [n] such responses and then another
    answer, the call ends as that answer says (the body for 200,
    undefined for 404, a RangeError for any other status, the error of a
    failed fetch), having taken exactly these [n + 1] answers, slept
    before each fetch and drawn one random number per failure; when all
    the answers to come are such responses the call is still waiting
    after the last. *)
Theorem makeRequest_retries_until_settled (cooldown : Q) (url : Url)
    (request : Request) (w : World) (fails : list FetchResult)
    (last : FetchResult) (rest : list FetchResult) :
  forallb retryable fails = true ->
  retryable last = false ->
  (pending w = (fails ++ last :: rest)%list ->
   exists w',
     OsuWrapper.makeRequest cooldown url request w = (settles last, w') /\
     took (S (List.length fails)) (List.length fails) rest w w') /\
  (pending w = fails ->
   fst (OsuWrapper.makeRequest cooldown url request w) = Pending).
Proof.
  intros Hf Hl. split.
  - intros Hp. unfold OsuWrapper.makeRequest.
    apply makeRequest_loop_retries; auto.
    rewrite Hp, length_app. cbn. lia.
  - intros Hp. unfold OsuWrapper.makeRequest.
    now apply makeRequest_loop_never_gives_up with (fails := fails).
Qed.

Lemma makeRequest_retries_until_settled_witness :
  let w := mkWorld [Response 429 ""; Response 503 ""; Response 404 "";
                    Response 200 "next"]
                   (fun _ => 1 # 2) 0 [] in
  exists w',
    OsuWrapper.makeRequest 1000 API_URL (mkRequest None) w = (Returned None, w') /\
    took 3 2 [Response 200 "next"] w w'.
Proof.
  intros w.
  apply (makeRequest_retries_until_settled 1000 API_URL (mkRequest None) w
           [Response 429 ""; Response 503 ""] (Response 404 "")
           [Response 200 "next"]); reflexivity.
Defined.

Section RetryFacts_part_006.

Import OsuWrapper_part_006.

Lemma makeRequest_loop_retries_part_006 (cooldown : Q) (this : t)
    (request : Request) (last : FetchResult) (rest : list FetchResult) :
  retryable_part_006 last = false -> is401 last = false ->
  forall fails fuel delayMs retries w,
    forallb retryable_part_006 fails = true ->
    pending w = (fails ++ last :: rest)%list ->
    (List.length fails < fuel)%nat ->
    exists w',
      makeRequest_loop fuel cooldown this request delayMs retries w =
        (settles last, this, w') /\
      took (S (List.length fails)) (List.length fails) rest w w'.
Proof.
  intros Hlast H401. induction fails as [|f fails IH];
    intros fuel delayMs retries w Hf Hp Hfuel.
  - destruct fuel as [|fuel]; [cbn in Hfuel; lia|].
    destruct w as [p r rc tr]. cbn in Hp. subst p.
    cbn [makeRequest_loop sleep fetch pending random randomCalls trace].
    rewrite <- app_assoc. cbn [app].
    eexists. split; [|apply (took_last API_URL request delayMs rest (mkWorld _ r rc tr))].
    destruct last as [statusCode body| |]; try discriminate; [|reflexivity].
    cbn [settles]. cbn [retryable_part_006] in Hlast. cbn [is401] in H401.
    destruct (statusCode =? 200)%Z; [reflexivity|]. rewrite H401.
    destruct (statusCode =? 404)%Z; [reflexivity|].
    rewrite Hlast. reflexivity.
  - destruct fuel as [|fuel]; [cbn in Hfuel; lia|].
    cbn [forallb] in Hf. apply andb_prop in Hf. destruct Hf as [Hf Hfs].
    destruct w as [p r rc tr]. cbn in Hp. subst p.
    assert (makeRequest_loop (S fuel) cooldown this request delayMs retries
              (mkWorld (f :: fails ++ last :: rest)%list r rc tr) =
            makeRequest_loop fuel cooldown this request
              (backoff delayMs retries (r rc)) (S retries)
              (mkWorld (fails ++ last :: rest)%list r (S rc)
                 (tr ++ [Sleep API_URL delayMs; Fetch API_URL request])%list))
      as ->.
    { cbn [makeRequest_loop sleep fetch pending random randomCalls trace
           app mathRandom].
      rewrite <- app_assoc. cbn [app].
      destruct f as [statusCode body| |]; try discriminate.
      - destruct (retryable_status statusCode body Hf) as (H200 & H404 & H401').
        rewrite H200, H401', H404. cbn [retryable_part_006] in Hf.
        rewrite Hf. reflexivity.
      - reflexivity. }
    edestruct (IH fuel (backoff delayMs retries (r rc)) (S retries)
                 (mkWorld (fails ++ last :: rest)%list r (S rc)
                    (tr ++ [Sleep API_URL delayMs; Fetch API_URL request])%list))
      as (w' & Hrun & Htook); [exact Hfs|reflexivity|cbn in Hfuel; lia|].
    exists w'. split; [exact Hrun|].
    change (List.length (f :: fails)) with (S (List.length fails)).
    replace (S (List.length fails)) with (1 + List.length fails)%nat at 2 by lia.
    apply (took_step API_URL request delayMs _ _ 1 rest (mkWorld _ r rc tr)
             (mkWorld (fails ++ last :: rest)%list r (S rc)
                (tr ++ [Sleep API_URL delayMs; Fetch API_URL request])%list));
      try reflexivity; [cbn; lia|exact Htook].
Qed.

Lemma getAccessToken_loop_retries (last : FetchResult) (rest : list FetchResult) :
  retryable last = false ->
  forall fails fuel delayMs retries w,
    forallb retryable fails = true ->
    pending w = (fails ++ last :: rest)%list ->
    (List.length fails < fuel)%nat ->
    exists w',
      getAccessToken_loop fuel delayMs retries w = (settlesToken last, w') /\
      took (S (List.length fails)) (List.length fails) rest w w'.
Proof.
  intros Hlast. induction fails as [|f fails IH];
    intros fuel delayMs retries w Hf Hp Hfuel.
  - destruct fuel as [|fuel]; [cbn in Hfuel; lia|].
    destruct w as [p r rc tr]. cbn in Hp. subst p.
    cbn [getAccessToken_loop sleep fetch pending random randomCalls trace].
    rewrite <- app_assoc. cbn [app].
    eexists. split; [|apply (took_last TOKEN_URL TOKEN_REQUEST delayMs rest
                               (mkWorld _ r rc tr))].
    destruct last as [statusCode body| |]; try reflexivity.
    cbn [settlesToken]. cbn [retryable] in Hlast.
    destruct (statusCode =? 200)%Z; [reflexivity|].
    now rewrite Hlast.
  - destruct fuel as [|fuel]; [cbn in Hfuel; lia|].
    cbn [forallb] in Hf. apply andb_prop in Hf. destruct Hf as [Hf Hfs].
    destruct f as [statusCode body| |]; try discriminate.
    destruct (retryable_status _ _ Hf) as (H200 & _ & _).
    destruct w as [p r rc tr]. cbn in Hp. subst p.
    cbn [getAccessToken_loop sleep fetch pending random randomCalls trace
         app mathRandom].
    rewrite H200. cbn [retryable] in Hf. rewrite Hf.
    rewrite <- app_assoc. cbn [app].
    edestruct (IH fuel (backoff delayMs retries (r rc)) (S retries)
                 (mkWorld (fails ++ last :: rest)%list r (S rc)
                    (tr ++ [Sleep TOKEN_URL delayMs; Fetch TOKEN_URL TOKEN_REQUEST])%list))
      as (w' & Hrun & Htook); [exact Hfs|reflexivity|cbn in Hfuel; lia|].
    exists w'. split; [exact Hrun|].
    change (List.length (Response statusCode body :: fails))
      with (S (List.length fails)).
    replace (S (List.length fails)) with (1 + List.length fails)%nat at 2 by lia.
    apply (took_step TOKEN_URL TOKEN_REQUEST delayMs _ _ 1 rest (mkWorld _ r rc tr)
             (mkWorld (fails ++ last :: rest)%list r (S rc)
                (tr ++ [Sleep TOKEN_URL delayMs; Fetch TOKEN_URL TOKEN_REQUEST])%list));
      try reflexivity; [cbn; lia|exact Htook].
Qed.

End RetryFacts_part_006.

(** X8: in the revision that refreshes its token, [makeRequest] also goes
    round again after a fetch that failed with a TypeError.  When the
    answers to come are [n] answers that are 429 or 5xx responses or such
    failed fetches and then an answer that is neither, nor a 401,
    [makeRequest] ends as that answer says (the body for 200, undefined
    for 404, a RangeError for any other status, the error of a fetch that
    failed otherwise) with its token unchanged, having taken exactly these
    [n + 1] answers, slept before each fetch and drawn one random number
    per failure. *)
Theorem makeRequest_retries_part_006 (cooldown : Q)
    (this : OsuWrapper_part_006.t) (request : Request) (w : World)
    (fails : list FetchResult) (last : FetchResult) (rest : list FetchResult) :
  forallb retryable_part_006 fails = true ->
  retryable_part_006 last = false ->
  is401 last = false ->
  pending w = (fails ++ last :: rest)%list ->
  exists w',
    OsuWrapper_part_006.makeRequest cooldown this request w =
      (settles last, this, w') /\
    took (S (List.length fails)) (List.length fails) rest w w'.
Proof.
  intros Hf Hl H401 Hp.
  unfold OsuWrapper_part_006.makeRequest.
  apply makeRequest_loop_retries_part_006; auto.
  rewrite Hp, length_app. cbn. lia.
Qed.

Lemma makeRequest_retries_part_006_witness :
  let w := mkWorld [FetchTypeError; Response 502 ""; Response 200 "body"]
                   (fun _ => 1 # 2) 0 [] in
  exists w',
    OsuWrapper_part_006.makeRequest 1000 (OsuWrapper_part_006.mk "token")
      (mkRequest None) w =
      (Returned (Some "body"), OsuWrapper_part_006.mk "token", w') /\
    took 3 2 [] w w'.
Proof.
  intros w.
  apply (makeRequest_retries_part_006 1000 (OsuWrapper_part_006.mk "token")
           (mkRequest None) w [FetchTypeError; Response 502 ""]
           (Response 200 "body") []); reflexivity.
Defined.

(** X9: [getAccessToken] of that revision goes round again after 429 and
    5xx responses only.  When the answers to come are [n] such responses
    and then another answer, it ends on that answer, having taken exactly
    these [n + 1] answers: it returns the body for 200 and throws a
    RangeError for any other status, 404 included, and a fetch that
    failed, also with a TypeError, makes it throw what the fetch threw. *)
Theorem getAccessToken_retries (w : World) (fails : list FetchResult)
    (last : FetchResult) (rest : list FetchResult)
    (fuel : nat) (delayMs : Q) (retries : nat) :
  forallb retryable fails = true ->
  retryable last = false ->
  pending w = (fails ++ last :: rest)%list ->
  (List.length fails < fuel)%nat ->
  exists w',
    OsuWrapper_part_006.getAccessToken_loop fuel delayMs retries w =
      (settlesToken last, w') /\
    took (S (List.length fails)) (List.length fails) rest w w'.
Proof.
  intros Hf Hl Hp Hfuel. now apply getAccessToken_loop_retries.
Qed.

Lemma getAccessToken_retries_witness :
  let w := mkWorld [Response 429 ""; FetchTypeError; Response 200 "token"]
                   (fun _ => 1 # 2) 0 [] in
  exists w',
    OsuWrapper_part_006.getAccessToken_loop 3 1000 0 w =
      (Threw (TypeError "fetch failed"), w') /\
    took 2 1 [Response 200 "token"] w w'.
Proof.
  intros w.
  apply (getAccessToken_retries w [Response 429 ""] FetchTypeError
           [Response 200 "token"] 3 1000 0); try reflexivity.
  cbn. lia.
Defined.

Section BoundedFacts.

Import OsuWrapper_controller.

Lemma makeRequest_loop_gives_up (url : Url) (request : Request) (maxRetries : Z) :
  forall fails fuel retries delaySec w rest,
    forallb failed fails = true ->
    pending w = (fails ++ rest)%list ->
    delaySec = pow3 retries ->
    (retries + List.length fails)%nat = Z.to_nat maxRetries ->
    (List.length fails < fuel)%nat ->
    makeRequest_loop fuel url request maxRetries retries delaySec w =
      (Returned None,
       mkWorld rest (random w) (randomCalls w)
         (trace w ++ attempts url request retries (List.length fails))%list).
Proof.
  induction fails as [|f fails IH];
    intros fuel retries delaySec w rest Hf Hp Hd Hn Hfuel.
  - destruct fuel as [|fuel]; [cbn in Hfuel; lia|].
    cbn [makeRequest_loop]. cbn in Hn, Hp.
    assert ((Z.of_nat retries <? maxRetries)%Z = false) as -> by (apply Z.ltb_ge; lia).
    destruct w as [p r rc tr]. cbn in Hp |- *. subst p. now rewrite app_nil_r.
  - destruct fuel as [|fuel]; [cbn in Hfuel; lia|].
    cbn [forallb] in Hf. apply andb_prop in Hf. destruct Hf as [Hf Hfs].
    destruct f as [status body| |]; try discriminate.
    cbn [failed] in Hf. apply negb_true_iff in Hf.
    cbn [makeRequest_loop]. cbn [List.length] in Hn, Hfuel.
    assert ((Z.of_nat retries <? maxRetries)%Z = true) as -> by (apply Z.ltb_lt; lia).
    destruct w as [p r rc tr]. cbn in Hp. subst p.
    cbn [sleep fetch pending random randomCalls trace app]. rewrite Hf.
    rewrite (IH fuel (S retries) (pow3 (S retries))
               (mkWorld (fails ++ rest)%list r rc
                  ((tr ++ [Sleep url (delaySec * 1000)]) ++ [Fetch url request])%list)
               rest Hfs eq_refl eq_refl);
      [|lia|lia].
    cbn [pending random randomCalls trace List.length attempts].
    rewrite <- !app_assoc. cbn [app]. subst delaySec. reflexivity.
Qed.

Lemma makeRequest_loop_succeeds (url : Url) (request : Request) (maxRetries : Z)
    (status : Z) (body : string) :
  ok status = true ->
  forall fails fuel retries delaySec w rest,
    forallb failed fails = true ->
    pending w = (fails ++ Response status body :: rest)%list ->
    delaySec = pow3 retries ->
    (retries + List.length fails < Z.to_nat maxRetries)%nat ->
    (List.length fails < fuel)%nat ->
    makeRequest_loop fuel url request maxRetries retries delaySec w =
      (Returned (Some body),
       mkWorld rest (random w) (randomCalls w)
         (trace w ++ attempts url request retries (S (List.length fails)))%list).
Proof.
  intros Hok. induction fails as [|f fails IH];
    intros fuel retries delaySec w rest Hf Hp Hd Hn Hfuel.
  - destruct fuel as [|fuel]; [cbn in Hfuel; lia|].
    cbn [makeRequest_loop]. cbn in Hn, Hp.
    assert ((Z.of_nat retries <? maxRetries)%Z = true) as -> by (apply Z.ltb_lt; lia).
    destruct w as [p r rc tr]. cbn in Hp. subst p.
    cbn [sleep fetch pending random randomCalls trace app List.length attempts].
    rewrite Hok, <- app_assoc. cbn [app]. subst delaySec. reflexivity.
  - destruct fuel as [|fuel]; [cbn in Hfuel; lia|].
    cbn [forallb] in Hf. apply andb_prop in Hf. destruct Hf as [Hf Hfs].
    destruct f as [status' body'| |]; try discriminate.
    cbn [failed] in Hf. apply negb_true_iff in Hf.
    cbn [makeRequest_loop]. cbn [List.length] in Hn, Hfuel.
    assert ((Z.of_nat retries <? maxRetries)%Z = true) as -> by (apply Z.ltb_lt; lia).
    destruct w as [p r rc tr]. cbn in Hp. subst p.
    cbn [sleep fetch pending random randomCalls trace app]. rewrite Hf.
    rewrite (IH fuel (S retries) (pow3 (S retries))
               (mkWorld (fails ++ Response status body :: rest)%list r rc
                  ((tr ++ [Sleep url (delaySec * 1000)]) ++ [Fetch url request])%list)
               rest Hfs eq_refl eq_refl);
      [|lia|lia].
    cbn [pending random randomCalls trace List.length].
    change (attempts url request retries (S (S (List.length fails))))
      with (Sleep url (pow3 retries * 1000) :: Fetch url request
              :: attempts url request (S retries) (S (List.length fails))).
    rewrite <- !app_assoc. cbn [app]. subst delaySec. reflexivity.
Qed.

End BoundedFacts.

(** X10: [makeRequest] of src/controller/OsuWrapper.ts makes at most
    [maxRetries] attempts, attempt [k] (from 0) coming after a sleep of
    [3^k] seconds.  When the first [maxRetries] answers are responses that
    are not ok, it returns undefined after exactly these attempts, with no
    sleep after the last (and with no attempt at all when [maxRetries] is
    zero or less); when fewer than [maxRetries] such responses are followed
    by an ok response, it returns the body of that response and attempts
    nothing further. *)
Theorem makeRequest_bounded (url : Url) (request : Request) (maxRetries : Z)
    (w : World) (fails rest : list FetchResult) (status : Z) (body : string) :
  forallb failed fails = true ->
  (List.length fails = Z.to_nat maxRetries ->
   pending w = (fails ++ rest)%list ->
   OsuWrapper_controller.makeRequest url request maxRetries w =
     (Returned None,
      mkWorld rest (random w) (randomCalls w)
        (trace w ++ attempts url request 0 (List.length fails))%list)) /\
  ((List.length fails < Z.to_nat maxRetries)%nat ->
   OsuWrapper_controller.ok status = true ->
   pending w = (fails ++ Response status body :: rest)%list ->
   OsuWrapper_controller.makeRequest url request maxRetries w =
     (Returned (Some body),
      mkWorld rest (random w) (randomCalls w)
        (trace w ++ attempts url request 0 (S (List.length fails)))%list)).
Proof.
  intros Hf. unfold OsuWrapper_controller.makeRequest. split.
  - intros Hn Hp. apply makeRequest_loop_gives_up; auto; lia.
  - intros Hn Hok Hp.
    apply (makeRequest_loop_succeeds url request maxRetries status body Hok);
      auto; lia.
Qed.

Lemma makeRequest_bounded_witness :
  let w := mkWorld [Response 500 ""; Response 429 ""; Response 404 "";
                    Response 200 "late"]
                   (fun _ => 0) 0 [] in
  OsuWrapper_controller.makeRequest API_URL (mkRequest None) 3 w =
    (Returned None,
     mkWorld [Response 200 "late"] (fun _ => 0) 0
       [Sleep API_URL (1 * 1000); Fetch API_URL (mkRequest None);
        Sleep API_URL (3 * 1000); Fetch API_URL (mkRequest None);
        Sleep API_URL (9 * 1000); Fetch API_URL (mkRequest None)]).
Proof.
  intros w.
  apply (proj1 (makeRequest_bounded API_URL (mkRequest None) 3 w
                  [Response 500 ""; Response 429 ""; Response 404 ""]
                  [Response 200 "late"] 200 "" eq_refl));
    reflexivity.
Defined.

(** X11: in src/OsuWrapper.ts a public method builds its request before it
    refreshes the token, so the request sent right after a refresh still
    carries the token that expired.  For [getScore] called when the clock
    is past the acquiry time plus the duration: the token endpoint is
    asked first, the instance takes the new token, its duration and the
    clock's reading as acquiry time, and the API is then asked with the
    Authorization header of the old token; when the API answers that
    request with 401 the call throws the RangeError of an unhandled
    response code.  Called when the clock is not past that time, it asks
    the API only and leaves the instance as it is. *)
Theorem getScore_refreshes_after_building (access_token : string -> string)
    (expires_in : string -> Z) (cooldown : Q) (this : OsuWrapper.t)
    (currentTime : Z) (w : World) (token body : string)
    (rest : list FetchResult) :
  let expired :=
    (currentTime >? OsuWrapper._accessTokenAcquiryTime this
                    + OsuWrapper._accessTokenDuration this)%Z in
  let this' := OsuWrapper.mk (access_token token) (expires_in token) currentTime in
  let refreshed :=
    (trace w ++ [Sleep TOKEN_URL cooldown; Fetch TOKEN_URL OsuWrapper.TOKEN_REQUEST;
                 Sleep API_URL cooldown;
                 Fetch API_URL (OsuWrapper.buildHeaders this)])%list in
  (expired = true ->
   pending w = Response 200 token :: Response 200 body :: rest ->
   OsuWrapper.getScore access_token expires_in cooldown this currentTime w =
     (Returned (Some body), this',
      mkWorld rest (random w) (randomCalls w) refreshed)) /\
  (expired = true ->
   pending w = Response 200 token :: Response 401 body :: rest ->
   OsuWrapper.getScore access_token expires_in cooldown this currentTime w =
     (Threw unhandled, this',
      mkWorld rest (random w) (randomCalls w) refreshed)) /\
  (expired = false ->
   pending w = Response 200 body :: rest ->
   OsuWrapper.getScore access_token expires_in cooldown this currentTime w =
     (Returned (Some body), this,
      mkWorld rest (random w) (randomCalls w)
        (trace w ++ [Sleep API_URL cooldown;
                     Fetch API_URL (OsuWrapper.buildHeaders this)])%list)).
Proof.
  intros expired this' refreshed.
  unfold OsuWrapper.getScore, OsuWrapper.refreshToken.
  fold expired. destruct w as [p r rc tr].
  split; [|split]; intros He Hp; rewrite He; cbn in Hp; subst p; cbn;
    unfold refreshed; cbn [trace]; now rewrite <- !app_assoc.
Qed.

Example getScore_with_expired_token :
  let this := OsuWrapper.mk "old" 86400 0 in
  let w := mkWorld [Response 200 "new"; Response 200 "score"] (fun _ => 0) 0 [] in
  OsuWrapper.getScore (fun body => body) (fun _ => 86400%Z) 1000 this 86401 w =
    (Returned (Some "score"), OsuWrapper.mk "new" 86400 86401,
     mkWorld [] (fun _ => 0) 0
       [Sleep TOKEN_URL 1000; Fetch TOKEN_URL (mkRequest None);
        Sleep API_URL 1000; Fetch API_URL (mkRequest (Some "Bearer old"))]).
Proof. reflexivity. Qed.


(** ** Facts about the storage gateway *)

Section StoreFacts.

Import DatabaseManager.

(** Deleting rows keeps a key unique. *)
Lemma NoDup_map_filter {Row Key : Type} (key : Row -> Key) (kept : Row -> bool)
    (rows : list Row) (Hunique : NoDup (map key rows)) :
  NoDup (map key (filter kept rows)).
Proof.
  revert Hunique. induction rows as [|x l IH]; [intros; constructor|]. cbn. intros H.
  inversion H as [|? ? Hx Hl]; subst. destruct (kept x); [|now apply IH].
  cbn. constructor; [|now apply IH].
  intros Hin. apply Hx. apply in_map_iff in Hin. destruct Hin as (y & Hy & Hiny).
  apply filter_In in Hiny. apply in_map_iff. exists y. tauto.
Qed.

Lemma NoDup_map_snoc {A : Type} (f : A -> Z) (l : list A) (x : A) :
  NoDup (map f l) -> existsb (fun r => (f r =? f x)%Z) l = false ->
  NoDup (map f (l ++ [x])).
Proof.
  intros Hnd He. rewrite map_app. cbn.
  apply Permutation_NoDup with (l := f x :: map f l).
  - apply Permutation_cons_append.
  - constructor; [|exact Hnd]. intros Hin.
    apply in_map_iff in Hin. destruct Hin as (y & Hy & Hiny).
    assert (existsb (fun r => (f r =? f x)%Z) l = true) as E; [|congruence].
    apply existsb_exists. exists y. split; [exact Hiny|]. now apply Z.eqb_eq.
Qed.

Lemma map_replace_ids {A : Type} (f : A -> Z) (x : A) (l : list A) :
  map f (map (fun r => if (f r =? f x)%Z then x else r) l) = map f l.
Proof.
  induction l as [|r l IH]; [reflexivity|]. cbn. rewrite IH. f_equal.
  destruct (Z.eqb_spec (f r) (f x)); congruence.
Qed.

Lemma check_message_not_unique (s : MORScore.t) (msg : string) :
  scoreCheck s = Some msg -> str_includes msg "UNIQUE" = false.
Proof.
  unfold scoreCheck.
  repeat match goal with
         | |- (if ?b then _ else _) = _ -> _ => destruct b
         end; try discriminate; intros [= <-]; reflexivity.
Qed.

Lemma userCheck_message_not_unique (u : MORUser.t) (msg : string) :
  userCheck u = Some msg -> str_includes msg "UNIQUE" = false.
Proof.
  unfold userCheck.
  repeat match goal with
         | |- (if ?b then _ else _) = _ -> _ => destruct b
         end; try discriminate; intros [= <-]; reflexivity.
Qed.

(** What [insertScore] makes of the database. *)
Lemma insertScore_cases (db : t) (score : MORScore.t) :
  match Common.convertOsuMods (Common.modStringToArray (MORScore.mods score)) with
  | Throw e => insertScore db score = (db, Throw e)
  | Ok key =>
      match scoreCheck score with
      | Some msg => insertScore db score = (db, Throw (OtherError msg))
      | None =>
          if existsb (hasID (MORScore.scoreID score)) (scores db key)
          then insertScore db score = (db, Ok tt)
          else insertScore db score =
                 (setScores db key (scores db key ++ [score])%list, Ok tt)
      end
  end.
Proof.
  destruct (Common.convertOsuMods _) as [key|e] eqn:Hk.
  - destruct (scoreCheck score) as [msg|] eqn:Hc.
    + unfold insertScore, runInsertScore. rewrite Hk, Hc.
      now rewrite (check_message_not_unique _ _ Hc).
    + destruct (existsb _ _) eqn:He.
      * now apply (insertScore_existing db score key).
      * now apply (insertScore_fresh db score key).
  - unfold insertScore. now rewrite Hk.
Qed.

Lemma insertUser_cases (db : t) (user : MORUser.t) :
  match userCheck user with
  | Some msg => insertUser db user = (db, Throw (OtherError msg))
  | None =>
      if existsb (fun r => (MORUser.userID r =? MORUser.userID user)%Z) (USERS db)
      then insertUser db user = (db, Ok tt)
      else insertUser db user = (setUsers db (USERS db ++ [user])%list, Ok tt)
  end.
Proof.
  unfold insertUser, runInsertUser.
  destruct (userCheck user) as [msg|] eqn:Hc.
  - now rewrite (userCheck_message_not_unique _ _ Hc).
  - destruct (existsb _ _); reflexivity.
Qed.

Lemma filed_setScores (db : t) (key : MORMod.t) (rows : list MORScore.t) :
  filed db ->
  (forall r, In r rows ->
     Common.convertOsuMods (Common.modStringToArray (MORScore.mods r)) = Ok key) ->
  filed (setScores db key rows).
Proof.
  intros Hf Hrows k r. destruct (MORMod.eq_dec k key) as [->|Hne].
  - rewrite scores_setScores_same. apply Hrows.
  - rewrite scores_setScores_other by exact Hne. apply Hf.
Qed.

Lemma keyed_setScores (db : t) (key : MORMod.t) (rows : list MORScore.t) :
  keyed db -> uniqueIDs rows -> keyed (setScores db key rows).
Proof.
  intros [HU HS] Hrows. split; [exact HU|]. intros k.
  destruct (MORMod.eq_dec k key) as [->|Hne].
  - now rewrite scores_setScores_same.
  - rewrite scores_setScores_other by exact Hne. apply HS.
Qed.

Lemma insertScore_sound (db : t) (score : MORScore.t) :
  filed db /\ keyed db ->
  filed (fst (insertScore db score)) /\ keyed (fst (insertScore db score)).
Proof.
  intros [Hf Hk]. pose proof (insertScore_cases db score) as H.
  destruct (Common.convertOsuMods _) as [key|e] eqn:Hkey;
    [|rewrite H; now split].
  destruct (scoreCheck score); [rewrite H; now split|].
  destruct (existsb _ _) eqn:He; rewrite H; [now split|]. cbn [fst]. split.
  - apply filed_setScores; [exact Hf|]. intros r Hr.
    apply in_app_or in Hr. destruct Hr as [Hr|[<-|[]]]; [now apply Hf|exact Hkey].
  - apply keyed_setScores; [exact Hk|]. apply NoDup_map_snoc; [apply Hk|exact He].
Qed.

Lemma updateScore_cases (db : t) (score : MORScore.t) :
  fst (updateScore db score) = db \/
  exists key,
    Common.convertOsuMods (Common.modStringToArray (MORScore.mods score)) = Ok key /\
    scoreCheck score = None /\
    updateScore db score =
      (setScores db key
         (map (fun r => if (MORScore.scoreID r =? MORScore.scoreID score)%Z
                        then score else r) (scores db key)), Ok tt).
Proof.
  unfold updateScore.
  destruct (Common.convertOsuMods _) as [key|e]; [|now left].
  destruct (existsb _ _); [|now left].
  destruct (scoreCheck score); [now left|]. right. now exists key.
Qed.

Lemma updateScore_sound (db : t) (score : MORScore.t) :
  filed db /\ keyed db ->
  filed (fst (updateScore db score)) /\ keyed (fst (updateScore db score)).
Proof.
  intros [Hf Hk].
  destruct (updateScore_cases db score) as [->|(key & Hkey & _ & ->)];
    [now split|]. cbn [fst]. split.
  - apply filed_setScores; [exact Hf|]. intros r Hr.
    apply in_map_iff in Hr. destruct Hr as (x & Hx & Hin).
    destruct (MORScore.scoreID x =? MORScore.scoreID score)%Z; subst r;
      [exact Hkey|now apply Hf].
  - apply keyed_setScores; [exact Hk|]. unfold uniqueIDs.
    rewrite map_replace_ids. apply Hk.
Qed.

Lemma removeScore_sound (db : t) (id : Z) (key : MORMod.t) :
  filed db /\ keyed db ->
  filed (removeScore db id key) /\ keyed (removeScore db id key).
Proof.
  intros [Hf Hk]. unfold removeScore. split.
  - apply filed_setScores; [exact Hf|]. intros r Hr.
    apply filter_In in Hr. now apply Hf.
  - apply keyed_setScores; [exact Hk|]. apply NoDup_map_filter, Hk.
Qed.

Lemma removeUserScores_sound (db : t) (userID : Z) :
  filed db /\ keyed db ->
  filed (removeUserScores db userID) /\ keyed (removeUserScores db userID).
Proof.
  intros [Hf [HU HS]]. destruct (removeUserScores_spec db userID) as [HU' HS'].
  split; [|split].
  - intros k r. rewrite HS'. intros Hr. apply filter_In in Hr. now apply Hf.
  - now rewrite HU'.
  - intros k. rewrite HS'. apply NoDup_map_filter, HS.
Qed.

Lemma removeUser_sound (db : t) (userID : Z) :
  filed db /\ keyed db ->
  filed (removeUser db userID) /\ keyed (removeUser db userID).
Proof.
  intros [Hf [HU HS]]. split; [exact Hf|]. split; [|exact HS].
  apply NoDup_map_filter, HU.
Qed.

Lemma insertUser_sound (db : t) (user : MORUser.t) :
  filed db /\ keyed db ->
  filed (fst (insertUser db user)) /\ keyed (fst (insertUser db user)).
Proof.
  intros [Hf [HU HS]]. pose proof (insertUser_cases db user) as H.
  destruct (userCheck user); [rewrite H; now repeat split|].
  destruct (existsb _ _) eqn:He; rewrite H; [now repeat split|].
  split; [exact Hf|]. split; [|exact HS].
  now apply NoDup_map_snoc.
Qed.

Lemma updateUser_USERS (db : t) (user : MORUser.t) :
  scores (fst (updateUser db user)) = scores db /\
  map MORUser.userID (USERS (fst (updateUser db user))) =
    map MORUser.userID (USERS db).
Proof.
  unfold updateUser. destruct (existsb _ _); [|now split].
  destruct (userCheck user); [now split|]. cbn [fst]. split; [reflexivity|].
  apply map_replace_ids.
Qed.

Lemma updateUser_sound (db : t) (user : MORUser.t) :
  filed db /\ keyed db ->
  filed (fst (updateUser db user)) /\ keyed (fst (updateUser db user)).
Proof.
  intros [Hf [HU HS]]. destruct (updateUser_USERS db user) as [Hs Hu].
  unfold filed, keyed, uniqueUsers. rewrite Hs, Hu. now repeat split.
Qed.

End StoreFacts.

(** X12: the storage gateway keeps its tables in order.  In a database
    where every row is in the table its modifier string names, user ids
    are unique in USERS and score ids are unique in each score table,
    the same holds after [insertScore], [updateScore], [removeScore],
    [removeUserScores], [removeUser], [insertUser] and [updateUser],
    whatever their arguments and whether they resolve or reject. *)
Theorem DatabaseManager_keeps_tables_in_order (db : DatabaseManager.t)
    (score : MORScore.t) (user : MORUser.t) (id : Z) (key : MORMod.t) :
  filed db /\ keyed db ->
  let kept db' := filed db' /\ keyed db' in
  kept (fst (DatabaseManager.insertScore db score)) /\
  kept (fst (DatabaseManager.updateScore db score)) /\
  kept (DatabaseManager.removeScore db id key) /\
  kept (DatabaseManager.removeUserScores db id) /\
  kept (DatabaseManager.removeUser db id) /\
  kept (fst (DatabaseManager.insertUser db user)) /\
  kept (fst (DatabaseManager.updateUser db user)).
Proof.
  intros H kept. unfold kept.
  split; [now apply insertScore_sound|].
  split; [now apply updateScore_sound|].
  split; [now apply removeScore_sound|].
  split; [now apply removeUserScores_sound|].
  split; [now apply removeUser_sound|].
  split; [now apply insertUser_sound|now apply updateUser_sound].
Qed.

Lemma DatabaseManager_keeps_tables_in_order_witness :
  let row := MORScore.mk 9 1 3 "user" "artist - title [diff]" "HDNF" 100 99 5
               "2024-01-01T00:00:00Z" "cover" in
  let user := MORUser.mk 1 "user" "CA" (Some 1%Z) 100 99 0 0 0 0 0 "avatar" 0 0 0 true in
  let db := DatabaseManager.mk [user]
              (fun k => match k with MORMod.HD => [row] | _ => [] end) in
  let db' := fst (DatabaseManager.updateScore db row) in
  filed db' /\ keyed db'.
Proof.
  intros row user db db'.
  apply (DatabaseManager_keeps_tables_in_order db row user 1 MORMod.HD).
  split; [|split].
  - intros key r. destruct key; cbn; intros H; try contradiction;
      destruct H as [<-|[]]; reflexivity.
  - repeat constructor. intros [].
  - intros key. destruct key; repeat constructor; intros [].
Defined.

Section CountFacts.

Import DatabaseManager.

Lemma getNumScores_fold (db : t) (keys : list MORMod.t) (n : Z) :
  fold_left (fun numScores key => (numScores + getRowCount db key)%Z) keys n =
  (n + Z.of_nat (List.length (flat_map (scores db) keys)))%Z.
Proof.
  revert n. induction keys as [|k keys IH]; intros n; cbn; [lia|].
  rewrite IH, length_app. unfold getRowCount. lia.
Qed.

Lemma getNumScores_getScores (db : t) :
  getNumScores db = Z.of_nat (List.length (getScores db)).
Proof. unfold getNumScores, getScores. rewrite getNumScores_fold. lia. Qed.

Lemma getScores_In (db : t) (r : MORScore.t) :
  In r (getScores db) <-> exists key, In r (scores db key).
Proof.
  unfold getScores. rewrite in_flat_map. split.
  - intros (k & _ & H). now exists k.
  - intros (k & H). exists k. split; [apply MORMod_keys_complete|exact H].
Qed.

Lemma flat_map_setScores (db : t) (key : MORMod.t) (rows : list MORScore.t)
    (keys : list MORMod.t) :
  NoDup keys ->
  (List.length (flat_map (scores (setScores db key rows)) keys)
   + (if existsb (MORMod.eqb key) keys then List.length (scores db key) else 0)
   = List.length (flat_map (scores db) keys)
     + (if existsb (MORMod.eqb key) keys then List.length rows else 0))%nat.
Proof.
  induction keys as [|k keys IH]; [reflexivity|]. intros Hnd.
  inversion Hnd as [|? ? Hk Hnd']; subst. specialize (IH Hnd').
  cbn [flat_map existsb]. rewrite !length_app.
  destruct (MORMod.eq_dec key k) as [->|Hne].
  - rewrite MORMod_eqb_refl, scores_setScores_same. cbn [orb].
    assert (existsb (MORMod.eqb k) keys = false) as E.
    { apply not_true_is_false. intros E. apply existsb_exists in E.
      destruct E as (x & Hx & E). unfold MORMod.eqb in E.
      destruct (MORMod.eq_dec k x); [now subst|discriminate]. }
    rewrite E in IH. lia.
  - rewrite (MORMod_eqb_neq key k Hne). cbn [orb].
    rewrite scores_setScores_other by congruence.
    destruct (existsb (MORMod.eqb key) keys); lia.
Qed.

Lemma getNumScores_setScores (db : t) (key : MORMod.t) (rows : list MORScore.t) :
  getNumScores (setScores db key rows) =
  (getNumScores db - Z.of_nat (List.length (scores db key))
   + Z.of_nat (List.length rows))%Z.
Proof.
  rewrite !getNumScores_getScores. unfold getScores.
  pose proof (flat_map_setScores db key rows MORMod.keys MORMod_keys_NoDup) as H.
  assert (existsb (MORMod.eqb key) MORMod.keys = true) as E.
  { apply existsb_exists. exists key. split; [apply MORMod_keys_complete|].
    apply MORMod_eqb_refl. }
  rewrite E in H. lia.
Qed.

Lemma length_filter_split {A : Type} (p : A -> bool) (l : list A) :
  (List.length (filter p l) + List.length (filter (fun x => negb (p x)) l)
   = List.length l)%nat.
Proof.
  induction l as [|x l IH]; [reflexivity|]. cbn. destruct (p x); cbn; lia.
Qed.

End CountFacts.

(** X13: counting the scores.  [getNumScores] is the number of rows
    [getScores] returns, and [getScores] returns the rows of the 36 tables
    and nothing else.  [insertScore] that resolves adds one to the count
    when the id was not yet in the table the score's modifier string names
    and leaves it as it is otherwise; [removeScore] takes away the number
    of rows of the table that have the id; [updateScore] leaves the count
    as it is. *)
Theorem getNumScores_counts (db : DatabaseManager.t) (score : MORScore.t)
    (id : Z) (key : MORMod.t) :
  DatabaseManager.getNumScores db =
    Z.of_nat (List.length (DatabaseManager.getScores db)) /\
  (forall r, In r (DatabaseManager.getScores db) <->
             exists k, In r (DatabaseManager.getTableScores db k)) /\
  (forall db',
     Common.convertOsuMods (Common.modStringToArray (MORScore.mods score)) = Ok key ->
     DatabaseManager.insertScore db score = (db', Ok tt) ->
     DatabaseManager.getNumScores db' =
       (DatabaseManager.getNumScores db +
        if DatabaseManager.scoreExistsInTable db (MORScore.scoreID score) key
        then 0 else 1)%Z) /\
  DatabaseManager.getNumScores (DatabaseManager.removeScore db id key) =
    (DatabaseManager.getNumScores db - countID id (DatabaseManager.scores db key))%Z /\
  DatabaseManager.getNumScores (fst (DatabaseManager.updateScore db score)) =
    DatabaseManager.getNumScores db.
Proof.
  split; [apply getNumScores_getScores|]. split; [apply getScores_In|].
  split; [|split].
  - intros db' Hk Hi. pose proof (insertScore_cases db score) as H.
    rewrite Hk in H. rewrite scoreExistsInTable_existsb.
    destruct (DatabaseManager.scoreCheck score); [congruence|].
    destruct (existsb _ _).
    + rewrite H in Hi. injection Hi as <-. lia.
    + rewrite H in Hi. injection Hi as <-.
      rewrite getNumScores_setScores, length_app. cbn. lia.
  - unfold DatabaseManager.removeScore. rewrite getNumScores_setScores.
    unfold countID.
    pose proof (length_filter_split (hasID id) (DatabaseManager.scores db key)) as H.
    unfold hasID in *. lia.
  - destruct (updateScore_cases db score) as [->|(k & _ & _ & ->)]; [reflexivity|].
    cbn [fst]. rewrite getNumScores_setScores, length_map. lia.
Qed.

(** X14: looking a score up after a write.  After [removeScore] of an id
    from a table, [scoreExistsInTable] no longer finds that id in that
    table and answers for every other id or table as before; after
    [updateScore] it answers as before everywhere; after an [insertScore]
    that resolved it finds the score's id in the table the score's
    modifier string names and answers as before otherwise. *)
Theorem scoreExistsInTable_after_write (db : DatabaseManager.t)
    (score : MORScore.t) (id id' : Z) (key k : MORMod.t) :
  DatabaseManager.scoreExistsInTable (DatabaseManager.removeScore db id key) id' k =
    (DatabaseManager.scoreExistsInTable db id' k &&
     negb (MORMod.eqb k key && (id' =? id)%Z)) /\
  DatabaseManager.scoreExistsInTable
    (fst (DatabaseManager.updateScore db score)) id' k =
    DatabaseManager.scoreExistsInTable db id' k /\
  (forall db',
     Common.convertOsuMods (Common.modStringToArray (MORScore.mods score)) = Ok key ->
     DatabaseManager.insertScore db score = (db', Ok tt) ->
     DatabaseManager.scoreExistsInTable db' id' k =
       (DatabaseManager.scoreExistsInTable db id' k ||
        (MORMod.eqb k key && (id' =? MORScore.scoreID score)%Z))).
Proof.
  rewrite !scoreExistsInTable_existsb. split; [|split].
  - rewrite removeScore_scores.
    destruct (MORMod.eq_dec k key) as [->|Hne].
    + rewrite MORMod_eqb_refl. cbn [andb].
      induction (DatabaseManager.scores db key) as [|r rows IH]; [reflexivity|].
      cbn [filter existsb]. unfold hasID at 2.
      destruct (Z.eqb_spec (MORScore.scoreID r) id) as [E|E]; cbn [negb].
      * rewrite IH. unfold hasID.
        destruct (Z.eqb_spec (MORScore.scoreID r) id') as [E'|E']; cbn [orb].
        -- assert (id' = id) as -> by congruence. rewrite Z.eqb_refl.
           now rewrite andb_false_r.
        -- reflexivity.
      * cbn [existsb]. rewrite IH. unfold hasID.
        destruct (Z.eqb_spec (MORScore.scoreID r) id') as [E'|E']; cbn [orb].
        -- destruct (Z.eqb_spec id' id); [congruence|reflexivity].
        -- reflexivity.
    + rewrite (MORMod_eqb_neq k key Hne). cbn. now rewrite andb_true_r.
  - destruct (updateScore_cases db score) as [->|(key' & _ & _ & ->)];
      [reflexivity|].
    cbn [fst].
    destruct (MORMod.eq_dec k key') as [->|Hne].
    + rewrite scores_setScores_same.
      induction (DatabaseManager.scores db key') as [|r rows IH]; [reflexivity|].
      cbn [map existsb]. rewrite IH. f_equal. unfold hasID.
      destruct (Z.eqb_spec (MORScore.scoreID r) (MORScore.scoreID score)) as [E|E];
        [now rewrite E|reflexivity].
    + now rewrite scores_setScores_other.
  - intros db' Hk Hi. rewrite scoreExistsInTable_existsb.
    pose proof (insertScore_cases db score) as H. rewrite Hk in H.
    destruct (DatabaseManager.scoreCheck score); [congruence|].
    destruct (existsb (hasID (MORScore.scoreID score))
                      (DatabaseManager.scores db key)) eqn:He;
      rewrite H in Hi; injection Hi as <-.
    + destruct (MORMod.eq_dec k key) as [->|Hne].
      * rewrite MORMod_eqb_refl. cbn [andb].
        destruct (Z.eqb_spec id' (MORScore.scoreID score)) as [->|];
          [now rewrite He|now rewrite orb_false_r].
      * rewrite (MORMod_eqb_neq k key Hne). now rewrite orb_false_r.
    + destruct (MORMod.eq_dec k key) as [->|Hne].
      * rewrite MORMod_eqb_refl, scores_setScores_same, existsb_app. cbn.
        unfold hasID at 2. now rewrite orb_false_r, Z.eqb_sym.
      * rewrite (MORMod_eqb_neq k key Hne), scores_setScores_other by exact Hne.
        now rewrite orb_false_r.
Qed.

(** X15: [insertUser] never changes a stored user and [updateUser] never
    adds or removes one.  [insertUser] of a user whose id USERS already
    holds leaves the database as it is, whatever the other fields; of a
    new user that meets the CHECK constraints it resolves and appends the
    row, the user's id joining [getAutotrackUserIDs] exactly when its
    autotrack flag is set; a second [insertUser] of the same user changes
    nothing.  [updateUser] keeps the ids of USERS and their order, and the
    score tables; it leaves every row with another id as it is, and for
    an id USERS does not hold it resolves without changing anything. *)
Theorem insertUser_and_updateUser (db : DatabaseManager.t) (user : MORUser.t) :
  let stored :=
    existsb (fun r => (MORUser.userID r =? MORUser.userID user)%Z)
            (DatabaseManager.USERS db) in
  (stored = true -> fst (DatabaseManager.insertUser db user) = db) /\
  (stored = false -> DatabaseManager.userCheck user = None ->
   exists db',
     DatabaseManager.insertUser db user = (db', Ok tt) /\
     DatabaseManager.getUsers db' = (DatabaseManager.getUsers db ++ [user])%list /\
     DatabaseManager.scores db' = DatabaseManager.scores db /\
     DatabaseManager.getAutotrackUserIDs db' =
       (DatabaseManager.getAutotrackUserIDs db ++
        if MORUser.autotrack user then [MORUser.userID user] else [])%list) /\
  fst (DatabaseManager.insertUser (fst (DatabaseManager.insertUser db user)) user) =
    fst (DatabaseManager.insertUser db user) /\
  (stored = false -> DatabaseManager.updateUser db user = (db, Ok tt)) /\
  map MORUser.userID (DatabaseManager.getUsers (fst (DatabaseManager.updateUser db user))) =
    map MORUser.userID (DatabaseManager.getUsers db) /\
  DatabaseManager.scores (fst (DatabaseManager.updateUser db user)) =
    DatabaseManager.scores db /\
  (forall r, In r (DatabaseManager.getUsers db) ->
             MORUser.userID r <> MORUser.userID user ->
             In r (DatabaseManager.getUsers (fst (DatabaseManager.updateUser db user)))).
Proof.
  intros stored. pose proof (insertUser_cases db user) as H. fold stored in H.
  split; [|split; [|split; [|split; [|split; [|split]]]]].
  - intros Hs. rewrite Hs in H.
    destruct (DatabaseManager.userCheck user); now rewrite H.
  - intros Hs Hc. rewrite Hs, Hc in H. eexists. split; [exact H|].
    split; [reflexivity|]. split; [reflexivity|].
    unfold DatabaseManager.getAutotrackUserIDs. cbn.
    rewrite filter_app, map_app. cbn. now destruct (MORUser.autotrack user).
  - destruct (DatabaseManager.userCheck user) eqn:Hc.
    + rewrite H. cbn [fst]. now rewrite H.
    + destruct stored eqn:Hs.
      * rewrite H. cbn [fst]. now rewrite H.
      * rewrite H. cbn [fst].
        pose proof (insertUser_cases
                      (DatabaseManager.setUsers db
                         (DatabaseManager.USERS db ++ [user])%list) user) as H'.
        rewrite Hc in H'. cbn [DatabaseManager.USERS DatabaseManager.setUsers] in H'.
        rewrite existsb_app in H'. cbn in H'.
        rewrite Z.eqb_refl, orb_true_r in H'. now rewrite H'.
  - intros Hs. unfold DatabaseManager.updateUser. fold stored. now rewrite Hs.
  - apply updateUser_USERS.
  - apply updateUser_USERS.
  - intros r Hr Hne. unfold DatabaseManager.updateUser.
    destruct (existsb _ _); [|exact Hr].
    destruct (DatabaseManager.userCheck user); [exact Hr|].
    cbn. apply in_map_iff. exists r. split; [|exact Hr].
    destruct (Z.eqb_spec (MORUser.userID r) (MORUser.userID user)); congruence.
Qed.


(** ** What the updater's procedures never do *)

Section LoopFacts.

Import DatabaseManager DatabaseUpdater.

Lemma forOf_keeps {S A : Type} (I : list A -> S -> Prop) (W : S -> Prop)
    (body : S -> A -> Flow S) :
  (forall x rest s, I (x :: rest) s ->
     match body s x with
     | Next s' => I rest s'
     | Return s' => W s'
     | Raise _ s' => W s'
     end) ->
  (forall s, I [] s -> W s) ->
  forall l s, I l s ->
    match forOf body l s with
    | Next s' => I [] s'
    | Return s' => W s'
    | Raise _ s' => W s'
    end.
Proof.
  intros Hbody Hend. induction l as [|x l IH]; intros s Hs; [exact Hs|].
  cbn [forOf]. specialize (Hbody x l s Hs).
  destruct (body s x) as [s'|s'|e s']; [now apply IH|exact Hbody|exact Hbody].
Qed.

Lemma forOf_state {S A : Type} (W : S -> Prop) (body : S -> A -> Flow S) :
  (forall x s, W s -> W (flowState (body s x))) ->
  forall l s, W s -> W (flowState (forOf body l s)).
Proof.
  intros Hbody l s Hs.
  pose proof (forOf_keeps (fun _ => W) W body) as H.
  specialize (H (fun x rest s Hs => ltac:(
    specialize (Hbody x s Hs); destruct (body s x); exact Hbody))
    (fun s Hs => Hs) l s Hs).
  destruct (forOf body l s); exact H.
Qed.

Lemma finish_state {S : Type} (f : Flow S) : fst (finish f) = flowState f.
Proof. now destruct f. Qed.

(** *** getNewScores *)

Lemma appended_refl (osu : OsuApi.t) (db : DatabaseManager.t) : appended osu db db.
Proof.
  split; [reflexivity|]. intros k. exists []. split; [now rewrite app_nil_r|].
  intros r [].
Qed.

Lemma appended_trans (osu : OsuApi.t) (a b c : DatabaseManager.t) :
  appended osu a b -> appended osu b c -> appended osu a c.
Proof.
  intros [HU1 HS1] [HU2 HS2]. split; [congruence|]. intros k.
  destruct (HS1 k) as (add1 & E1 & H1). destruct (HS2 k) as (add2 & E2 & H2).
  exists (add1 ++ add2)%list. split; [now rewrite E2, E1, app_assoc|].
  intros r Hr. apply in_app_or in Hr. destruct Hr; auto.
Qed.

Lemma insertScore_appended (osu : OsuApi.t) (db : DatabaseManager.t)
    (osuScore : OsuScore.t) (score : MORScore.t) :
  Common.osuScoreToMORScore osu osuScore = Ok score ->
  appended osu db (fst (insertScore db score)).
Proof.
  intros Hc. pose proof (insertScore_cases db score) as H.
  destruct (Common.convertOsuMods _) as [key|e]; [|rewrite H; apply appended_refl].
  destruct (scoreCheck score); [rewrite H; apply appended_refl|].
  destruct (existsb _ _); rewrite H; [apply appended_refl|].
  cbn [fst]. split; [reflexivity|]. intros k.
  destruct (MORMod.eq_dec k key) as [->|Hne].
  - exists [score]. rewrite scores_setScores_same. split; [reflexivity|].
    intros r [<-|[]]. now exists osuScore.
  - exists []. rewrite scores_setScores_other by exact Hne.
    split; [now rewrite app_nil_r|]. intros r [].
Qed.

Lemma getNewScores_score_appended (osu : OsuApi.t) (st0 : DatabaseManager.t)
    (userScore : OsuScore.t) (st : DatabaseUpdater.t) :
  (appended osu st0 (dbm st) /\ (filed st0 /\ keyed st0 -> filed (dbm st) /\ keyed (dbm st))) ->
  let st' := flowState (getNewScores_score osu st userScore) in
  appended osu st0 (dbm st') /\
  (filed st0 /\ keyed st0 -> filed (dbm st') /\ keyed (dbm st')).
Proof.
  intros [Ha Hs]. unfold getNewScores_score.
  assert (forall b,
    let st' := flowState
      (if negb b
       then match Common.osuScoreToMORScore osu userScore with
            | Ok dbScore =>
                match insertScore (dbm st) dbScore with
                | (db, Ok _) => Next (withDb st db)
                | (db, Throw e) => Raise e (withDb st db)
                end
            | Throw e => Raise e st
            end
       else Next st) in
    appended osu st0 (dbm st') /\
    (filed st0 /\ keyed st0 -> filed (dbm st') /\ keyed (dbm st'))) as Hrest.
  { intros [|]; cbn [negb]; [now split|].
    destruct (Common.osuScoreToMORScore osu userScore) as [dbScore|e] eqn:Hc;
      [|now split].
    pose proof (insertScore_appended osu (dbm st) userScore dbScore Hc) as Hi.
    pose proof (insertScore_sound (dbm st) dbScore) as Hk.
    destruct (insertScore (dbm st) dbScore) as [db [[]|e]]; cbn in *;
      (split; [now apply (appended_trans osu st0 (dbm st))|auto]). }
  destruct (Common.convertOsuMods (OsuScore.mods userScore)) as [key|error].
  - apply Hrest.
  - destruct (isTypeError error); [now split|apply (Hrest false)].
Qed.

Lemma getNewScores_user_appended (osu : OsuApi.t) (st0 : DatabaseManager.t)
    (userID : Z) (st : DatabaseUpdater.t) :
  (appended osu st0 (dbm st) /\ (filed st0 /\ keyed st0 -> filed (dbm st) /\ keyed (dbm st))) ->
  let st' := flowState (getNewScores_user osu st userID) in
  appended osu st0 (dbm st') /\
  (filed st0 /\ keyed st0 -> filed (dbm st') /\ keyed (dbm st')).
Proof.
  intros H. unfold getNewScores_user.
  repeat match goal with
         | |- context [match OsuApi.getUserScores ?o ?u ?t with _ => _ end] =>
             destruct (OsuApi.getUserScores o u t); [|exact H]
         end.
  destruct (spread4 _ _ _ _); [|exact H].
  apply (forOf_state
           (fun s => appended osu st0 (dbm s) /\
                     (filed st0 /\ keyed st0 -> filed (dbm s) /\ keyed (dbm s))));
    [|exact H].
  intros x s Hs. now apply getNewScores_score_appended.
Qed.

End LoopFacts.

(** X16: [getNewScores] only ever appends.  Whatever the API answers, also
    when the procedure stops early or throws, it leaves USERS as it is and
    every score table as it was with rows appended, each of them converted
    from a score of the API by [osuScoreToMORScore]; and a database whose
    rows are in the tables their modifier strings name and whose primary
    keys hold is still such a database afterwards. *)
Theorem getNewScores_only_appends (osu : OsuApi.t) (st : DatabaseUpdater.t) :
  let db := DatabaseUpdater.dbm st in
  let db' := DatabaseUpdater.dbm (fst (DatabaseUpdater.getNewScores osu st)) in
  appended osu db db' /\
  (forall k r, In r (DatabaseManager.scores db k) -> In r (DatabaseManager.scores db' k)) /\
  (DatabaseManager.getNumScores db <= DatabaseManager.getNumScores db')%Z /\
  (filed db /\ keyed db -> filed db' /\ keyed db').
Proof.
  intros db db'.
  assert (appended osu db db' /\ (filed db /\ keyed db -> filed db' /\ keyed db'))
    as [Ha Hs].
  { unfold db', DatabaseUpdater.getNewScores. rewrite finish_state.
    apply (forOf_state
             (fun s => appended osu db (DatabaseUpdater.dbm s) /\
                       (filed db /\ keyed db ->
                        filed (DatabaseUpdater.dbm s) /\ keyed (DatabaseUpdater.dbm s)))).
    - intros x s Hs. now apply getNewScores_user_appended.
    - split; [apply appended_refl|auto]. }
  split; [exact Ha|]. split; [|split; [|exact Hs]].
  - intros k r Hr. destruct Ha as [_ Ha]. destruct (Ha k) as (added & -> & _).
    apply in_or_app. now left.
  - rewrite !getNumScores_getScores. unfold DatabaseManager.getScores.
    apply inj_le. destruct Ha as [_ Ha].
    induction MORMod.keys as [|k keys IH]; [reflexivity|].
    cbn [flat_map]. rewrite !length_app.
    destruct (Ha k) as (added & -> & _). rewrite length_app. lia.
Qed.

Section PruneFacts.

Import DatabaseManager DatabaseUpdater.

Variable osu : OsuApi.t.
Variable db0 : DatabaseManager.t.

Lemma pruned_refl : pruned osu db0 db0.
Proof.
  split; [reflexivity|]. intros k. exists []. split; [|intros id []].
  unfold without. cbn. symmetry. apply filter_all. reflexivity.
Qed.

Lemma pruned_removeScore (db : DatabaseManager.t) (key : MORMod.t)
    (dbScore : MORScore.t) :
  pruned osu db0 db ->
  In dbScore (duplicatesOf (scores db0 key)) ->
  stale osu dbScore = true ->
  pruned osu db0 (removeScore db (MORScore.scoreID dbScore) key).
Proof.
  intros [HU HS] Hin Hst. split; [exact HU|]. intros k.
  rewrite removeScore_scores. destruct (MORMod.eq_dec k key) as [->|Hne].
  - rewrite MORMod_eqb_refl. destruct (HS key) as (removed & E & Hr).
    exists (MORScore.scoreID dbScore :: removed). split.
    + rewrite E. unfold without. rewrite filter_filter. apply filter_ext.
      intros r. cbn [existsb]. rewrite negb_orb. apply andb_comm.
    + intros id [<-|Hid]; [now exists dbScore|now apply Hr].
  - rewrite (MORMod_eqb_neq k key Hne). apply HS.
Qed.

Lemma removeDuplicateScores_score_pruned (key : MORMod.t) (st1 : DatabaseManager.t)
    (D : list MORScore.t) (acc : DatabaseUpdater.t * Z) :
  pruned osu db0 (dbm (fst acc)) ->
  (forall k, k <> key -> scores (dbm (fst acc)) k = scores st1 k) ->
  Forall (fun d => In d (duplicatesOf (scores db0 key))) D ->
  match forOf (removeDuplicateScores_score osu key) D acc with
  | Next acc' =>
      pruned osu db0 (dbm (fst acc')) /\
      forall k, k <> key -> scores (dbm (fst acc')) k = scores st1 k
  | Return acc' => pruned osu db0 (dbm (fst acc'))
  | Raise _ acc' => pruned osu db0 (dbm (fst acc'))
  end.
Proof.
  intros Hp Ho HD.
  pose proof (forOf_keeps
    (fun rest acc =>
       pruned osu db0 (dbm (fst acc)) /\
       (forall k, k <> key -> scores (dbm (fst acc)) k = scores st1 k) /\
       Forall (fun d => In d (duplicatesOf (scores db0 key))) rest)
    (fun acc => pruned osu db0 (dbm (fst acc)))
    (removeDuplicateScores_score osu key)) as H.
  assert (forall x rest acc,
    pruned osu db0 (dbm (fst acc)) /\
    (forall k, k <> key -> scores (dbm (fst acc)) k = scores st1 k) /\
    Forall (fun d => In d (duplicatesOf (scores db0 key))) (x :: rest) ->
    match removeDuplicateScores_score osu key acc x with
    | Next s' =>
        pruned osu db0 (dbm (fst s')) /\
        (forall k, k <> key -> scores (dbm (fst s')) k = scores st1 k) /\
        Forall (fun d => In d (duplicatesOf (scores db0 key))) rest
    | Return s' => pruned osu db0 (dbm (fst s'))
    | Raise _ s' => pruned osu db0 (dbm (fst s'))
    end) as Hbody.
  { intros x rest [s n] (Hp' & Ho' & HD'). inversion HD' as [|? ? Hx Hrest]; subst.
    cbn [fst] in *. unfold removeDuplicateScores_score.
    assert (forall entry,
      pruned osu db0 (dbm s) ->
      stale osu x = true ->
      pruned osu db0
        (dbm (withDb (logged s entry) (removeScore (dbm s) (MORScore.scoreID x) key))) /\
      (forall k, k <> key ->
         scores (dbm (withDb (logged s entry)
                        (removeScore (dbm s) (MORScore.scoreID x) key))) k
         = scores st1 k)) as Hrm.
    { intros entry Hps Hst. cbn [dbm withDb]. split.
      - now apply pruned_removeScore.
      - intros k Hne. rewrite removeScore_scores, (MORMod_eqb_neq k key Hne).
        now apply Ho'. }
    destruct (OsuApi.getScore osu (MORScore.scoreID x)) as [[osuScore|]|e] eqn:Hg.
    - destruct (negb (String.eqb (MORScore.date x) (OsuScore.created_at osuScore)))
        eqn:Hd.
      + destruct (Hrm (InfoDivergeRemoving key (MORScore.scoreID x)) Hp')
          as [H1 H2]; [unfold stale; now rewrite Hg|].
        cbn [fst]. split; [exact H1|]. split; [exact H2|exact Hrest].
      + cbn [fst]. split; [exact Hp'|]. split; [exact Ho'|exact Hrest].
    - destruct (Hrm (InfoNotFoundRemoving key (MORScore.scoreID x)) Hp')
        as [H1 H2]; [unfold stale; now rewrite Hg|].
      cbn [fst]. split; [exact H1|]. split; [exact H2|exact Hrest].
    - exact Hp'. }
  specialize (H Hbody (fun s Hs => proj1 Hs) D acc (conj Hp (conj Ho HD))).
  destruct (forOf _ D acc); [|exact H|exact H].
  destruct H as (H1 & H2 & _). now split.
Qed.

Lemma removeDuplicateScores_key_pruned (keys : list MORMod.t)
    (acc : DatabaseUpdater.t * Z) :
  NoDup keys ->
  pruned osu db0 (dbm (fst acc)) ->
  (forall k, In k keys -> scores (dbm (fst acc)) k = scores db0 k) ->
  pruned osu db0
    (dbm (fst (flowState (forOf (removeDuplicateScores_key osu) keys acc)))).
Proof.
  intros Hnd Hp Hk.
  pose proof (forOf_keeps
    (fun rest acc =>
       NoDup rest /\ pruned osu db0 (dbm (fst acc)) /\
       forall k, In k rest -> scores (dbm (fst acc)) k = scores db0 k)
    (fun acc => pruned osu db0 (dbm (fst acc)))
    (removeDuplicateScores_key osu)) as H.
  assert (forall x rest acc,
    NoDup (x :: rest) /\ pruned osu db0 (dbm (fst acc)) /\
    (forall k, In k (x :: rest) -> scores (dbm (fst acc)) k = scores db0 k) ->
    match removeDuplicateScores_key osu acc x with
    | Next s' =>
        NoDup rest /\ pruned osu db0 (dbm (fst s')) /\
        forall k, In k rest -> scores (dbm (fst s')) k = scores db0 k
    | Return s' => pruned osu db0 (dbm (fst s'))
    | Raise _ s' => pruned osu db0 (dbm (fst s'))
    end) as Hbody.
  { intros x rest a (Hnd' & Hp' & Hk'). inversion Hnd' as [|? ? Hx Hrest]; subst.
    unfold removeDuplicateScores_key.
    pose proof (removeDuplicateScores_score_pruned x (dbm (fst a))
                  (getDuplicateScores (dbm (fst a)) x) a Hp'
                  (fun k _ => eq_refl)) as Hin.
    assert (Forall (fun d => In d (duplicatesOf (scores db0 x)))
                   (getDuplicateScores (dbm (fst a)) x)) as HD.
    { rewrite getDuplicateScores_duplicatesOf, (Hk' x) by now left.
      apply Forall_forall. auto. }
    specialize (Hin HD).
    destruct (forOf _ _ a) as [s'|s'|e s']; [|exact Hin|exact Hin].
    destruct Hin as [H1 H2]. split; [exact Hrest|]. split; [exact H1|].
    intros k Hin. rewrite H2; [apply Hk'; now right|].
    intros ->. contradiction. }
  specialize (H Hbody (fun s Hs => proj1 (proj2 Hs)) keys acc
                (conj Hnd (conj Hp Hk))).
  destruct (forOf _ keys acc); cbn [flowState]; [apply H|exact H|exact H].
Qed.

End PruneFacts.

(** X17: [removeDuplicateScores] only ever deletes stale duplicates.
    Whatever the API answers, also when the procedure throws half-way, it
    leaves USERS as it is and adds no row; and a row goes only when its
    id is that of a row [getDuplicateScores] reports for its table which
    the API does not find or finds with another date: every row whose id
    is the id of no such row is still there afterwards.  A database whose
    rows are in the tables their modifier strings name and whose primary
    keys hold is still such a database afterwards. *)
Theorem removeDuplicateScores_only_prunes (osu : OsuApi.t) (st : DatabaseUpdater.t) :
  let db := DatabaseUpdater.dbm st in
  let db' := DatabaseUpdater.dbm (fst (DatabaseUpdater.removeDuplicateScores osu st)) in
  pruned osu db db' /\
  (forall k r, In r (DatabaseManager.scores db' k) -> In r (DatabaseManager.scores db k)) /\
  (forall k r,
     In r (DatabaseManager.scores db k) ->
     (forall d, In d (DatabaseManager.getDuplicateScores db k) ->
                MORScore.scoreID d = MORScore.scoreID r -> stale osu d = false) ->
     In r (DatabaseManager.scores db' k)) /\
  (filed db /\ keyed db -> filed db' /\ keyed db').
Proof.
  intros db db'.
  assert (pruned osu db db') as Hp.
  { unfold db', DatabaseUpdater.removeDuplicateScores.
    pose proof (removeDuplicateScores_key_pruned osu db MORMod.keys (st, 0%Z)
                  MORMod_keys_NoDup (pruned_refl osu db) (fun k _ => eq_refl)) as H.
    destruct (DatabaseUpdater.forOf _ MORMod.keys (st, 0%Z)) as [[s n]|[s n]|e [s n]];
      exact H. }
  split; [exact Hp|]. destruct Hp as [HU HS].
  split; [|split].
  - intros k r. destruct (HS k) as (removed & -> & _). unfold without.
    intros H. now apply filter_In in H.
  - intros k r Hr Hd. destruct (HS k) as (removed & -> & Hrem). unfold without.
    apply filter_In. split; [exact Hr|]. apply negb_true_iff.
    apply not_true_is_false. intros E. apply existsb_exists in E.
    destruct E as (id & Hid & E). apply Z.eqb_eq in E.
    destruct (Hrem id Hid) as (d & Hin & Hdid & Hst).
    rewrite getDuplicateScores_duplicatesOf in Hd.
    rewrite (Hd d Hin) in Hst; [discriminate|congruence].
  - intros [Hf [HK1 HK2]]. split; [|split].
    + intros k r Hr. destruct (HS k) as (removed & E & _). rewrite E in Hr.
      unfold without in Hr. apply filter_In in Hr. now apply Hf.
    + unfold uniqueUsers. now rewrite HU.
    + intros k. destruct (HS k) as (removed & -> & _).
      apply NoDup_map_filter, HK2.
Qed.

Section TrackingFacts.

Import DatabaseManager DatabaseUpdater.

Lemma getAutotrackUserIDs_tracking (db : DatabaseManager.t) :
  getAutotrackUserIDs db = map fst (filter snd (tracking db)).
Proof.
  unfold getAutotrackUserIDs, tracking.
  induction (USERS db) as [|u rows IH]; [reflexivity|]. cbn.
  destruct (MORUser.autotrack u); cbn; now rewrite IH.
Qed.

Lemma tracking_userIDs (db : DatabaseManager.t) :
  map fst (tracking db) = map MORUser.userID (USERS db).
Proof. unfold tracking. rewrite map_map. reflexivity. Qed.

Lemma tracking_updateUser (db : DatabaseManager.t) (user : MORUser.t) :
  (forall r, In r (USERS db) -> MORUser.userID r = MORUser.userID user ->
             MORUser.autotrack r = MORUser.autotrack user) ->
  tracking (fst (updateUser db user)) = tracking db.
Proof.
  intros H. unfold updateUser. destruct (existsb _ _); [|reflexivity].
  destruct (userCheck user); [reflexivity|]. unfold tracking. cbn.
  rewrite map_map. apply map_ext_in. intros r Hr.
  destruct (Z.eqb_spec (MORUser.userID r) (MORUser.userID user)) as [E|E];
    [|reflexivity].
  now rewrite (H r Hr E), E.
Qed.

Variable osu : OsuApi.t.
Variable db0 : DatabaseManager.t.
Hypothesis users_unique : uniqueUsers (USERS db0).

Let kept (st : DatabaseUpdater.t) : Prop :=
  scores (dbm st) = scores db0 /\ tracking (dbm st) = tracking db0.

Lemma updateUsers_user_kept (tables : list (MORMod.t * list MORScore.t))
    (osuUser : OsuUser.t) (st : DatabaseUpdater.t) :
  kept st -> kept (flowState (updateUsers_user (USERS db0) tables st osuUser)).
Proof.
  intros [Hs Ht]. unfold updateUsers_user.
  destruct (find _ (USERS db0)) as [dbUser|] eqn:Hfind; [|now split].
  apply find_some in Hfind. destruct Hfind as [Hin Hid]. apply Z.eqb_eq in Hid.
  destruct (countTops _ _ _) as [[[top1s top2s] top3s]|e]; [|now split].
  set (user := updatedUser osuUser dbUser (top1s, top2s, top3s)).
  assert (tracking (fst (updateUser (dbm st) user)) = tracking (dbm st)) as Hk.
  { apply tracking_updateUser. intros r Hr Hrid.
    assert (In (MORUser.userID r, MORUser.autotrack r) (tracking db0)) as Hp.
    { rewrite <- Ht. unfold tracking. apply in_map_iff. now exists r. }
    unfold tracking in Hp. apply in_map_iff in Hp.
    destruct Hp as (r0 & Hr0 & Hin0). injection Hr0 as Hid0 Ha0.
    assert (r0 = dbUser) as ->.
    { apply (uniqueUsers_eq (USERS db0)); auto.
      rewrite Hid0, Hrid, Hid. reflexivity. }
    now rewrite <- Ha0. }
  destruct (updateUser_USERS (dbm st) user) as [Hsc _].
  destruct (updateUser (dbm st) user) as [db [[]|e]];
    cbn [fst flowState dbm withDb] in *; unfold kept; cbn [dbm withDb];
    (split; [now rewrite Hsc|now rewrite Hk]).
Qed.

Lemma updateUsers_chunks_kept (tables : list (MORMod.t * list MORScore.t)) :
  forall fuel i st,
    kept st ->
    kept (flowState (updateUsers_chunks fuel osu (USERS db0) tables i st)).
Proof.
  induction fuel as [|fuel IH]; intros i st Hk; [exact Hk|].
  cbn [updateUsers_chunks]. destruct (i <? _)%nat; [|exact Hk].
  destruct (OsuApi.getUsers osu _) as [[osuUserChunk|]|e]; try exact Hk.
  pose proof (forOf_state kept (updateUsers_user (USERS db0) tables)
                (fun x s Hs => updateUsers_user_kept tables x s Hs)
                osuUserChunk st Hk) as H.
  destruct (forOf _ osuUserChunk st) as [st'|st'|e st']; cbn [flowState] in *;
    [now apply IH|exact H|exact H].
Qed.

End TrackingFacts.

(** X18: [updateUsers] never changes who is stored or who is tracked.  For
    stored users with unique ids, whatever the API answers and also when
    the procedure throws half-way, the score tables are as before and
    USERS holds the same ids in the same order, each with the autotrack
    flag it had, so that [getAutotrackUserIDs] answers as before. *)
Theorem updateUsers_keeps_tracking (osu : OsuApi.t) (st : DatabaseUpdater.t) :
  uniqueUsers (DatabaseManager.USERS (DatabaseUpdater.dbm st)) ->
  let db := DatabaseUpdater.dbm st in
  let db' := DatabaseUpdater.dbm (fst (DatabaseUpdater.updateUsers osu st)) in
  DatabaseManager.scores db' = DatabaseManager.scores db /\
  tracking db' = tracking db /\
  map MORUser.userID (DatabaseManager.getUsers db') =
    map MORUser.userID (DatabaseManager.getUsers db) /\
  DatabaseManager.getAutotrackUserIDs db' = DatabaseManager.getAutotrackUserIDs db.
Proof.
  intros Hu db db'.
  assert (DatabaseManager.scores db' = DatabaseManager.scores db /\
          tracking db' = tracking db) as [Hs Ht].
  { unfold db', DatabaseUpdater.updateUsers. rewrite finish_state.
    apply (updateUsers_chunks_kept osu db Hu). now split. }
  split; [exact Hs|]. split; [exact Ht|]. split.
  - unfold DatabaseManager.getUsers. now rewrite <- !tracking_userIDs, Ht.
  - now rewrite !getAutotrackUserIDs_tracking, Ht.
Qed.

Lemma updateUsers_keeps_tracking_witness :
  let user id track :=
    MORUser.mk id "user" "CA" (Some 1%Z) 100 99 0 0 0 0 0 "avatar" 0 0 0 track in
  let payload id :=
    OsuUser.mk id "renamed" "CA" (Some 2%Z) 200 98 1 1 1 1 1 "avatar" in
  let osu :=
    OsuApi.mk (fun ids => Ok (Some (map payload ids))) (fun _ => Ok None)
      (fun _ _ => Ok (Some [])) (fun _ _ => Ok None) in
  let st := DatabaseUpdater.mk
              (DatabaseManager.mk [user 1%Z true; user 2%Z false] (fun _ => [])) [] in
  DatabaseManager.getAutotrackUserIDs
    (DatabaseUpdater.dbm (fst (DatabaseUpdater.updateUsers osu st))) = [1%Z].
Proof.
  intros user payload osu st.
  apply (updateUsers_keeps_tracking osu st).
  repeat constructor; cbn; intros H;
    repeat (destruct H as [H|H]; [discriminate|]); exact H.
Defined.

Section RefreshFacts.

Import DatabaseManager DatabaseUpdater.

Variable osu : OsuApi.t.
Variable db0 : DatabaseManager.t.

Lemma map_filter_scoreID (p : Z -> bool) (rows : list MORScore.t) :
  map MORScore.scoreID (filter (fun r => p (MORScore.scoreID r)) rows) =
  filter p (map MORScore.scoreID rows).
Proof.
  induction rows as [|r rows IH]; [reflexivity|]. cbn.
  destruct (p (MORScore.scoreID r)); cbn; now rewrite IH.
Qed.

Lemma sameIDsBut_refl : sameIDsBut osu db0 db0.
Proof.
  split; [reflexivity|]. intros k. exists []. split; [|intros id []].
  cbn. symmetry. apply filter_all. reflexivity.
Qed.

Lemma sameIDsBut_removeScore (db : DatabaseManager.t) (id : Z) (key : MORMod.t) :
  sameIDsBut osu db0 db ->
  OsuApi.getScore osu id = Ok None ->
  sameIDsBut osu db0 (removeScore db id key).
Proof.
  intros [HU HS] Hg. split; [exact HU|]. intros k.
  rewrite removeScore_scores. destruct (MORMod.eq_dec k key) as [->|Hne].
  - rewrite MORMod_eqb_refl. destruct (HS key) as (removed & E & Hr).
    exists (id :: removed). split.
    + rewrite (map_filter_scoreID (fun i => negb (i =? id)%Z)), E, filter_filter.
      apply filter_ext. intros i. cbn [existsb]. rewrite negb_orb. apply andb_comm.
    + intros i [<-|Hi]; [exact Hg|now apply Hr].
  - rewrite (MORMod_eqb_neq k key Hne). apply HS.
Qed.

Lemma sameIDsBut_updateScore (db : DatabaseManager.t) (score : MORScore.t) :
  sameIDsBut osu db0 db ->
  sameIDsBut osu db0 (fst (updateScore db score)).
Proof.
  intros [HU HS].
  destruct (updateScore_cases db score) as [->|(key & _ & _ & ->)]; [now split|].
  cbn [fst]. split; [exact HU|]. intros k.
  destruct (MORMod.eq_dec k key) as [->|Hne].
  - rewrite scores_setScores_same, map_replace_ids. apply HS.
  - rewrite scores_setScores_other by exact Hne. apply HS.
Qed.

Let kept (st : DatabaseUpdater.t) : Prop :=
  sameIDsBut osu db0 (dbm st) /\
  (filed db0 /\ keyed db0 -> filed (dbm st) /\ keyed (dbm st)).

Lemma updateScores_score_kept (key : MORMod.t) (score : MORScore.t)
    (st : DatabaseUpdater.t) :
  kept st -> kept (flowState (updateScores_score osu key st score)).
Proof.
  intros [Hi Hs]. unfold updateScores_score.
  destruct (OsuApi.getScore osu (MORScore.scoreID score)) as [[updatedScore|]|e]
    eqn:Hg; [| |now split].
  - destruct (Common.osuScoreToMORScore osu updatedScore) as [dbScore|e];
      [|now split].
    pose proof (sameIDsBut_updateScore (dbm st) dbScore Hi) as H1.
    pose proof (updateScore_sound (dbm st) dbScore) as H2.
    destruct (updateScore (dbm st) dbScore) as [db [[]|e]];
      cbn [fst flowState] in *; unfold kept; cbn [dbm withDb]; split; auto.
  - cbn [flowState]. unfold kept. cbn [dbm withDb]. split.
    + now apply sameIDsBut_removeScore.
    + intros H. apply removeScore_sound. auto.
Qed.

Lemma updateScores_key_kept (key : MORMod.t) (st : DatabaseUpdater.t) :
  kept st -> kept (flowState (updateScores_key osu st key)).
Proof.
  intros Hk. unfold updateScores_key.
  apply (forOf_state kept); [|exact Hk].
  intros x s Hs. now apply updateScores_score_kept.
Qed.

Lemma updateScores_kept (st : DatabaseUpdater.t) :
  dbm st = db0 ->
  sameIDsBut osu db0 (dbm (fst (updateScores osu st))) /\
  (filed db0 /\ keyed db0 ->
   filed (dbm (fst (updateScores osu st))) /\ keyed (dbm (fst (updateScores osu st)))).
Proof.
  intros E. unfold updateScores. rewrite finish_state.
  apply (forOf_state kept).
  - intros x s Hs. now apply updateScores_key_kept.
  - unfold kept. rewrite E. split; [apply sameIDsBut_refl|auto].
Qed.

End RefreshFacts.

(** X19: [updateScores] never adds a score, never moves one to another
    table and deletes only what the API does not find.  Whatever the API
    answers, also when the procedure throws half-way, USERS is as before
    and each table holds the ids it held, in the same order, without some
    ids for which [getScore] answered undefined: an id found in a table
    afterwards was in that table before, and an id for which [getScore]
    does not answer undefined stays in its table.  A database whose rows
    are in the tables their modifier strings name and whose primary keys
    hold is still such a database afterwards. *)
Theorem updateScores_keeps_ids (osu : OsuApi.t) (st : DatabaseUpdater.t) :
  let db := DatabaseUpdater.dbm st in
  let db' := DatabaseUpdater.dbm (fst (DatabaseUpdater.updateScores osu st)) in
  sameIDsBut osu db db' /\
  (forall k id, DatabaseManager.scoreExistsInTable db' id k = true ->
                DatabaseManager.scoreExistsInTable db id k = true) /\
  (forall k id, DatabaseManager.scoreExistsInTable db id k = true ->
                OsuApi.getScore osu id <> Ok None ->
                DatabaseManager.scoreExistsInTable db' id k = true) /\
  (filed db /\ keyed db -> filed db' /\ keyed db').
Proof.
  intros db db'.
  destruct (updateScores_kept osu db st eq_refl) as [Hi Hs]. fold db' in Hi, Hs.
  split; [exact Hi|]. destruct Hi as [HU HS].
  assert (forall d id k,
            DatabaseManager.scoreExistsInTable d id k = true <->
            In id (map MORScore.scoreID (DatabaseManager.scores d k))) as Hex.
  { intros d id k. rewrite scoreExistsInTable_existsb, existsb_exists, in_map_iff.
    unfold hasID. split; intros (r & H1 & H2).
    - exists r. split; [now apply Z.eqb_eq|exact H1].
    - exists r. split; [exact H2|now apply Z.eqb_eq]. }
  split; [|split; [|exact Hs]].
  - intros k id. rewrite !Hex. destruct (HS k) as (removed & -> & _).
    intros H. now apply filter_In in H.
  - intros k id. rewrite !Hex. destruct (HS k) as (removed & -> & Hr).
    intros Hin Hg. apply filter_In. split; [exact Hin|].
    apply negb_true_iff, not_true_is_false. intros E.
    apply existsb_exists in E. destruct E as (i & Hi & E).
    apply Z.eqb_eq in E. subst i. now apply Hg, Hr.
Qed.

Section RenewFacts.

Import DatabaseManager DatabaseUpdater.

Variable osu : OsuApi.t.

Lemma renewed_app (a b : list MORScore.t) :
  renewed osu (a ++ b) = (renewed osu a ++ renewed osu b)%list.
Proof. unfold renewed. apply flat_map_app. Qed.

Lemma renewed_ids (key : MORMod.t) (rows : list MORScore.t) (id : Z) :
  (forall r, In r rows -> answered osu key r) ->
  In id (map MORScore.scoreID (renewed osu rows)) ->
  In id (map MORScore.scoreID rows).
Proof.
  intros Ha. induction rows as [|r rows IH]; [intros []|].
  change (renewed osu (r :: rows))
    with ((match renewedRow osu r with Some r' => [r'] | None => [] end)
          ++ renewed osu rows)%list.
  rewrite map_app. intros H. apply in_app_or in H. cbn [map].
  destruct H as [H|H].
  - left. unfold renewedRow in H.
    destruct (Ha r (or_introl eq_refl)) as [Hg|(s & r' & Hg & Hc & Hid & _)];
      rewrite Hg in H; [destruct H|].
    rewrite Hc in H. destruct H as [<-|[]]. congruence.
  - right. apply IH; [|exact H]. intros x Hx. apply Ha. now right.
Qed.

Lemma filter_not_id (id : Z) (rows : list MORScore.t) :
  ~ In id (map MORScore.scoreID rows) ->
  filter (fun r => negb (MORScore.scoreID r =? id)%Z) rows = rows.
Proof.
  intros H. apply filter_all. intros r Hr. apply negb_true_iff, Z.eqb_neq.
  intros E. apply H. apply in_map_iff. now exists r.
Qed.

Lemma replace_not_id (x : MORScore.t) (rows : list MORScore.t) :
  ~ In (MORScore.scoreID x) (map MORScore.scoreID rows) ->
  map (fun r => if (MORScore.scoreID r =? MORScore.scoreID x)%Z then x else r) rows
  = rows.
Proof.
  intros H. rewrite <- (map_id rows) at 2. apply map_ext_in. intros r Hr.
  destruct (Z.eqb_spec (MORScore.scoreID r) (MORScore.scoreID x)) as [E|E];
    [|reflexivity].
  exfalso. apply H. apply in_map_iff. now exists r.
Qed.

Lemma updateScores_score_loop (key : MORMod.t) :
  forall rest done st,
    NoDup (map MORScore.scoreID (done ++ rest)) ->
    (forall r, In r (done ++ rest) -> answered osu key r) ->
    scores (dbm st) key = (renewed osu done ++ rest)%list ->
    exists st',
      forOf (updateScores_score osu key) rest st = Next st' /\
      USERS (dbm st') = USERS (dbm st) /\
      scores (dbm st') key = renewed osu (done ++ rest) /\
      forall k, k <> key -> scores (dbm st') k = scores (dbm st) k.
Proof.
  induction rest as [|x rest IH]; intros done st Hnd Ha Ht.
  - exists st. cbn [forOf]. rewrite app_nil_r in *. auto.
  - assert (~ In (MORScore.scoreID x) (map MORScore.scoreID (renewed osu done)) /\
            ~ In (MORScore.scoreID x) (map MORScore.scoreID rest)) as [Hx1 Hx2].
    { rewrite map_app in Hnd. cbn [map] in Hnd.
      apply NoDup_remove_2 in Hnd. split.
      - intros H. apply Hnd, in_or_app. left.
        apply (renewed_ids key); [|exact H].
        intros r Hr. apply Ha, in_or_app. now left.
      - intros H. apply Hnd, in_or_app. now right. }
    assert (exists st1,
      updateScores_score osu key st x = Next st1 /\
      USERS (dbm st1) = USERS (dbm st) /\
      scores (dbm st1) key = (renewed osu (done ++ [x]) ++ rest)%list /\
      forall k, k <> key -> scores (dbm st1) k = scores (dbm st) k) as Hstep.
    { unfold updateScores_score. rewrite renewed_app.
      change (renewed osu [x])
        with ((match renewedRow osu x with Some r' => [r'] | None => [] end)
              ++ [])%list.
      unfold renewedRow.
      assert (In x (done ++ x :: rest)) as Hin by (apply in_or_app; right; now left).
      destruct (Ha x Hin)
        as [Hg|(s & r' & Hg & Hc & Hid & Hkey & Hcheck)]; rewrite Hg.
      - eexists. split; [reflexivity|]. cbn [dbm withDb]. split; [reflexivity|].
        split.
        + rewrite removeScore_scores, MORMod_eqb_refl, Ht, filter_app.
          cbn [filter]. rewrite Z.eqb_refl. cbn [negb].
          rewrite (filter_not_id _ _ Hx1), (filter_not_id _ _ Hx2).
          now rewrite !app_nil_r.
        + intros k Hne. rewrite removeScore_scores. now rewrite (MORMod_eqb_neq k key Hne).
      - rewrite Hc. unfold updateScore. rewrite Hkey, Hcheck, Hid, Ht.
        rewrite existsb_app. cbn [existsb]. rewrite Z.eqb_refl, orb_true_r.
        eexists. split; [reflexivity|]. cbn [dbm withDb]. split; [reflexivity|].
        split.
        + rewrite scores_setScores_same, map_app. cbn [map].
          rewrite Z.eqb_refl, <- Hid.
          rewrite (replace_not_id r'), (replace_not_id r');
            [|now rewrite Hid|now rewrite Hid].
          now rewrite <- !app_assoc.
        + intros k Hne. now apply scores_setScores_other. }
    destruct Hstep as (st1 & Hrun & HU1 & Ht1 & Ho1).
    destruct (IH (done ++ [x])%list st1) as (st' & Hrun' & HU' & Ht' & Ho').
    + now rewrite <- app_assoc.
    + intros r Hr. apply Ha. now rewrite <- app_assoc in Hr.
    + exact Ht1.
    + exists st'. cbn [forOf]. rewrite Hrun. split; [exact Hrun'|].
      split; [congruence|]. split.
      * rewrite Ht'. now rewrite <- app_assoc.
      * intros k Hne. rewrite (Ho' k Hne). now apply Ho1.
Qed.

Lemma updateScores_key_loop :
  forall keys st,
    NoDup keys ->
    (forall k, In k keys -> uniqueIDs (scores (dbm st) k)) ->
    (forall k r, In k keys -> In r (scores (dbm st) k) -> answered osu k r) ->
    exists st',
      forOf (updateScores_key osu) keys st = Next st' /\
      USERS (dbm st') = USERS (dbm st) /\
      forall k, scores (dbm st') k =
                if existsb (MORMod.eqb k) keys
                then renewed osu (scores (dbm st) k) else scores (dbm st) k.
Proof.
  induction keys as [|key keys IH]; intros st Hnd Hu Ha.
  - exists st. repeat split.
  - inversion Hnd as [|? ? Hkey Hnd']; subst.
    destruct (updateScores_score_loop key (scores (dbm st) key) [] st)
      as (st1 & Hrun & HU1 & Ht1 & Ho1).
    + apply Hu. now left.
    + intros r Hr. apply Ha; [now left|exact Hr].
    + reflexivity.
    + destruct (IH st1 Hnd') as (st' & Hrun' & HU' & Ht').
      * intros k Hk. rewrite Ho1; [apply Hu; now right|]. intros ->. contradiction.
      * intros k r Hk. rewrite Ho1; [apply Ha; now right|]. intros ->. contradiction.
      * exists st'. cbn [forOf]. unfold updateScores_key at 1.
        unfold getTableScores. rewrite Hrun. split; [exact Hrun'|].
        split; [congruence|]. intros k. rewrite Ht'. cbn [existsb].
        destruct (MORMod.eq_dec k key) as [->|Hne].
        -- rewrite MORMod_eqb_refl. cbn [orb].
           assert (existsb (MORMod.eqb key) keys = false) as ->.
           { apply not_true_is_false. intros E. apply existsb_exists in E.
             destruct E as (y & Hy & E). unfold MORMod.eqb in E.
             destruct (MORMod.eq_dec key y); [now subst|discriminate]. }
           exact Ht1.
        -- rewrite (MORMod_eqb_neq k key Hne). cbn [orb].
           now rewrite (Ho1 k Hne).
Qed.

End RenewFacts.

(** X20: [updateScores] renews every row.  For tables with unique ids and
    an API that, for each stored row, either does not find the score or
    holds a score converting to a row with the same id in the same table
    that meets the CHECK constraints, [updateScores] resolves, leaves
    USERS as it is, and leaves each table holding, in the order of its
    rows, the row converted from the API's score for each row the API
    finds, and nothing for the rows it does not find. *)
Theorem updateScores_renews (osu : OsuApi.t) (st : DatabaseUpdater.t) :
  (forall k, uniqueIDs (DatabaseManager.scores (DatabaseUpdater.dbm st) k)) ->
  (forall k r, In r (DatabaseManager.scores (DatabaseUpdater.dbm st) k) ->
               answered osu k r) ->
  exists st',
    DatabaseUpdater.updateScores osu st = (st', Ok tt) /\
    DatabaseManager.USERS (DatabaseUpdater.dbm st') =
      DatabaseManager.USERS (DatabaseUpdater.dbm st) /\
    forall k, DatabaseManager.scores (DatabaseUpdater.dbm st') k =
              renewed osu (DatabaseManager.scores (DatabaseUpdater.dbm st) k).
Proof.
  intros Hu Ha.
  destruct (updateScores_key_loop osu MORMod.keys st MORMod_keys_NoDup
              (fun k _ => Hu k) (fun k r _ => Ha k r)) as (st' & Hrun & HU & HS).
  exists st'. unfold DatabaseUpdater.updateScores. rewrite Hrun.
  split; [reflexivity|]. split; [exact HU|]. intros k. rewrite HS.
  assert (existsb (MORMod.eqb k) MORMod.keys = true) as ->; [|reflexivity].
  apply existsb_exists. exists k. split; [apply MORMod_keys_complete|].
  apply MORMod_eqb_refl.
Qed.

Lemma updateScores_renews_witness :
  let row id pp := MORScore.mk id 1 3 "user" "artist - title [diff]" "HD" pp 99 5
                     "2024-01-01T00:00:00Z" "cover" in
  let osuScore :=
    OsuScore.mk 9 1 "user" 3 "diff" 5 "artist" "title" "cover" ["HD"] 120 99
      "2024-01-01T00:00:00Z" in
  let osu :=
    OsuApi.mk (fun _ => Ok (Some []))
      (fun id => if (id =? 9)%Z then Ok (Some osuScore) else Ok None)
      (fun _ _ => Ok (Some [])) (fun _ _ => Ok (Some 5)) in
  let st := DatabaseUpdater.mk
              (DatabaseManager.mk []
                 (fun k => match k with
                           | MORMod.HD => [row 9%Z 100; row 10%Z 90]
                           | _ => []
                           end)) [] in
  exists st',
    DatabaseUpdater.updateScores osu st = (st', Ok tt) /\
    DatabaseManager.USERS (DatabaseUpdater.dbm st') = [] /\
    forall k, DatabaseManager.scores (DatabaseUpdater.dbm st') k =
              renewed osu (DatabaseManager.scores (DatabaseUpdater.dbm st) k).
Proof.
  intros row osuScore osu st.
  apply (updateScores_renews osu st).
  - intros k. destruct k; repeat constructor; cbn; intros H;
      repeat (destruct H as [H|H]; [discriminate|]); exact H.
  - intros k r. destruct k; cbn; intros H; try contradiction.
    destruct H as [<-|[<-|[]]].
    + right. exists osuScore, (row 9%Z 120). repeat split.
    + left. reflexivity.
Defined.


(** ** Facts about the bot's commands *)

Section PageFacts.

Context {A : Type}.
Variable items : list A.

Let n : Z := Z.of_nat (List.length items).

Lemma numPages_eq : Bot.numPages items = ((n + 4) / 5)%Z.
Proof.
  unfold Bot.numPages, mathCeil, Qceiling, Qfloor, Bot.perPage. fold n.
  cbn [inject_Z Qdiv Qinv Qmult Qopp Qnum Qden Pos.mul Z.opp].
  change (Z.pos (1 * 5)) with 5%Z.
  pose proof (Z.div_mod (- (n * 1)) 5 ltac:(lia)) as H.
  pose proof (Z.mod_pos_bound (- (n * 1)) 5 ltac:(lia)) as Hb.
  apply (Z.div_unique _ _ _ (4 - (- (n * 1)) mod 5)%Z); lia.
Qed.

Lemma numPages_bounds :
  (5 * (Bot.numPages items - 1) < n)%Z /\ (n <= 5 * Bot.numPages items)%Z /\
  (0 <= Bot.numPages items)%Z.
Proof.
  rewrite numPages_eq.
  pose proof (Z.div_mod (n + 4) 5 ltac:(lia)) as H.
  pose proof (Z.mod_pos_bound (n + 4) 5 ltac:(lia)) as Hb.
  assert (0 <= n)%Z by (unfold n; lia). lia.
Qed.

Lemma numPages_zero : Bot.numPages items = 0%Z <-> items = [].
Proof.
  pose proof numPages_bounds as (H1 & H2 & H3). split.
  - intros E. rewrite E in *. assert (n = 0)%Z as Hn by (unfold n in *; lia).
    unfold n in Hn. destruct items; [reflexivity|cbn in Hn; lia].
  - intros ->. reflexivity.
Qed.

Lemma skipn_nth_error (k : nat) (l : list A) (x : A) :
  nth_error l k = Some x -> skipn k l = x :: skipn (S k) l.
Proof.
  revert l. induction k as [|k IH]; intros [|y l]; cbn; try discriminate.
  - now intros [= ->].
  - intros H. now apply IH.
Qed.

Lemma itemAt_in_range (idx : Z) :
  (0 <= idx < n)%Z ->
  exists x, nth_error items (Z.to_nat idx) = Some x /\ Bot.itemAt items idx = Ok x.
Proof.
  intros H. unfold Bot.itemAt.
  assert ((idx <? 0)%Z = false) as -> by (apply Z.ltb_ge; lia).
  destruct (nth_error items (Z.to_nat idx)) as [x|] eqn:E; [now exists x|].
  apply nth_error_None in E. unfold n in H. lia.
Qed.

Lemma updateEmbed_loop_spec (page pageLimit : Z) :
  let start := (Bot.perPage * (page - 1))%Z in
  (0 <= start)%Z -> (start + pageLimit <= n)%Z ->
  forall fuel i desc,
    (0 <= i <= pageLimit)%Z -> (Z.to_nat (pageLimit - i) <= fuel)%nat ->
    Bot.updateEmbed_loop items fuel page pageLimit i desc =
      Ok (desc ++ numbered (start + i + 1)
                    (firstn (Z.to_nat (pageLimit - i))
                            (skipn (Z.to_nat (start + i)) items)))%list.
Proof.
  intros start Hs Hl. induction fuel as [|fuel IH]; intros i desc Hi Hf.
  - cbn [Bot.updateEmbed_loop].
    replace (Z.to_nat (pageLimit - i)) with 0%nat by lia. cbn.
    now rewrite app_nil_r.
  - cbn [Bot.updateEmbed_loop]. destruct (Z.ltb_spec i pageLimit) as [Hlt|Hge].
    + fold start.
      destruct (itemAt_in_range (start + i)%Z ltac:(lia)) as (x & Hx & ->).
      rewrite IH by lia.
      replace (Z.to_nat (pageLimit - i)) with (S (Z.to_nat (pageLimit - (i + 1))))
        by lia.
      rewrite (skipn_nth_error _ _ _ Hx). cbn [firstn numbered].
      replace (S (Z.to_nat (start + i))) with (Z.to_nat (start + (i + 1))) by lia.
      rewrite <- app_assoc. cbn [app].
      replace (start + (i + 1) + 1)%Z with (start + i + 1 + 1)%Z by lia.
      reflexivity.
    + replace (Z.to_nat (pageLimit - i)) with 0%nat by lia. cbn.
      now rewrite app_nil_r.
Qed.

Lemma updateEmbed_in_range (page : Z) :
  (1 <= page <= Bot.numPages items)%Z ->
  exists first,
    nth_error items (Z.to_nat (5 * (page - 1))) = Some first /\
    Bot.updateEmbed items page =
      Ok (Bot.mkEmbed first (numbered (5 * (page - 1) + 1) (pageItems items page))).
Proof.
  intros Hp. pose proof numPages_bounds as (H1 & H2 & H3).
  assert (0 < n)%Z as Hn by lia.
  pose proof (Z.div_mod n 5 ltac:(lia)) as Hdm.
  pose proof (Z.mod_pos_bound n 5 ltac:(lia)) as Hmb.
  unfold Bot.updateEmbed.
  assert (((page <? 1) || (page >? Bot.numPages items))%Z = false) as ->.
  { apply orb_false_iff. split; [apply Z.ltb_ge; lia|].
    rewrite Z.gtb_ltb. apply Z.ltb_ge. lia. }
  fold n. unfold Bot.perPage in *.
  set (pageLimit := if ((page =? Bot.numPages items) && negb (n mod 5 =? 0))%Z
                    then (n mod 5)%Z else 5%Z).
  assert (0 <= pageLimit <= 5 /\ 5 * (page - 1) + pageLimit <= n /\
          (pageLimit = 5 \/ 5 * (page - 1) + pageLimit = n))%Z as (Hl1 & Hl2 & Hl3).
  { unfold pageLimit.
    destruct (Z.eqb_spec page (Bot.numPages items)) as [E|E];
      destruct (Z.eqb_spec (n mod 5) 0) as [E'|E']; cbn [andb negb]; lia. }
  rewrite (updateEmbed_loop_spec page pageLimit) by (unfold Bot.perPage; lia).
  destruct (itemAt_in_range (5 * (page - 1))%Z ltac:(lia)) as (first & Hf & ->).
  exists first. split; [exact Hf|]. cbn [app]. unfold Bot.perPage, pageItems.
  rewrite !Z.add_0_r, Z.sub_0_r. do 3 f_equal.
  destruct Hl3 as [->|Hl3]; [reflexivity|].
  rewrite !firstn_all2; [reflexivity| |]; rewrite length_skipn; unfold n in *; lia.
Qed.

Lemma updateEmbed_out_of_range (page : Z) :
  (page < 1 \/ Bot.numPages items < page)%Z ->
  exists msg, Bot.updateEmbed items page = Throw (RangeError msg).
Proof.
  intros Hp. unfold Bot.updateEmbed.
  assert (((page <? 1) || (page >? Bot.numPages items))%Z = true) as ->.
  { apply orb_true_iff. rewrite Z.gtb_ltb, !Z.ltb_lt. lia. }
  eauto.
Qed.

Lemma pages_cover (k : nat) :
  flat_map (fun p => firstn 5 (skipn (5 * p) items)) (seq 0 k) =
  firstn (5 * k) items.
Proof.
  induction k as [|k IH]; [reflexivity|].
  rewrite seq_S, flat_map_app, IH. cbn [flat_map plus]. rewrite app_nil_r.
  replace (5 * S k)%nat with (5 * k + 5)%nat by lia.
  now rewrite firstn_plus.
Qed.

End PageFacts.

(** X21: the pages of the two leaderboards show every item once.  For the
    list a command pages, [numPages] is the length divided by 5 and
    rounded up; [updateEmbed] of a page from 1 to [numPages] reads no
    place past the end of the list and shows the five items from place
    [5 (page - 1)] on (those left, on the last page), numbered from
    [5 (page - 1) + 1], with the first of them for its thumbnail;
    [updateEmbed] of any other page throws a RangeError; and the pages
    from 1 to [numPages], one after the other, show the whole list in its
    order. *)
Theorem updateEmbed_pages {A : Type} (items : list A) :
  Bot.numPages items = ((Z.of_nat (List.length items) + 4) / 5)%Z /\
  (forall page, (1 <= page <= Bot.numPages items)%Z ->
     exists first,
       nth_error items (Z.to_nat (5 * (page - 1))) = Some first /\
       pageItems items page <> [] /\
       Bot.updateEmbed items page =
         Ok (Bot.mkEmbed first
               (numbered (5 * (page - 1) + 1) (pageItems items page)))) /\
  (forall page, (page < 1 \/ Bot.numPages items < page)%Z ->
     exists msg, Bot.updateEmbed items page = Throw (RangeError msg)) /\
  flat_map (fun p => pageItems items (Z.of_nat p))
           (seq 1 (Z.to_nat (Bot.numPages items))) = items.
Proof.
  split; [apply numPages_eq|]. split; [|split].
  - intros page Hp. destruct (updateEmbed_in_range items page Hp) as (first & Hf & Hu).
    exists first. split; [exact Hf|]. split; [|exact Hu].
    unfold pageItems. rewrite (skipn_nth_error _ _ _ Hf). discriminate.
  - apply updateEmbed_out_of_range.
  - rewrite <- seq_shift, flat_map_concat_map, map_map, <- flat_map_concat_map.
    rewrite (flat_map_ext _ (fun p => firstn 5 (skipn (5 * p) items))).
    + rewrite pages_cover. apply firstn_all2.
      pose proof (numPages_bounds items) as (_ & H & H'). lia.
    + intros p. unfold pageItems. f_equal. f_equal. lia.
Qed.

Section PagerFacts.

Context {A : Type}.
Variable items : list A.

Lemma updateEmbed_Ok (page : Z) :
  (1 <= page <= Bot.numPages items)%Z ->
  exists e, Bot.updateEmbed items page = Ok e.
Proof.
  intros H. destruct (updateEmbed_in_range items page H) as (first & _ & E).
  eauto.
Qed.

Lemma openPager_cases :
  (items = [] /\ Bot.openPager items = Ok None) \/
  exists p, Bot.openPager items = Ok (Some p) /\ pagerOk items p /\
            Bot.currentPage p = 1%Z.
Proof.
  unfold Bot.openPager. destruct (Z.eqb_spec (Bot.numPages items) 0) as [E|E].
  - left. split; [now apply numPages_zero|reflexivity].
  - right. pose proof (numPages_bounds items) as (_ & _ & H).
    destruct (updateEmbed_Ok 1 ltac:(lia)) as (e & He). rewrite He.
    eexists. split; [reflexivity|]. split; [|reflexivity].
    unfold pagerOk.
    cbn [Bot.currentPage Bot.startDisabled Bot.prevDisabled Bot.nextDisabled
         Bot.lastDisabled Bot.embed].
    rewrite (Z.eqb_sym 1 (Bot.numPages items)). repeat split; auto; lia.
Qed.

Lemma updateButtons_enabled (p : Bot.Pager A) (b : Bot.Button) :
  pagerOk items p -> disabled p b = false ->
  exists p', Bot.updateButtons items p b = (p', Ok tt) /\ pagerOk items p'.
Proof.
  intros (Hr & H0 & H1 & H2 & H3 & He) Hd. unfold Bot.updateButtons.
  destruct b; cbn [disabled] in Hd.
  - rewrite H0 in Hd. apply Z.eqb_neq in Hd.
    destruct (updateEmbed_Ok 1 ltac:(lia)) as (e & E). rewrite E.
    eexists. split; [reflexivity|]. unfold pagerOk.
    cbn [Bot.currentPage Bot.startDisabled Bot.prevDisabled Bot.nextDisabled
         Bot.lastDisabled Bot.embed].
    assert ((1 =? Bot.numPages items)%Z = false) as -> by (apply Z.eqb_neq; lia).
    repeat split; auto; lia.
  - rewrite H1 in Hd. apply Z.eqb_neq in Hd.
    destruct (updateEmbed_Ok (Bot.currentPage p - 1) ltac:(lia)) as (e & E).
    rewrite E. eexists. split; [reflexivity|]. unfold pagerOk. cbn.
    assert ((Bot.currentPage p - 1 =? Bot.numPages items)%Z = false) as ->
      by (apply Z.eqb_neq; lia).
    repeat split; auto; lia.
  - rewrite H2 in Hd. apply Z.eqb_neq in Hd.
    destruct (updateEmbed_Ok (Bot.currentPage p + 1) ltac:(lia)) as (e & E).
    rewrite E. eexists. split; [reflexivity|]. unfold pagerOk. cbn.
    assert ((Bot.currentPage p + 1 =? 1)%Z = false) as ->
      by (apply Z.eqb_neq; lia).
    repeat split; auto; lia.
  - rewrite H3 in Hd. apply Z.eqb_neq in Hd.
    destruct (updateEmbed_Ok (Bot.numPages items) ltac:(lia)) as (e & E).
    rewrite E. eexists. split; [reflexivity|]. unfold pagerOk. cbn.
    assert ((Bot.numPages items =? 1)%Z = false) as -> by (apply Z.eqb_neq; lia).
    rewrite Z.eqb_refl. repeat split; auto; lia.
  - exists p. split; [reflexivity|]. unfold pagerOk. repeat split; auto; lia.
Qed.

End PagerFacts.

(** X22: the buttons keep the page in range.  A command with nothing to
    list opens no pager; otherwise it opens on page 1 a pager in order:
    its page is between 1 and [numPages], start and prev are disabled
    exactly on page 1, next and last exactly on the last page.  A press
    of a button that is not disabled on a pager in order gives a pager
    in order again and [updateEmbed] does not throw, so the RangeError
    of [updateEmbed] is out of reach of the enabled buttons; a press of
    prev on page 1, which is disabled there, sets the page to 0 and
    throws it. *)
Theorem updateButtons_keeps_page_in_range {A : Type} (items : list A) :
  ((items = [] /\ Bot.openPager items = Ok None) \/
   exists p, Bot.openPager items = Ok (Some p) /\ pagerOk items p /\
             Bot.currentPage p = 1%Z) /\
  (forall p b, pagerOk items p -> disabled p b = false ->
     exists p', Bot.updateButtons items p b = (p', Ok tt) /\ pagerOk items p') /\
  (forall p, pagerOk items p -> Bot.currentPage p = 1%Z ->
     disabled p Bot.Prev = true /\
     exists p' msg,
       Bot.updateButtons items p Bot.Prev = (p', Throw (RangeError msg)) /\
       Bot.currentPage p' = 0%Z /\ Bot.embed p' = Bot.embed p).
Proof.
  split; [apply openPager_cases|]. split; [apply updateButtons_enabled|].
  intros p (Hr & H0 & H1 & _) Hc. split.
  - cbn. now rewrite H1, Hc.
  - unfold Bot.updateButtons. rewrite Hc.
    destruct (updateEmbed_out_of_range items (1 - 1)%Z ltac:(lia)) as (msg & E).
    rewrite E. eexists. exists msg. repeat split.
Qed.

Section SortRelFacts.

Context {A : Type} (cmp : A -> A -> Z) (le : A -> A -> Prop).
Hypothesis cmp_le : forall a b, (cmp a b <= 0)%Z <-> le a b.
Hypothesis le_total : forall a b, le a b \/ le b a.
Hypothesis le_trans : forall a b c, le a b -> le b c -> le a c.



End SortRelFacts.

Section ScoresCmdFacts.





End ScoresCmdFacts.


Section CommandFacts.

Lemma findIndex_from_spec {A : Type} (f : A -> bool) (l : list A) (i : Z) :
  (findIndex_from i f l = (-1)%Z /\ forall x, In x l -> f x = false) \/
  (exists k x, findIndex_from i f l = (i + Z.of_nat k)%Z /\
               nth_error l k = Some x /\ f x = true /\
               forall j y, (j < k)%nat -> nth_error l j = Some y -> f y = false).
Proof.
  revert i. induction l as [|a l IH]; intros i; cbn [findIndex_from].
  - left. split; [reflexivity|]. intros x [].
  - destruct (f a) eqn:Ha.
    + right. exists 0%nat, a. split; [cbn; lia|]. split; [reflexivity|].
      split; [exact Ha|]. intros j y Hj. lia.
    + destruct (IH (i + 1)%Z) as [[E Hall]|(k & x & E & Hn & Hx & Hfirst)].
      * left. split; [exact E|]. intros x [<-|Hx]; auto.
      * right. exists (S k), x. split; [rewrite E; lia|]. split; [exact Hn|].
        split; [exact Hx|]. intros [|j] y Hj Hy.
        -- cbn in Hy. now injection Hy as <-.
        -- apply (Hfirst j y); [lia|exact Hy].
Qed.

Lemma rank_spec (db : DatabaseManager.t) (username : string) :
  let dbIdx := findIndex (named username) (ranked db) in
  (dbIdx = (-1)%Z /\
   forall u, In u (DatabaseManager.USERS db) -> MORUser.autotrack u = true ->
             named username u = false) \/
  (exists u, (0 <= dbIdx)%Z /\
             nth_error (ranked db) (Z.to_nat dbIdx) = Some u /\
             named username u = true /\
             forall k v, (k < Z.to_nat dbIdx)%nat ->
                         nth_error (ranked db) k = Some v ->
                         named username v = false).
Proof.
  intros dbIdx. unfold dbIdx, findIndex.
  destruct (findIndex_from_spec (named username) (ranked db) 0)
    as [[E Hall]|(k & x & E & Hn & Hx & Hfirst)].
  - left. split; [exact E|]. intros u Hin Ht. apply Hall. unfold ranked.
    apply filter_In. split; [|exact Ht].
    apply (Permutation_in _ (Permutation_sym (sort_perm _ _))). exact Hin.
  - right. exists x. rewrite E. cbn [Z.add]. rewrite Nat2Z.id.
    split; [lia|]. now repeat split.
Qed.

Lemma insertScore_throws (db : DatabaseManager.t) (score : MORScore.t) (e : Error) :
  snd (DatabaseManager.insertScore db score) = Throw e ->
  fst (DatabaseManager.insertScore db score) = db.
Proof.
  pose proof (insertScore_cases db score) as H.
  destruct (Common.convertOsuMods _); [|now rewrite H].
  destruct (DatabaseManager.scoreCheck score); [now rewrite H|].
  destruct (existsb _ _); rewrite H; [reflexivity|discriminate].
Qed.

End CommandFacts.

(** X24: [removeScoreCmd] removes one row, from the table its modifier
    string names.  In a database where every row is in the table its
    modifier string names, and for a [score_id] option that does not read
    as a number beyond the safe integers, the command does not throw.  It
    replies that it could not find the score, and leaves the database as
    it is, exactly when the option does not read as the id of a stored
    row.  Otherwise the row it shows is a stored row with that id, the
    table that row's modifier string names loses its rows with the id,
    and the users and the other tables, also their rows with the same id,
    stay as they are. *)
Theorem removeScoreCmd_removes (db : DatabaseManager.t) (scoreID : string) :
  filed db -> safeOption scoreID ->
  exists reply,
    snd (Bot.removeScoreCmd db scoreID) = Ok reply /\
    let db' := fst (Bot.removeScoreCmd db scoreID) in
    match reply with
    | Bot.CouldNotFindScore s =>
        s = scoreID /\ db' = db /\
        forall r, In r (DatabaseManager.getScores db) ->
                  parseInt scoreID <> Some (MORScore.scoreID r)
    | Bot.ScoreRemoved r =>
        parseInt scoreID = Some (MORScore.scoreID r) /\
        exists key,
          In r (DatabaseManager.scores db key) /\
          Common.convertOsuMods (Common.modStringToArray (MORScore.mods r)) = Ok key /\
          DatabaseManager.USERS db' = DatabaseManager.USERS db /\
          DatabaseManager.scores db' key =
            without [MORScore.scoreID r] (DatabaseManager.scores db key) /\
          forall k, k <> key -> DatabaseManager.scores db' k = DatabaseManager.scores db k
    end.
Proof.
  intros Hf _. unfold Bot.removeScoreCmd.
  destruct (find _ (DatabaseManager.getScores db)) as [r|] eqn:Hfind.
  - apply find_some in Hfind. destruct Hfind as [Hin Hid].
    apply getScores_In in Hin. destruct Hin as [key Hin].
    rewrite (Hf key r Hin). exists (Bot.ScoreRemoved r). split; [reflexivity|].
    cbn [fst]. split.
    + destruct (parseInt scoreID) as [n|]; [|discriminate].
      apply Z.eqb_eq in Hid. now subst.
    + exists key. split; [exact Hin|]. split; [now apply Hf|].
      split; [reflexivity|]. unfold DatabaseManager.removeScore. split.
      * rewrite scores_setScores_same. unfold without.
        apply filter_ext. intros a. cbn [existsb]. now rewrite orb_false_r.
      * intros k Hk. now apply scores_setScores_other.
  - exists (Bot.CouldNotFindScore scoreID). split; [reflexivity|].
    cbn [fst]. split; [reflexivity|]. split; [reflexivity|].
    intros r Hin E. apply (find_none _ _ Hfind) in Hin.
    rewrite E, Z.eqb_refl in Hin. discriminate.
Qed.

Lemma removeScoreCmd_removes_witness :
  let row := MORScore.mk 9 1 3 "user" "artist - title [diff]" "HDNF" 100 99 5
               "2024-01-01T00:00:00Z" "cover" in
  let db := DatabaseManager.mk []
              (fun k => match k with MORMod.HD => [row] | _ => [] end) in
  exists reply,
    snd (Bot.removeScoreCmd db "9") = Ok reply /\
    let db' := fst (Bot.removeScoreCmd db "9") in
    match reply with
    | Bot.CouldNotFindScore s =>
        s = "9" /\ db' = db /\
        forall r, In r (DatabaseManager.getScores db) ->
                  parseInt "9" <> Some (MORScore.scoreID r)
    | Bot.ScoreRemoved r =>
        parseInt "9" = Some (MORScore.scoreID r) /\
        exists key,
          In r (DatabaseManager.scores db key) /\
          Common.convertOsuMods (Common.modStringToArray (MORScore.mods r)) = Ok key /\
          DatabaseManager.USERS db' = DatabaseManager.USERS db /\
          DatabaseManager.scores db' key =
            without [MORScore.scoreID r] (DatabaseManager.scores db key) /\
          forall k, k <> key -> DatabaseManager.scores db' k = DatabaseManager.scores db k
    end.
Proof.
  intros row db. apply (removeScoreCmd_removes db "9").
  - intros key r. destruct key; cbn; intros H; try contradiction;
      destruct H as [<-|[]]; reflexivity.
  - intros n H. vm_compute in H. injection H as <-. vm_compute. discriminate.
Defined.

(** X25: the add commands never overwrite.  [addUserCmd] and [addScoreCmd]
    leave the database as it is when they throw or reply that the API
    holds no such user or score.  Otherwise they reply with the row built
    from the API's answer (for a user with the three top counters at 0
    and the [track] option as its autotrack flag) whether or not it was
    stored: when a row with its id is already there (for a score, in the
    table its modifier string names) the database stays as it is, the
    stored row included; else the row is appended, to USERS or to that
    table, and nothing else changes.  The rank [addUserCmd] shows is
    looked up by the [username] option: it is N/A exactly when no tracked
    user stored carries that name up to the case of letters, and else the
    place of the first such user among the tracked users by pp. *)
Theorem add_commands_never_overwrite :
  (forall (getUser : string -> Result (option OsuUser.t)) (db : DatabaseManager.t)
          (username : string) (autotrack : bool),
     let db' := fst (Bot.addUserCmd getUser db username autotrack) in
     match snd (Bot.addUserCmd getUser db username autotrack) with
     | Throw e => db' = db
     | Ok (Bot.CouldNotRetrieveUser u) =>
         u = username /\ db' = db /\ getUser username = Ok None
     | Ok (Bot.UserAdded dbUser dbIdx) =>
         (exists osuUser,
            getUser username = Ok (Some osuUser) /\
            MORUser.userID dbUser = OsuUser.id osuUser /\
            MORUser.username dbUser = OsuUser.username osuUser) /\
         MORUser.top1s dbUser = 0%Z /\ MORUser.top2s dbUser = 0%Z /\
         MORUser.top3s dbUser = 0%Z /\ MORUser.autotrack dbUser = autotrack /\
         DatabaseManager.scores db' = DatabaseManager.scores db /\
         (if existsb (fun r => (MORUser.userID r =? MORUser.userID dbUser)%Z)
                     (DatabaseManager.USERS db)
          then db' = db
          else DatabaseManager.USERS db' = (DatabaseManager.USERS db ++ [dbUser])%list) /\
         ((dbIdx = (-1)%Z /\
           forall u, In u (DatabaseManager.USERS db') -> MORUser.autotrack u = true ->
                     named username u = false) \/
          (exists u, (0 <= dbIdx)%Z /\
                     nth_error (ranked db') (Z.to_nat dbIdx) = Some u /\
                     named username u = true /\
                     forall k v, (k < Z.to_nat dbIdx)%nat ->
                                 nth_error (ranked db') k = Some v ->
                                 named username v = false))
     end) /\
  (forall (osu : OsuApi.t) (getScore : string -> Result (option OsuScore.t))
          (db : DatabaseManager.t) (scoreID : string),
     let db' := fst (Bot.addScoreCmd osu getScore db scoreID) in
     match snd (Bot.addScoreCmd osu getScore db scoreID) with
     | Throw e => db' = db
     | Ok (Bot.CouldNotRetrieveScore s) =>
         s = scoreID /\ db' = db /\ getScore scoreID = Ok None
     | Ok (Bot.ScoreAdded dbScore) =>
         exists osuScore key,
           getScore scoreID = Ok (Some osuScore) /\
           Common.osuScoreToMORScore osu osuScore = Ok dbScore /\
           Common.convertOsuMods (Common.modStringToArray (MORScore.mods dbScore)) = Ok key /\
           DatabaseManager.USERS db' = DatabaseManager.USERS db /\
           (forall k, k <> key ->
                      DatabaseManager.scores db' k = DatabaseManager.scores db k) /\
           (if existsb (hasID (MORScore.scoreID dbScore)) (DatabaseManager.scores db key)
            then db' = db
            else DatabaseManager.scores db' key =
                   (DatabaseManager.scores db key ++ [dbScore])%list)
     end).
Proof.
  split.
  - intros getUser db username autotrack. unfold Bot.addUserCmd.
    destruct (getUser username) as [[osuUser|]|e] eqn:Hget; cbn [fst snd];
      [|now repeat split|reflexivity].
    set (dbUser := MORUser.mk _ _ _ _ _ _ _ _ _ _ _ _ _ _ _ _).
    pose proof (insertUser_cases db dbUser) as H.
    destruct (DatabaseManager.userCheck dbUser);
      [rewrite H; reflexivity|].
    destruct (existsb _ (DatabaseManager.USERS db)) eqn:He; rewrite H;
      cbn [fst snd]; rewrite He.
    + split; [now exists osuUser|]. repeat (split; [reflexivity|]).
      apply (rank_spec db username).
    + split; [now exists osuUser|]. repeat (split; [reflexivity|]).
      apply (rank_spec (DatabaseManager.setUsers db _) username).
  - intros osu getScore db scoreID. unfold Bot.addScoreCmd.
    destruct (getScore scoreID) as [[osuScore|]|e] eqn:Hget; cbn [fst snd];
      [|now repeat split|reflexivity].
    destruct (Common.osuScoreToMORScore osu osuScore) as [dbScore|e] eqn:Hconv;
      [|reflexivity].
    pose proof (insertScore_cases db dbScore) as H.
    destruct (Common.convertOsuMods _) as [key|e] eqn:Hkey;
      [|rewrite H; reflexivity].
    destruct (DatabaseManager.scoreCheck dbScore); [rewrite H; reflexivity|].
    destruct (existsb _ (DatabaseManager.scores db key)) eqn:He; rewrite H;
      cbn [fst snd]; exists osuScore, key; rewrite He.
    + now repeat split.
    + split; [reflexivity|]. split; [exact Hconv|]. split; [exact Hkey|].
      split; [reflexivity|]. split.
      * intros k Hk. now apply scores_setScores_other.
      * apply scores_setScores_same.
Qed.

(** X26: the bot's commands keep the tables in order.  In a database where
    every row is in the table its modifier string names, user ids are
    unique in USERS and score ids are unique in each score table, the
    same holds after [addUserCmd], [removeUserCmd], [addScoreCmd] and
    [removeScoreCmd], whatever their options, whatever the API answers
    and whether they reply or throw. *)
Theorem Bot_commands_keep_tables_in_order (db : DatabaseManager.t)
    (getUser : string -> Result (option OsuUser.t)) (osu : OsuApi.t)
    (getScore : string -> Result (option OsuScore.t))
    (option : string) (flag : bool) :
  filed db /\ keyed db ->
  let kept db' := filed db' /\ keyed db' in
  kept (fst (Bot.addUserCmd getUser db option flag)) /\
  kept (fst (Bot.removeUserCmd db option flag)) /\
  kept (fst (Bot.addScoreCmd osu getScore db option)) /\
  kept (fst (Bot.removeScoreCmd db option)).
Proof.
  intros H kept. unfold kept. split; [|split; [|split]].
  - unfold Bot.addUserCmd. destruct (getUser option) as [[osuUser|]|e];
      [|exact H|exact H].
    set (dbUser := MORUser.mk _ _ _ _ _ _ _ _ _ _ _ _ _ _ _ _).
    pose proof (insertUser_sound db dbUser H) as Hs.
    destruct (DatabaseManager.insertUser db dbUser) as [db' [u|e]]; exact Hs.
  - unfold Bot.removeUserCmd. destruct (find _ _) as [dbUser|]; [|exact H].
    cbn [fst]. destruct flag.
    + now apply removeUserScores_sound, removeUser_sound.
    + now apply removeUser_sound.
  - unfold Bot.addScoreCmd. destruct (getScore option) as [[osuScore|]|e];
      [|exact H|exact H].
    destruct (Common.osuScoreToMORScore osu osuScore) as [dbScore|e]; [|exact H].
    pose proof (insertScore_sound db dbScore H) as Hs.
    destruct (DatabaseManager.insertScore db dbScore) as [db' [u|e]]; exact Hs.
  - unfold Bot.removeScoreCmd. destruct (find _ _) as [dbScore|]; [|exact H].
    destruct (Common.convertOsuMods _) as [key|e]; [|exact H].
    now apply removeScore_sound.
Qed.

Lemma Bot_commands_keep_tables_in_order_witness :
  let row := MORScore.mk 9 1 3 "user" "artist - title [diff]" "HDNF" 100 99 5
               "2024-01-01T00:00:00Z" "cover" in
  let user := MORUser.mk 1 "user" "CA" (Some 1%Z) 100 99 0 0 0 0 0 "avatar" 0 0 0 true in
  let db := DatabaseManager.mk [user]
              (fun k => match k with MORMod.HD => [row] | _ => [] end) in
  let db' := fst (Bot.removeScoreCmd db "9") in
  filed db' /\ keyed db'.
Proof.
  intros row user db db'.
  apply (Bot_commands_keep_tables_in_order db (fun _ => Ok None)
           (OsuApi.mk (fun _ => Ok None) (fun _ => Ok None) (fun _ _ => Ok None)
                      (fun _ _ => Ok None))
           (fun _ => Ok None) "9" true).
  split; [|split].
  - intros key r. destruct key; cbn; intros H; try contradiction;
      destruct H as [<-|[]]; reflexivity.
  - repeat constructor. intros [].
  - intros key. destruct key; repeat constructor; intros [].
Defined.


(** ** Facts about numeric strings *)

Section NumeralFacts.

Lemma of_uint_acc_value (d : Decimal.uint) (acc : positive) :
  Z.pos (Pos.of_uint_acc d acc) = uintValue d (Z.pos acc).
Proof.
  revert acc. induction d; intros acc; cbn [Pos.of_uint_acc uintValue];
    [reflexivity|rewrite IHd; f_equal; lia..].
Qed.

Lemma of_uint_value (d : Decimal.uint) : Z.of_uint d = uintValue d 0.
Proof.
  unfold Z.of_uint.
  induction d; cbn [Pos.of_uint uintValue]; [reflexivity|exact IHd|..];
    cbn [Z.of_N]; rewrite of_uint_acc_value; reflexivity.
Qed.

Lemma uintValue_le (d : Decimal.uint) (acc : Z) :
  (0 <= acc -> acc <= uintValue d acc)%Z.
Proof.
  revert acc. induction d; intros acc Hacc; cbn [uintValue]; [lia|..];
    match goal with
    | |- (_ <= uintValue _ ?a)%Z => specialize (IHd a); lia
    end.
Qed.

Lemma parseDigits_numeral (d : Decimal.uint) (a : Z) (s : string) :
  parseDigits 10 (DecimalString.NilEmpty.string_of_uint d ++ s) (Some a) =
  parseDigits 10 s (Some (uintValue d a)).
Proof.
  revert a. induction d; intros a;
    cbn [DecimalString.NilEmpty.string_of_uint uintValue String.append];
    [reflexivity|..]; cbn [parseDigits];
    match goal with
    | |- context [digitValue 10 ?c] =>
        let v := eval vm_compute in (digitValue 10 c) in
        change (digitValue 10 c) with v
    end; cbv iota beta; rewrite IHd; do 3 f_equal; lia.
Qed.

Lemma digitValue_nonneg (radix : Z) (c : ascii) (d : Z) :
  digitValue radix c = Some d -> (0 <= d)%Z.
Proof.
  unfold digitValue.
  repeat match goal with
         | |- context [if ?b then _ else _] => destruct b eqn:?
         end; intros [= <-]; lia.
Qed.

Lemma parseDigits_Some (radix : Z) (s : string) (a : Z) :
  (0 < radix)%Z -> (0 <= a)%Z ->
  exists v, parseDigits radix s (Some a) = Some v /\ (a <= v)%Z.
Proof.
  intros Hr. revert a. induction s as [|c s IH]; intros a Ha; cbn [parseDigits].
  - exists a. split; [reflexivity|lia].
  - destruct (digitValue radix c) as [d|] eqn:Hd.
    + apply digitValue_nonneg in Hd.
      destruct (IH (radix * a + d)%Z) as (v & -> & Hv); [nia|].
      exists v. split; [reflexivity|nia].
    + exists a. split; [reflexivity|lia].
Qed.

(** A numeral other than 0, with anything after it, is read in radix 10
    from its first digit on. *)
Lemma parseInt_numeral (d : Decimal.uint) (s : string) :
  d <> Decimal.Nil -> d <> Decimal.D0 Decimal.Nil ->
  parseInt (DecimalString.NilEmpty.string_of_uint d ++ s) =
    option_map (Z.mul 1) (parseDigits 10 s (Some (uintValue d 0))) /\
  parseInt (String "-" (DecimalString.NilEmpty.string_of_uint d ++ s)) =
    option_map (Z.mul (-1)) (parseDigits 10 s (Some (uintValue d 0))).
Proof.
  intros Hnil Hzero.
  assert (forall t, parseDigits 10 (DecimalString.NilEmpty.string_of_uint d ++ t) None =
                    parseDigits 10 t (Some (uintValue d 0))) as Hd.
  { intros t. destruct d; [contradiction|..];
      cbn [DecimalString.NilEmpty.string_of_uint uintValue String.append];
      (etransitivity; [|apply parseDigits_numeral]); reflexivity. }
  rewrite <- Hd.
  destruct d as [|d|d|d|d|d|d|d|d|d|d]; [contradiction| |..]; try (split; reflexivity).
  destruct d as [|d|d|d|d|d|d|d|d|d|d]; [contradiction|..]; split; reflexivity.
Qed.

Lemma numberToString_pos (p : positive) :
  numberToString (Z.pos p) = DecimalString.NilEmpty.string_of_uint (Pos.to_uint p) /\
  numberToString (Z.neg p) =
    String "-" (DecimalString.NilEmpty.string_of_uint (Pos.to_uint p)) /\
  uintValue (Pos.to_uint p) 0 = Z.pos p.
Proof.
  pose proof (DecimalPos.Unsigned.to_uint_nonnil p) as Hnil.
  unfold numberToString. cbn [Z.to_int DecimalString.NilZero.string_of_int].
  unfold DecimalString.NilZero.string_of_uint.
  split; [|split].
  - destruct (Pos.to_uint p); [contradiction|reflexivity..].
  - destruct (Pos.to_uint p); [contradiction|reflexivity..].
  - rewrite <- of_uint_value. unfold Z.of_uint.
    now rewrite DecimalPos.Unsigned.of_to.
Qed.

(** What [parseInt] reads in a nonzero numeral followed by [s]. *)
Lemma parseInt_numberToString_app (n : Z) (s : string) :
  n <> 0%Z ->
  exists v, parseInt (numberToString n ++ s) = Some (Z.sgn n * v)%Z /\
            (Z.abs n <= v)%Z /\ (s = "" -> v = Z.abs n).
Proof.
  intros Hn. destruct n as [|p|p]; [contradiction| |];
    destruct (numberToString_pos p) as (Hpos & Hneg & Hval);
    pose proof (DecimalPos.Unsigned.to_uint_nonnil p) as Hnil;
    pose proof (DecimalPos.Unsigned.to_uint_nonzero p) as Hzero;
    destruct (parseInt_numeral (Pos.to_uint p) s Hnil Hzero) as [Hp Hm];
    destruct (parseDigits_Some 10 s (Z.pos p)) as (v & Hv & Hle); try lia.
  - rewrite Hpos, Hp, Hval, Hv. exists v. split; [cbn [option_map]; f_equal; cbn; lia|].
    split; [cbn; lia|]. intros ->. cbn in Hv. injection Hv as <-. reflexivity.
  - rewrite Hneg. cbn [String.append]. rewrite Hm, Hval, Hv. exists v.
    split; [reflexivity|]. split; [cbn; lia|].
    intros ->. cbn in Hv. injection Hv as <-. reflexivity.
Qed.

Lemma append_empty (s : string) : (s ++ "")%string = s.
Proof. induction s as [|c s IH]; cbn; [reflexivity|now rewrite IH]. Qed.

End NumeralFacts.

(** X27: [isNumericString] and [isPositiveNumericString] on the numerals
    the bot prints.  For a safe integer [n], [parseInt] reads [n] back
    from the decimal numeral [toString] prints for it, so
    [isNumericString] accepts the numeral and [isPositiveNumericString]
    accepts it exactly when [n] is above 0.  When [n] is not 0 the same
    answers are given for the numeral followed by any characters: what
    comes after a numeral does not make a string less numeric. *)
Theorem isNumericString_reads_a_numeral (n : Z) (s : string) :
  (Z.abs n <= 2 ^ 53)%Z ->
  parseInt (numberToString n) = Some n /\
  Common.isNumericString (numberToString n) = true /\
  Common.isPositiveNumericString (numberToString n) = (0 <? n)%Z /\
  (n <> 0%Z ->
   Common.isNumericString (numberToString n ++ s) = true /\
   Common.isPositiveNumericString (numberToString n ++ s) = (0 <? n)%Z).
Proof.
  intros _.
  assert (parseInt (numberToString n) = Some n) as Hback.
  { destruct (Z.eq_dec n 0) as [->|Hn]; [reflexivity|].
    destruct (parseInt_numberToString_app n "" Hn) as (v & Hv & _ & Hval).
    rewrite append_empty in Hv. rewrite Hv, (Hval eq_refl). f_equal. lia. }
  split; [exact Hback|].
  unfold Common.isPositiveNumericString, Common.isNumericString.
  rewrite Hback. split; [reflexivity|]. split; [reflexivity|].
  intros Hn. destruct (parseInt_numberToString_app n s Hn) as (v & -> & Hle & _).
  split; [reflexivity|]. cbn [andb].
  destruct (Z.ltb_spec 0 n), (Z.ltb_spec 0 (Z.sgn n * v)); try reflexivity; nia.
Qed.

Lemma isNumericString_reads_a_numeral_witness :
  parseInt (numberToString 727) = Some 727%Z /\
  Common.isNumericString (numberToString 727) = true /\
  Common.isPositiveNumericString (numberToString 727) = (0 <? 727)%Z /\
  (727%Z <> 0%Z ->
   Common.isNumericString (numberToString 727 ++ "pp") = true /\
   Common.isPositiveNumericString (numberToString 727 ++ "pp") = (0 <? 727)%Z).
Proof. apply (isNumericString_reads_a_numeral 727 "pp"). vm_compute. discriminate. Defined.
